(** * Code visualizer: the analysis pipeline of the repository

    A shallow embedding of the three classes of the pipeline:
    - [CodeParser]         (js/parser.js): line classification,
    - [FlowchartGenerator] (the flowchart generator): nodes and connections,
    - [CodeAnalyzer]       (js/analyser.js): metrics, heuristics, cache.

    Conventions of the model.
    - A JavaScript string is a [string]: one [ascii] per UTF-16 code unit,
      for code units below 256 (ASCII and Latin-1).  White space, word
      characters, line terminators and lower-casing are the ECMAScript ones
      restricted to that range (code unit 160 is the no-break space).
    - Counters, line numbers and indentation are [nat]; the quality score
      and the hash are [Z] (they go through negative values).
    - A JavaScript exception is the [Throw] outcome of the [completion]
      monad; [undefined] and [null] are [None].
    - A regular expression is a value of [regex], run by a backtracking
      matcher with capture groups that follows the ECMAScript order of
      alternatives, greedy and lazy quantifiers. *)

From Stdlib Require Import ZArith QArith Ascii String List Bool Lia.
From stdpp Require Import base option list gmap strings pretty.

Local Open Scope string_scope.
Local Open Scope nat_scope.
Local Open Scope list_scope.

(** ** Completions: normal results and thrown exceptions *)

Inductive completion (A : Type) : Type :=
| Normal (a : A)
| Throw (e : string).
Arguments Normal {A} a.
Arguments Throw {A} e.

Definition bind {A B} (m : completion A) (f : A -> completion B) : completion B :=
  match m with
  | Normal a => f a
  | Throw e => Throw e
  end.

Notation "'do' x <- m ; k" := (bind m (fun x => k))
  (at level 10, x name, m at level 100, k at level 200,
   format "'[v' 'do'  x  <-  m ; '/' k ']'").

Definition isNormal {A} (m : completion A) : bool :=
  match m with Normal _ => true | Throw _ => false end.

(** ** JavaScript strings *)

Module JS.

Definition code (a : ascii) : nat := nat_of_ascii a.

Definition between (lo hi n : nat) : bool := (lo <=? n) && (n <=? hi).

(** WhiteSpace and LineTerminator code units: what [\s] matches and what
    [String.prototype.trim] strips. *)
Definition isSpace (a : ascii) : bool :=
  let n := code a in between 9 13 n || (n =? 32) || (n =? 160).

(** [\w] is [A-Za-z0-9_]. *)
Definition isWord (a : ascii) : bool :=
  let n := code a in
  between 48 57 n || between 65 90 n || between 97 122 n || (n =? 95).

(** [\d] is [0-9]. *)
Definition isDigit (a : ascii) : bool := between 48 57 (code a).

(** [.] matches everything but the line terminators. *)
Definition isLineTerminator (a : ascii) : bool :=
  let n := code a in (n =? 10) || (n =? 13).

(** [toLowerCase]: A-Z and the accented capitals of Latin-1 move up by 32. *)
Definition lowerChar (a : ascii) : ascii :=
  let n := code a in
  if between 65 90 n || between 192 214 n || between 216 222 n
  then ascii_of_nat (n + 32) else a.

Fixpoint toLowerCase (s : string) : string :=
  match s with
  | EmptyString => EmptyString
  | String a s' => String (lowerChar a) (toLowerCase s')
  end.

(** [s.includes(sub)]. *)
Fixpoint includes (s sub : string) : bool :=
  String.prefix sub s ||
  match s with
  | EmptyString => false
  | String _ s' => includes s' sub
  end.

(** [s.split(sep)] for a one-character separator: never the empty array. *)
Fixpoint split (sep : ascii) (s : string) : list string :=
  match s with
  | EmptyString => [EmptyString]
  | String a s' =>
      if Ascii.eqb a sep then EmptyString :: split sep s'
      else match split sep s' with
           | [] => [String a EmptyString]
           | w :: ws => String a w :: ws
           end
  end.

Fixpoint trimStart (s : string) : string :=
  match s with
  | EmptyString => EmptyString
  | String a s' => if isSpace a then trimStart s' else s
  end.

(** Drops the trailing white space. *)
Fixpoint trimEnd (s : string) : string :=
  match s with
  | EmptyString => EmptyString
  | String a s' =>
      match trimEnd s' with
      | EmptyString => if isSpace a then EmptyString else String a EmptyString
      | t => String a t
      end
  end.

Definition trim (s : string) : string := trimEnd (trimStart s).

(** Truthiness of a string: the empty string is falsy. *)
Definition truthy (s : string) : bool :=
  match s with EmptyString => false | _ => true end.

(** Truthiness of a possibly undefined string. *)
Definition truthyOpt (o : option string) : bool :=
  match o with Some s => truthy s | None => false end.

(** [a || b] on possibly undefined strings. *)
Definition orElse (a b : option string) : option string :=
  if truthyOpt a then a else b.

(** A value interpolated in a template literal. *)
Definition show (o : option string) : string :=
  match o with Some s => s | None => "undefined" end.

(** [ToInt32]: wrap to the signed 32-bit range. *)
Definition toInt32 (z : Z) : Z :=
  ((z + 2147483648) mod 4294967296 - 2147483648)%Z.

End JS.

(** ** Regular expressions *)

Module Regex.

Inductive cclass : Type :=
| CSpace              (* \s *)
| CWord               (* \w *)
| CDigit              (* \d *)
| CDot                (* .  *)
| COne (a : ascii).   (* a literal character *)

Definition inClass (c : cclass) (a : ascii) : bool :=
  match c with
  | CSpace => JS.isSpace a
  | CWord => JS.isWord a
  | CDigit => JS.isDigit a
  | CDot => negb (JS.isLineTerminator a)
  | COne b => Ascii.eqb a b
  end.

Inductive regex : Type :=
| Eps
| Chr (c : cclass)
| Lit (s : string)
| Seq (r1 r2 : regex)
| Alt (r1 r2 : regex)
| Star (greedy : bool) (r : regex)
| Group (n : nat) (r : regex)
| Bol                 (* ^  *)
| WordB.              (* \b *)

(** Capture groups that took part in the match, latest first. *)
Definition captures : Type := list (nat * string).

Fixpoint capture (n : nat) (c : captures) : option string :=
  match c with
  | [] => None
  | (m, s) :: c' => if n =? m then Some s else capture n c'
  end.

Definition wordAt (inp : string) (i : nat) : bool :=
  match String.get i inp with Some a => JS.isWord a | None => false end.

Definition atWordBoundary (inp : string) (i : nat) : bool :=
  let before := match i with 0 => false | S j => wordAt inp j end in
  xorb before (wordAt inp i).

(** What a match hands to its continuation: the end index and the
    captures. *)
Definition cont : Type := nat -> captures -> option (nat * captures).

(** The iterations of a star whose body is matched by [body].  An
    iteration that consumes nothing is rejected, as in ECMAScript, so
    [fuel = String.length inp] iterations are enough.  A greedy star tries
    one more iteration before it tries the continuation, a lazy star the
    other way round. *)
Fixpoint iterate (body : nat -> captures -> cont -> option (nat * captures))
    (greedy : bool) (k : cont) (fuel i : nat) (c : captures)
    : option (nat * captures) :=
  match fuel with
  | 0 => k i c
  | S fuel' =>
      let again (_ : unit) :=
        body i c (fun j c' => if i <? j then iterate body greedy k fuel' j c' else None) in
      if greedy then
        match again () with
        | Some x => Some x
        | None => k i c
        end
      else
        match k i c with
        | Some x => Some x
        | None => again ()
        end
  end.

(** The backtracking matcher, in continuation-passing style: [rmatch r inp
    i c k] matches [r] at index [i] of [inp] and hands the end index and
    the captures to [k]; when [k] fails the next alternative is tried. *)
Fixpoint rmatch (r : regex) (inp : string) (i : nat) (c : captures) (k : cont)
    : option (nat * captures) :=
  match r with
  | Eps => k i c
  | Chr cl =>
      match String.get i inp with
      | Some a => if inClass cl a then k (S i) c else None
      | None => None
      end
  | Lit s =>
      if String.eqb (String.substring i (String.length s) inp) s
      then k (i + String.length s) c else None
  | Seq r1 r2 => rmatch r1 inp i c (fun j c' => rmatch r2 inp j c' k)
  | Alt r1 r2 =>
      match rmatch r1 inp i c k with
      | Some x => Some x
      | None => rmatch r2 inp i c k
      end
  | Star greedy r1 => iterate (rmatch r1 inp) greedy k (String.length inp) i c
  | Group n r1 =>
      rmatch r1 inp i c
        (fun j c' => k j ((n, String.substring i (j - i) inp) :: c'))
  | Bol => if i =? 0 then k i c else None
  | WordB => if atWordBoundary inp i then k i c else None
  end.

(** The match object: [index], the end of the match, and the groups. *)
Record MatchResult : Type := {
  index : nat;
  lastIndex : nat;
  groups : captures
}.

(** [m[0]], the matched text, and [m[n]]. *)
Definition matched (inp : string) (m : MatchResult) : string :=
  String.substring (index m) (lastIndex m - index m) inp.

Definition group (n : nat) (m : MatchResult) : option string :=
  capture n (groups m).

(** The leftmost match starting at [i] or later. *)
Fixpoint execFrom (r : regex) (inp : string) (fuel i : nat) : option MatchResult :=
  match rmatch r inp i [] (fun j c => Some (j, c)) with
  | Some (j, c) => Some {| index := i; lastIndex := j; groups := c |}
  | None =>
      match fuel with
      | 0 => None
      | S fuel' => execFrom r inp fuel' (S i)
      end
  end.

(** [inp.match(r)] for a regex without the global flag. *)
Definition exec (r : regex) (inp : string) : option MatchResult :=
  execFrom r inp (String.length inp) 0.

(** [r.test(inp)]. *)
Definition test (r : regex) (inp : string) : bool :=
  match exec r inp with Some _ => true | None => false end.

(** [inp.match(r)] for a regex with the global flag: all matches, left to
    right; after an empty match the search resumes one character on, and
    it stops once past the end. *)
Fixpoint matchAllFrom (r : regex) (inp : string) (fuel i : nat) : list string :=
  match fuel with
  | 0 => []
  | S fuel' =>
      if String.length inp <? i then [] else
      match execFrom r inp (String.length inp - i) i with
      | None => []
      | Some m =>
          matched inp m ::
          matchAllFrom r inp fuel'
            (if lastIndex m =? index m then S (lastIndex m) else lastIndex m)
      end
  end.

Definition matchAll (r : regex) (inp : string) : list string :=
  matchAllFrom r inp (S (String.length inp)) 0.

(** Smart constructors for the concrete syntax. *)
Definition seq (rs : list regex) : regex := foldr Seq Eps rs.
Definition alt (r : regex) (rs : list regex) : regex := foldl Alt r rs.
Definition plus (r : regex) : regex := Seq r (Star true r).
Definition opt (r : regex) : regex := Alt r Eps.
Definition star (r : regex) : regex := Star true r.
Definition lazy (r : regex) : regex := Star false r.
Definition chr (a : ascii) : regex := Chr (COne a).
Definition ws : regex := Chr CSpace.
Definition word : regex := Chr CWord.
Definition dot : regex := Chr CDot.

End Regex.


(** ** CodeParser (js/parser.js) *)

Module CodeParser.
Import Regex.

(** One rule table.  A rule the profile does not define is [None]. *)
Record Patterns : Type := {
  pat_variable : option regex;
  pat_function : option regex;
  pat_if : option regex;
  pat_for : option regex;
  pat_while : option regex;
  pat_return : option regex;
  pat_assignment : option regex;
  pat_comment : option regex;
  pat_import : option regex;
  pat_export : option regex;
  pat_class : option regex;
  pat_include : option regex
}.

Definition lits (l : list string) : regex :=
  match l with
  | [] => Eps
  | s :: l' => alt (Lit s) (map Lit l')
  end.

(** [^\s*kw\s*\(] *)
Definition headParen (kw : string) : regex :=
  seq [Bol; star ws; Lit kw; star ws; chr "("].
(** [^\s*kw\s+] *)
Definition headSpace (kw : string) : regex :=
  seq [Bol; star ws; Lit kw; plus ws].
(** [^\s*kw\b] *)
Definition headWord (kw : string) : regex :=
  seq [Bol; star ws; Lit kw; WordB].
(** Optional white space, then two slashes or a slash and a star. *)
Definition slashComment : regex :=
  seq [Bol; star ws; Group 1 (lits ["//"; "/*"])].

Definition javascript : Patterns := {|
  pat_variable :=
    Some (seq [Bol; star ws; Group 1 (lits ["let"; "const"; "var"]);
               plus ws; Group 2 (plus word)]);
  pat_function :=
    Some (seq [Bol; star ws; Lit "function"; plus ws; Group 1 (plus word);
               star ws; chr "("]);
  pat_if := Some (headParen "if");
  pat_for := Some (headParen "for");
  pat_while := Some (headParen "while");
  pat_return := Some (headWord "return");
  pat_assignment :=
    Some (seq [Bol; star ws; Group 1 (plus word); star ws; chr "="]);
  pat_comment := Some slashComment;
  pat_import := Some (headWord "import");
  pat_export := Some (headWord "export");
  pat_class := None;
  pat_include := None
|}.

Definition python : Patterns := {|
  pat_variable :=
    Some (seq [Bol; star ws; Group 1 (plus word); star ws; chr "="]);
  pat_function :=
    Some (seq [Bol; star ws; Lit "def"; plus ws; Group 1 (plus word);
               star ws; chr "("]);
  pat_if := Some (headSpace "if");
  pat_for := Some (headSpace "for");
  pat_while := Some (headSpace "while");
  pat_return := Some (headWord "return");
  pat_assignment := None;
  pat_comment := Some (seq [Bol; star ws; chr "#"]);
  pat_import :=
    Some (seq [Bol; star ws; Group 1 (lits ["import"; "from"]); plus ws]);
  pat_export := None;
  pat_class :=
    Some (seq [Bol; star ws; Lit "class"; plus ws; Group 1 (plus word)]);
  pat_include := None
|}.

Definition java : Patterns := {|
  pat_variable :=
    Some (seq [Bol; star ws;
               Group 1 (lits ["int"; "float"; "double"; "String"; "boolean"; "char"]);
               plus ws; Group 2 (plus word)]);
  pat_function :=
    Some (seq [Bol; star ws;
               opt (Group 1 (lits ["public"; "private"; "protected"]));
               star ws; opt (Group 2 (Lit "static")); star ws;
               plus word; plus ws; Group 3 (plus word); star ws; chr "("]);
  pat_if := Some (headParen "if");
  pat_for := Some (headParen "for");
  pat_while := Some (headParen "while");
  pat_return := Some (headWord "return");
  pat_assignment := None;
  pat_comment := Some slashComment;
  pat_import := Some (headSpace "import");
  pat_export := None;
  pat_class :=
    Some (seq [Bol; star ws; opt (Group 1 (lits ["public"; "private"]));
               star ws; Lit "class"; plus ws; Group 2 (plus word)]);
  pat_include := None
|}.

Definition cpp : Patterns := {|
  pat_variable :=
    Some (seq [Bol; star ws;
               Group 1 (lits ["int"; "float"; "double"; "string"; "char"; "bool"]);
               plus ws; Group 2 (plus word)]);
  pat_function :=
    Some (seq [Bol; star ws; plus word; plus ws; Group 1 (plus word);
               star ws; chr "("]);
  pat_if := Some (headParen "if");
  pat_for := Some (headParen "for");
  pat_while := Some (headParen "while");
  pat_return := Some (headWord "return");
  pat_assignment := None;
  pat_comment := Some slashComment;
  pat_import := None;
  pat_export := None;
  pat_class := None;
  pat_include := Some (seq [Bol; star ws; Lit "#include"])
|}.

(** What a property that is not a rule table has: no rule at all. *)
Definition noPatterns : Patterns := {|
  pat_variable := None; pat_function := None; pat_if := None;
  pat_for := None; pat_while := None; pat_return := None;
  pat_assignment := None; pat_comment := None; pat_import := None;
  pat_export := None; pat_class := None; pat_include := None
|}.

(** The property names every object literal inherits from
    [Object.prototype]: looking one of them up in the table finds a
    truthy value that is not a rule table. *)
Definition inheritedKeys : list string :=
  ["constructor"; "__defineGetter__"; "__defineSetter__"; "hasOwnProperty";
   "__lookupGetter__"; "__lookupSetter__"; "isPrototypeOf";
   "propertyIsEnumerable"; "toString"; "valueOf"; "__proto__";
   "toLocaleString"].

(** What [table[key] || fallback] evaluates to on an object literal whose
    own values are all truthy: a value of the kind the table holds, or,
    for a name the table only inherits, the inherited property (a function
    or an object, and so truthy). *)
Inductive Entry (A : Type) : Type :=
| Own (a : A)
| Inherited (key : string).
Arguments Own {A} a.
Arguments Inherited {A} key.

(** [table[key] || fallback], [own] being what the table itself holds
    under [key]. *)
Definition lookupOr {A} (own : option A) (key : string) (fallback : A) : Entry A :=
  match own with
  | Some a => Own a
  | None => if existsb (String.eqb key) inheritedKeys then Inherited key else Own fallback
  end.

(** [patterns[language] || patterns.javascript] *)
Definition getLanguagePatterns (language : string) : Patterns :=
  if String.eqb language "javascript" then javascript
  else if String.eqb language "python" then python
  else if String.eqb language "java" then java
  else if String.eqb language "cpp" then cpp
  else if existsb (String.eqb language) inheritedKeys then noPatterns
  else javascript.

(** The parser object: [this.language] and [this.patterns]. *)
Record Parser : Type := {
  language : string;
  patterns : Patterns
}.

(** [new CodeParser(language)] *)
Definition new (lang : string) : Parser :=
  {| language := lang; patterns := getLanguagePatterns lang |}.

(** A statement object.  A field the object literal does not have is
    [None].  Nothing in the repository ever assigns [previousIndent]. *)
Record Statement : Type := {
  type : string;
  line : nat;
  indent : nat;
  code : string;
  name : option string;
  variables : option (list (option string));
  condition : option string;
  loopVar : option string;
  function : option string;
  arguments : option (list string);
  variable : option string;
  description : string;
  previousIndent : option nat
}.

(** The fields every statement has; the others start undefined. *)
Definition mkStatement (ty : string) (ln ind : nat) (text descr : string) : Statement :=
  {| type := ty; line := ln; indent := ind; code := text;
     name := None; variables := None; condition := None; loopVar := None;
     function := None; arguments := None; variable := None;
     description := descr; previousIndent := None |}.

(** [rule && rule.test(line)] *)
Definition guardedTest (rule : option regex) (text : string) : bool :=
  match rule with
  | Some r => test r text
  | None => false
  end.

(** [rule.test(line)] on a rule that may be undefined. *)
Definition plainTest (rule : option regex) (text : string) : completion bool :=
  match rule with
  | Some r => Normal (test r text)
  | None => Throw "TypeError: cannot read properties of undefined (reading 'test')"
  end.

(** Reading a property of [x]: a [TypeError] when [x] is null or undefined. *)
Definition deref {A} (x : option A) : completion A :=
  match x with
  | Some a => Normal a
  | None => Throw "TypeError: cannot read properties of null or undefined"
  end.

(** [line.match(rule)] for a rule that is defined. *)
Definition matchRule (rule : option regex) (text : string) : option MatchResult :=
  match rule with
  | Some r => exec r text
  | None => exec Eps text
  end.

Definition reParentheses : regex :=
  seq [chr "("; Group 1 (lazy dot); chr ")"].
Definition rePythonStyle : regex :=
  seq [Bol; star ws; Group 1 (lits ["if"; "while"; "elif"]); plus ws;
       Group 2 (lazy dot); chr ":"].

Definition extractCondition (this : Parser) (text : string) : option string :=
  if String.eqb (language this) "python" then
    match exec rePythonStyle text with
    | Some m => group 2 m
    | None => Some "condition"
    end
  else
    match exec reParentheses text with
    | Some m => group 1 m
    | None => Some "condition"
    end.

Record LoopInfo : Type := {
  li_variable : option string;
  li_variables : list (option string);
  li_description : string
}.

(** [for\s+(\w+)\s+in\s+(.*?):] *)
Definition rePythonFor : regex :=
  seq [Lit "for"; plus ws; Group 1 (plus word); plus ws; Lit "in"; plus ws;
       Group 2 (lazy dot); chr ":"].
(** [for\s*\(\s*(.*?)\s*;\s*(.*?)\s*;\s*(.*?)\s*\)] *)
Definition reCFor : regex :=
  seq [Lit "for"; star ws; chr "("; star ws; Group 1 (lazy dot); star ws;
       chr ";"; star ws; Group 2 (lazy dot); star ws; chr ";"; star ws;
       Group 3 (lazy dot); star ws; chr ")"].
(** [(\w+)] *)
Definition reFirstWord : regex := Group 1 (plus word).

Definition defaultLoopInfo : LoopInfo :=
  {| li_variable := Some "i"; li_variables := [Some "i"];
     li_description := "loop iteration" |}.

Definition extractLoopInfo (this : Parser) (text loopType : string) : completion LoopInfo :=
  if String.eqb (language this) "python" then
    match exec rePythonFor text with
    | Some m =>
        Normal {| li_variable := group 1 m; li_variables := [group 1 m];
                  li_description := JS.show (group 1 m) +:+ " in " +:+ JS.show (group 2 m) |}
    | None => Normal defaultLoopInfo
    end
  else
    match exec reCFor text with
    | Some m =>
        do init <- deref (group 1 m);
        let initVar := exec reFirstWord init in
        let v := match initVar with Some w => group 1 w | None => Some "i" end in
        Normal {| li_variable := v; li_variables := [v];
                  li_description :=
                    JS.show (group 1 m) +:+ "; " +:+ JS.show (group 2 m) +:+ "; "
                    +:+ JS.show (group 3 m) |}
    | None => Normal defaultLoopInfo
    end.

Record FunctionCall : Type := {
  fc_name : option string;
  fc_args : list string
}.

(** [(\w+)\s*\((.*?)\)] *)
Definition reCall : regex :=
  seq [Group 1 (plus word); star ws; chr "("; Group 2 (lazy dot); chr ")"].

Definition extractFunctionCall (this : Parser) (text : string) : completion (option FunctionCall) :=
  match exec reCall text with
  | None => Normal None
  | Some m =>
      do isFunction <- plainTest (pat_function (patterns this)) text;
      if isFunction then Normal None else
      do isIf <- plainTest (pat_if (patterns this)) text;
      if isIf then Normal None else
      Normal (Some {| fc_name := group 1 m;
                      fc_args := if JS.truthyOpt (group 2 m)
                                 then map JS.trim (JS.split "," (default "" (group 2 m)))
                                 else [] |})
  end.

(** [line.substring(0, 50)] followed by an ellipsis when [line] is longer. *)
Definition excerpt (text : string) : string :=
  String.substring 0 50 text +:+ (if 50 <? String.length text then "..." else "").

Definition analyzeLine (this : Parser) (text : string) (lineNumber indentLevel : nat)
    : completion Statement :=
  let pats := patterns this in
  let base ty descr := mkStatement ty lineNumber indentLevel text descr in
  (* Variable declaration or assignment *)
  if guardedTest (pat_variable pats) text then
    do m <- deref (matchRule (pat_variable pats) text);
    let variableName := JS.orElse (group 2 m) (group 1 m) in
    Normal (let s := base "variable" ("Declare/assign variable: " +:+ JS.show variableName) in
            {| type := type s; line := line s; indent := indent s; code := code s;
               name := variableName; variables := Some [variableName];
               condition := None; loopVar := None; function := None;
               arguments := None; variable := None;
               description := description s; previousIndent := None |})
  (* Function definition *)
  else if guardedTest (pat_function pats) text then
    do m <- deref (matchRule (pat_function pats) text);
    let functionName := JS.orElse (group 1 m) (group 3 m) in
    Normal (let s := base "function" ("Define function: " +:+ JS.show functionName) in
            {| type := type s; line := line s; indent := indent s; code := code s;
               name := functionName; variables := None;
               condition := None; loopVar := None; function := None;
               arguments := None; variable := None;
               description := description s; previousIndent := None |})
  (* Conditional statements *)
  else if guardedTest (pat_if pats) text then
    let cond := extractCondition this text in
    Normal (let s := base "if" ("Conditional: " +:+ JS.show cond) in
            {| type := type s; line := line s; indent := indent s; code := code s;
               name := None; variables := None;
               condition := cond; loopVar := None; function := None;
               arguments := None; variable := None;
               description := description s; previousIndent := None |})
  (* For loops *)
  else if guardedTest (pat_for pats) text then
    do loopInfo <- extractLoopInfo this text "for";
    Normal (let s := base "for" ("For loop: " +:+ li_description loopInfo) in
            {| type := type s; line := line s; indent := indent s; code := code s;
               name := None; variables := Some (li_variables loopInfo);
               condition := None; loopVar := li_variable loopInfo; function := None;
               arguments := None; variable := None;
               description := description s; previousIndent := None |})
  (* While loops *)
  else if guardedTest (pat_while pats) text then
    let cond := extractCondition this text in
    Normal (let s := base "while" ("While loop: " +:+ JS.show cond) in
            {| type := type s; line := line s; indent := indent s; code := code s;
               name := None; variables := None;
               condition := cond; loopVar := None; function := None;
               arguments := None; variable := None;
               description := description s; previousIndent := None |})
  (* Return statements *)
  else if guardedTest (pat_return pats) text then
    Normal (base "return" "Return from function")
  else
    (* Function calls or general statements *)
    do functionCall <- extractFunctionCall this text;
    match functionCall with
    | Some fc =>
        Normal (let s := base "call" ("Call function: " +:+ JS.show (fc_name fc)) in
                {| type := type s; line := line s; indent := indent s; code := code s;
                   name := None; variables := None;
                   condition := None; loopVar := None; function := fc_name fc;
                   arguments := Some (fc_args fc); variable := None;
                   description := description s; previousIndent := None |})
    | None =>
        (* Assignment (for languages without explicit variable declaration) *)
        do isAssignment <-
          (if guardedTest (pat_assignment pats) text
           then do isVariable <- plainTest (pat_variable pats) text;
                Normal (negb isVariable)
           else Normal false);
        if isAssignment then
          do m <- deref (matchRule (pat_assignment pats) text);
          let variableName := group 1 m in
          Normal (let s := base "assignment" ("Assign to: " +:+ JS.show variableName) in
                  {| type := type s; line := line s; indent := indent s; code := code s;
                     name := None; variables := Some [variableName];
                     condition := None; loopVar := None; function := None;
                     arguments := None; variable := variableName;
                     description := description s; previousIndent := None |})
        else
          (* Generic statement *)
          Normal (base "statement" ("Execute: " +:+ excerpt text))
    end.

Definition isComment (this : Parser) (text : string) : bool :=
  match pat_comment (patterns this) with
  | Some r => test r text
  | None => false
  end.

(** The leading white space, as a regular expression. *)
Definition reIndentation : regex := seq [Bol; Group 1 (star ws)].

Definition getIndentation (text : string) : completion nat :=
  match exec reIndentation text with
  | Some m => do ws <- deref (group 1 m); Normal (String.length ws)
  | None => Normal 0
  end.

(** A JavaScript [Set]: insertion order, no duplicates. *)
Definition setAdd (v : option string) (s : list (option string)) : list (option string) :=
  if bool_decide (v ∈ s) then s else s ++ [v].

(** The object [parseCode] returns. *)
Record Analysis : Type := {
  a_language : string;
  totalLines : nat;
  statements : list Statement;
  a_variables : list (option string);
  functions : list (option string);
  controlStructures : list Statement;
  complexity : nat
}.

Definition isControl (ty : string) : bool :=
  existsb (String.eqb ty) ["if"; "for"; "while"; "switch"].

(** One turn of the loop over the lines; the state is the line counter
    and the analysis object.  The locals [inFunction] and
    [currentFunction] are written and never read. *)
Definition parseLine (this : Parser) (st : nat * Analysis) (text : string)
    : completion (nat * Analysis) :=
  let lineNumber := S (fst st) in
  let analysis := snd st in
  let trimmedLine := JS.trim text in
  if negb (JS.truthy trimmedLine) || isComment this trimmedLine then
    Normal (lineNumber, analysis)
  else
    do ind <- getIndentation text;
    let indentLevel := ind / 2 in
    do statement <- analyzeLine this trimmedLine lineNumber indentLevel;
    let control := isControl (type statement) in
    Normal (lineNumber,
            {| a_language := a_language analysis;
               totalLines := totalLines analysis;
               statements := statements analysis ++ [statement];
               a_variables :=
                 match variables statement with
                 | Some vs => foldl (fun s v => setAdd v s) (a_variables analysis) vs
                 | None => a_variables analysis
                 end;
               functions :=
                 if String.eqb (type statement) "function"
                 then setAdd (name statement) (functions analysis)
                 else functions analysis;
               controlStructures :=
                 if control then controlStructures analysis ++ [statement]
                 else controlStructures analysis;
               complexity :=
                 if control then S (complexity analysis) else complexity analysis |}).

Fixpoint parseLines (this : Parser) (st : nat * Analysis) (lines : list string)
    : completion (nat * Analysis) :=
  match lines with
  | [] => Normal st
  | text :: rest => do st' <- parseLine this st text; parseLines this st' rest
  end.

Definition parseCode (this : Parser) (source : string) : completion Analysis :=
  let lines := JS.split "010" source in
  let analysis :=
    {| a_language := language this; totalLines := length lines;
       statements := []; a_variables := []; functions := [];
       controlStructures := []; complexity := 0 |} in
  do st <- parseLines this (0, analysis) lines;
  Normal (snd st).

(** *** The complexity and the flowchart data of the parser *)

(** [a || b] on strings: the first operand when it is truthy. *)
Definition orString (a b : string) : string := if JS.truthy a then a else b.

(** [calculateComplexity]: the needle of the [includes] test is the value
    of ['&&' || '||']. *)
Definition calculateComplexity (stmts : list Statement) : nat :=
  foldl (fun complexity statement =>
           let complexity :=
             if existsb (String.eqb (type statement))
                        ["if"; "for"; "while"; "switch"; "case"]
             then S complexity else complexity in
           if String.eqb (type statement) "if"
              && JS.includes (code statement) (orString "&&" "||")
           then S complexity else complexity)
        1 stmts.

(** The table [shapes] of [getNodeShape]. *)
Definition shapes (ty : string) : option string :=
  if existsb (String.eqb ty) ["start"; "end"] then Some "ellipse"
  else if existsb (String.eqb ty) ["if"; "for"; "while"] then Some "diamond"
  else if existsb (String.eqb ty)
            ["function"; "variable"; "assignment"; "call"; "return"; "statement"]
       then Some "rect"
  else None.

(** [shapes[type] || 'rect'] *)
Definition getNodeShape (ty : string) : Entry string :=
  lookupOr (shapes ty) ty "rect".

(** The last line of [getNodeLabel]: at most 30 characters, then an
    ellipsis. *)
Definition clip (maxLength : nat) (label : string) : string :=
  if maxLength <? String.length label
  then String.substring 0 maxLength label +:+ "..."
  else label.

(** [getNodeLabel]: the label of a conditional is its condition, and
    reading the length of an undefined label throws. *)
Definition getNodeLabel (statement : Statement) : completion string :=
  let ty := type statement in
  do label <-
    (if String.eqb ty "variable" || String.eqb ty "assignment" then
       Normal (JS.show (JS.orElse (name statement) (variable statement)) +:+ " = ?")
     else if String.eqb ty "function" then
       Normal (JS.show (name statement) +:+ "()")
     else if String.eqb ty "if" then
       deref (condition statement)
     else if String.eqb ty "for" || String.eqb ty "while" then
       Normal (description statement)
     else if String.eqb ty "call" then
       Normal (JS.show (function statement) +:+ "()")
     else if String.eqb ty "return" then
       Normal "Return"
     else Normal (code statement));
  Normal (clip 30 label).

(** A node and an edge of [generateFlowchartData]. *)
Record DataNode : Type := {
  dn_id : string;
  dn_type : string;
  dn_label : string;
  dn_shape : Entry string;
  dn_statement : option Statement
}.

Record DataEdge : Type := {
  de_from : string;
  de_to : string;
  de_label : string
}.

(** The identifier made of the word node and the decimal digits of [n]. *)
Definition nodeName (n : nat) : string := "node" +:+ pretty n.

(** The state of the loop of [generateFlowchartData]: the two arrays, the
    counter [nodeId] and [currentNode]. *)
Record DataState : Type := {
  ds_nodes : list DataNode;
  ds_edges : list DataEdge;
  ds_nodeId : nat;
  ds_currentNode : string
}.

Definition branchNode (n : nat) (text : string) : DataNode :=
  {| dn_id := nodeName n; dn_type := "process"; dn_label := text;
     dn_shape := Own "rect"; dn_statement := None |}.

(** One turn of the loop of [generateFlowchartData]. *)
Definition dataStep (st : DataState) (statement : Statement) : completion DataState :=
  do label <- getNodeLabel statement;
  let node :=
    {| dn_id := nodeName (ds_nodeId st); dn_type := type statement;
       dn_label := label; dn_shape := getNodeShape (type statement);
       dn_statement := Some statement |} in
  let nodeId := S (ds_nodeId st) in
  let nodes := ds_nodes st ++ [node] in
  let edges :=
    ds_edges st
    ++ [{| de_from := ds_currentNode st; de_to := dn_id node; de_label := "" |}] in
  (* Handle conditional branches *)
  if String.eqb (type statement) "if" then
    let trueNode := branchNode nodeId "True Branch" in
    let falseNode := branchNode (S nodeId) "False Branch" in
    Normal {| ds_nodes := nodes ++ [trueNode; falseNode];
              ds_edges :=
                edges ++ [{| de_from := dn_id node; de_to := dn_id trueNode;
                             de_label := "Yes" |};
                          {| de_from := dn_id node; de_to := dn_id falseNode;
                             de_label := "No" |}];
              ds_nodeId := S (S nodeId);
              ds_currentNode := dn_id node |}
  else
    Normal {| ds_nodes := nodes; ds_edges := edges; ds_nodeId := nodeId;
              ds_currentNode := dn_id node |}.

Fixpoint dataSteps (st : DataState) (stmts : list Statement) : completion DataState :=
  match stmts with
  | [] => Normal st
  | statement :: rest => do st' <- dataStep st statement; dataSteps st' rest
  end.

Definition generateFlowchartData (stmts : list Statement)
    : completion (list DataNode * list DataEdge) :=
  let startNode :=
    {| dn_id := nodeName 1; dn_type := "start"; dn_label := "START";
       dn_shape := Own "ellipse"; dn_statement := None |} in
  do st <- dataSteps {| ds_nodes := [startNode]; ds_edges := []; ds_nodeId := 2;
                        ds_currentNode := dn_id startNode |} stmts;
  (* End node *)
  let endNode :=
    {| dn_id := nodeName (ds_nodeId st); dn_type := "end"; dn_label := "END";
       dn_shape := Own "ellipse"; dn_statement := None |} in
  Normal (ds_nodes st ++ [endNode],
          ds_edges st
          ++ [{| de_from := ds_currentNode st; de_to := dn_id endNode; de_label := "" |}]).

End CodeParser.


(** ** FlowchartGenerator (the flowchart generator) *)

Module FlowchartGenerator.
Import CodeParser.

(** The node identifier [A n] stands for the string made of the letter A
    and the decimal digits of [n]. *)
Inductive NodeId : Type := A (n : nat).

(** A node object.  Its label (a truncated, decorated rendering of the
    statement) and the [previous], [yesBranch], [noBranch] and [loopExit]
    properties are written and never read when the connections are made;
    they are left out, as are the two stacks local to [createNodes]. *)
Record Node : Type := {
  id : NodeId;
  n_type : string;
  shape : string;
  class : string;
  statement : option Statement;
  index : option nat;
  connectsToEnd : bool;
  hasConditionalBranches : bool;
  hasLoopBack : bool
}.

Definition terminalNode (counter : nat) (ty : string) : Node :=
  {| id := A counter; n_type := ty; shape := "ellipse"; class := "startEnd";
     statement := None; index := None; connectsToEnd := false;
     hasConditionalBranches := false; hasLoopBack := false |}.

Definition isLoop (ty : string) : bool :=
  String.eqb ty "for" || String.eqb ty "while".

Definition nodeShape (ty : string) : string :=
  if String.eqb ty "if" || isLoop ty then "diamond" else "rect".

Definition nodeClass (ty : string) : string :=
  if String.eqb ty "if" || isLoop ty then "condition"
  else if String.eqb ty "function" then "function"
  else if String.eqb ty "variable" || String.eqb ty "assignment" then "assignment"
  else if String.eqb ty "call" then "process"
  else if String.eqb ty "return" then "return"
  else "process".

(** [createNodeFromStatement] takes the identifier from [this.nodeCounter];
    the flags are the ones the switch of [createNodes] sets on the node it
    has just pushed. *)
Definition createNodeFromStatement (counter : nat) (stmt : Statement) (idx : nat) : Node :=
  let ty := type stmt in
  {| id := A counter; n_type := ty; shape := nodeShape ty; class := nodeClass ty;
     statement := Some stmt; index := Some idx;
     connectsToEnd := String.eqb ty "return";
     hasConditionalBranches := String.eqb ty "if";
     hasLoopBack := isLoop ty |}.

(** The loop of [createNodes]: the statement at index [idx] gets the
    identifier [counter]. *)
Fixpoint statementNodes (counter idx : nat) (stmts : list Statement) : list Node :=
  match stmts with
  | [] => []
  | stmt :: rest =>
      createNodeFromStatement counter stmt idx :: statementNodes (S counter) (S idx) rest
  end.

(** [createNodes], started with [this.nodeCounter = counter]. *)
Definition createNodes (counter : nat) (stmts : list Statement) : list Node :=
  terminalNode counter "start"
  :: statementNodes (S counter) 0 stmts
  ++ [terminalNode (S counter + length stmts) "end"].

Record Connection : Type := {
  from : NodeId;
  to : NodeId;
  label : string;
  style : option string
}.

Definition plainEdge (a b : NodeId) : Connection :=
  {| from := a; to := b; label := ""; style := None |}.

Definition styledEdge (a b : NodeId) (l st : string) : Connection :=
  {| from := a; to := b; label := l; style := Some st |}.

(** [node.statement && node.statement.indent <= currentIndent] *)
Definition atOrBelow (currentIndent : nat) (n : Node) : bool :=
  match statement n with
  | Some s => indent s <=? currentIndent
  | None => false
  end.

(** [nodes[nodes.length - 1].id] *)
Definition lastId (nodes : list Node) : completion NodeId :=
  do n <- deref (last nodes); Normal (id n).

Definition findElseTarget (conditionNode : Node) (nodes : list Node) (currentIndex : nat)
    : completion NodeId :=
  do s <- deref (statement conditionNode);
  let currentIndent := indent s in
  match find (atOrBelow currentIndent) (drop (currentIndex + 2) nodes) with
  | Some n => Normal (id n)
  | None => lastId nodes
  end.

Definition findLoopExit (loopNode : Node) (nodes : list Node) (currentIndex : nat)
    : completion NodeId :=
  do s <- deref (statement loopNode);
  let currentIndent := indent s in
  match find (atOrBelow currentIndent) (drop (currentIndex + 2) nodes) with
  | Some n => Normal (id n)
  | None => lastId nodes
  end.

(** The scan of [findLoopBack]: it stops at the first node that has no
    statement or is not deeper than the loop. *)
Fixpoint scanLoopBody (currentIndent : nat) (l : list Node) (lastInLoop : option NodeId)
    : option NodeId :=
  match l with
  | [] => lastInLoop
  | n :: rest =>
      match statement n with
      | Some s =>
          if currentIndent <? indent s
          then scanLoopBody currentIndent rest (Some (id n))
          else lastInLoop
      | None => lastInLoop
      end
  end.

Definition findLoopBack (loopNode : Node) (nodes : list Node) (currentIndex : nat)
    : completion (option NodeId) :=
  do s <- deref (statement loopNode);
  Normal (scanLoopBody (indent s) (drop (currentIndex + 1) nodes) None).

(** The connections pushed by the turn [i] of the loop of
    [createConnections]. *)
Definition connectionsAt (nodes : list Node) (i : nat) : completion (list Connection) :=
  do currentNode <- deref (nodes !! i);
  do nextNode <- deref (nodes !! S i);
  if String.eqb (n_type currentNode) "start" then
    Normal [plainEdge (id currentNode) (id nextNode)]
  else if String.eqb (n_type currentNode) "if" then
    do elseTarget <- findElseTarget currentNode nodes i;
    Normal [styledEdge (id currentNode) (id nextNode) "Yes" "stroke:#27ae60,stroke-width:2px";
            styledEdge (id currentNode) elseTarget "No" "stroke:#e74c3c,stroke-width:2px"]
  else if isLoop (n_type currentNode) then
    do exitTarget <- findLoopExit currentNode nodes i;
    do loopBack <- findLoopBack currentNode nodes i;
    Normal ([styledEdge (id currentNode) (id nextNode) "Continue" "stroke:#3498db,stroke-width:2px";
             styledEdge (id currentNode) exitTarget "Exit" "stroke:#e74c3c,stroke-width:2px"]
            ++ match loopBack with
               | Some back =>
                   [styledEdge back (id currentNode) "Loop"
                      "stroke:#f39c12,stroke-width:2px,stroke-dasharray: 5 5"]
               | None => []
               end)
  else if connectsToEnd currentNode then
    do endId <- lastId nodes;
    Normal [plainEdge (id currentNode) endId]
  else if negb (String.eqb (n_type currentNode) "end") then
    Normal [plainEdge (id currentNode) (id nextNode)]
  else Normal [].

(** The turns [i], [i+1], ... of the loop, [n] of them. *)
Fixpoint connectionsFrom (nodes : list Node) (i n : nat) : completion (list Connection) :=
  match n with
  | 0 => Normal []
  | S n' =>
      do here <- connectionsAt nodes i;
      do rest <- connectionsFrom nodes (S i) n';
      Normal (here ++ rest)
  end.

(** [createConnections]: one turn for every node but the last. *)
Definition createConnections (nodes : list Node) (stmts : list Statement)
    : completion (list Connection) :=
  connectionsFrom nodes 0 (length nodes - 1).

(** The graph [generateFromAnalysis] renders as text: it resets the
    counter to 1, and writes one line per node and per connection. *)
Record Flowchart : Type := {
  nodes : list Node;
  connections : list Connection
}.

Definition generateFromAnalysis (stmts : list Statement) : completion Flowchart :=
  let ns := createNodes 1 stmts in
  do cs <- createConnections ns stmts;
  Normal {| nodes := ns; connections := cs |}.

(** *** Labels *)

(** [s.replace(/x/g, y)] for a one-character pattern [x]. *)
Fixpoint replaceChar (x : ascii) (y : string) (s : string) : string :=
  match s with
  | EmptyString => EmptyString
  | String a s' =>
      (if Ascii.eqb a x then y else String a EmptyString) +:+ replaceChar x y s'
  end.

Definition quote : ascii := ascii_of_nat 34.
Definition backslash : ascii := ascii_of_nat 92.

(** The label before it is cut and escaped. *)
Definition rawLabel (stmt : Statement) : string :=
  let ty := type stmt in
  if String.eqb ty "variable" then JS.show (name stmt) +:+ " = value"
  else if String.eqb ty "assignment" then JS.show (variable stmt) +:+ " = value"
  else if String.eqb ty "function" then "function " +:+ JS.show (name stmt) +:+ "()"
  else if String.eqb ty "if" then
    default "condition" (JS.orElse (condition stmt) (Some "condition"))
  else if String.eqb ty "for" then
    (if JS.truthyOpt (loopVar stmt) then "for " +:+ JS.show (loopVar stmt) else "for loop")
  else if String.eqb ty "while" then
    default "while condition" (JS.orElse (condition stmt) (Some "while condition"))
  else if String.eqb ty "call" then JS.show (function stmt) +:+ "()"
  else if String.eqb ty "return" then "return"
  else code stmt.

(** [generateNodeLabel]: cut to 25 characters (22 and an ellipsis), then
    escape the double quotes and turn the line ends into spaces. *)
Definition generateNodeLabel (stmt : Statement) : string :=
  let maxLength := 25 in
  let label := rawLabel stmt in
  (* Truncate long labels *)
  let label :=
    if maxLength <? String.length label
    then String.substring 0 (maxLength - 3) label +:+ "..."
    else label in
  (* Escape special characters for Mermaid *)
  replaceChar "010" " " (replaceChar quote (String backslash (String quote "")) label).

End FlowchartGenerator.


(** ** CodeAnalyzer (js/analyser.js) *)

Module CodeAnalyzer.
Import Regex CodeParser.

Infix "==" := String.eqb (at level 70, no associativity).

(** *** Execution steps *)

Record MemoryChange : Type := {
  action : string;
  mc_variable : option string;
  mc_type : string
}.

Record ExecutionStep : Type := {
  stepNumber : nat;
  es_type : string;
  es_description : string;
  explanation : string;
  es_code : string;
  es_line : nat;
  category : string;
  memoryChanges : list MemoryChange;
  es_indent : nat;
  es_complexity : Entry nat
}.

(** The table [complexityMap] of [getStatementComplexity]. *)
Definition complexityMap (ty : string) : option nat :=
  if ty == "variable" then Some 1
  else if ty == "assignment" then Some 1
  else if ty == "if" then Some 2
  else if ty == "for" then Some 3
  else if ty == "while" then Some 3
  else if ty == "function" then Some 2
  else if ty == "call" then Some 1
  else if ty == "return" then Some 1
  else None.

(** [complexityMap[statement.type] || 1] *)
Definition getStatementComplexity (statement : Statement) : Entry nat :=
  lookupOr (complexityMap (type statement)) (type statement) 1.

Definition createExecutionStep (statement : Statement) (stepNo : nat) : ExecutionStep :=
  let ty := type statement in
  let mk descr expl mem cat :=
    {| stepNumber := stepNo; es_type := ty; es_description := descr;
       explanation := expl; es_code := code statement; es_line := line statement;
       category := cat; memoryChanges := mem; es_indent := indent statement;
       es_complexity := getStatementComplexity statement |} in
  if ty == "variable" then
    mk ("Declare variable '" +:+ JS.show (name statement) +:+ "'")
       ("Create a new variable named '" +:+ JS.show (name statement) +:+ "' in memory")
       [{| action := "create"; mc_variable := name statement; mc_type := "variable" |}]
       "memory"
  else if ty == "assignment" then
    mk ("Assign value to '" +:+ JS.show (variable statement) +:+ "'")
       ("Update the value stored in variable '" +:+ JS.show (variable statement) +:+ "'")
       [{| action := "update"; mc_variable := variable statement; mc_type := "assignment" |}]
       "memory"
  else if ty == "function" then
    mk ("Define function '" +:+ JS.show (name statement) +:+ "'")
       ("Create a new function named '" +:+ JS.show (name statement)
        +:+ "' that can be called later")
       [{| action := "create"; mc_variable := name statement; mc_type := "function" |}]
       "definition"
  else if ty == "if" then
    mk ("Check condition: " +:+ JS.show (condition statement))
       ("Evaluate the condition '" +:+ JS.show (condition statement)
        +:+ "' and branch accordingly")
       [] "control"
  else if ty == "for" then
    mk ("Start for loop with '" +:+ JS.show (loopVar statement) +:+ "'")
       ("Initialize loop variable '" +:+ JS.show (loopVar statement)
        +:+ "' and begin iteration")
       (if JS.truthyOpt (loopVar statement)
        then [{| action := "create"; mc_variable := loopVar statement;
                 mc_type := "loop_variable" |}]
        else [])
       "control"
  else if ty == "while" then
    mk ("Start while loop: " +:+ JS.show (condition statement))
       ("Check condition '" +:+ JS.show (condition statement) +:+ "' and repeat while true")
       [] "control"
  else if ty == "call" then
    mk ("Call function '" +:+ JS.show (function statement) +:+ "'")
       ("Execute the function '" +:+ JS.show (function statement)
        +:+ "' with given parameters")
       [] "execution"
  else if ty == "return" then
    mk "Return from function"
       "Exit the current function and return control to caller"
       [] "control"
  else
    mk ("Execute: " +:+ code statement) ("Run the statement: " +:+ code statement)
       [] "execution".

(** The loop of [generateExecutionSteps], [stepCounter] being the next
    step number. *)
Fixpoint stepsFrom (stepCounter : nat) (stmts : list Statement) : list ExecutionStep :=
  match stmts with
  | [] => []
  | statement :: rest =>
      createExecutionStep statement stepCounter :: stepsFrom (S stepCounter) rest
  end.

Definition generateExecutionSteps (analysis : Analysis) : list ExecutionStep :=
  stepsFrom 1 (statements analysis).

(** *** Metrics *)

Definition isBranch (ty : string) : bool :=
  existsb (String.eqb ty) ["if"; "for"; "while"; "switch"; "case"].

(** The global pattern that finds the two-character tokens of logical
    AND and logical OR. *)
Definition reBoolOps : regex := lits ["&&"; "||"].

(** What one statement adds for its compound condition. *)
Definition conditionOperators (statement : Statement) : nat :=
  match condition statement with
  | Some c =>
      if JS.truthy c && (JS.includes c "&&" || JS.includes c "||")
      then length (matchAll reBoolOps c)
      else 0
  | None => 0
  end.

Definition calculateCyclomaticComplexity (analysis : Analysis) : nat :=
  foldl (fun complexity statement =>
           (if isBranch (type statement) then S complexity else complexity)
           + conditionOperators statement)
        1 (statements analysis).

Definition isNesting (ty : string) : bool :=
  existsb (String.eqb ty) ["if"; "for"; "while"; "function"].

Definition calculateMaxNesting (analysis : Analysis) : nat :=
  let maxDepth :=
    foldl (fun maxDepth statement =>
             if isNesting (type statement)
             then Nat.max maxDepth (indent statement) else maxDepth)
          0 (statements analysis) in
  maxDepth / 2.

Definition countLinesOfCode (analysis : Analysis) : nat :=
  length (filter (fun s => negb (type s == "comment")) (statements analysis)).

(** The quotient is the exact rational; the floating-point quotient of the
    source compares with 3 and 10 the same way for all counts below 2^51. *)
Definition calculateCodeCommentRatio (analysis : Analysis) : Q :=
  let codeLines := countLinesOfCode analysis in
  let commentLines :=
    length (filter (fun s => type s == "comment") (statements analysis)) in
  if 0 <? commentLines
  then Qmake (Z.of_nat codeLines) (Pos.of_nat commentLines)
  else inject_Z (Z.of_nat codeLines).

Record Metrics : Type := {
  totalStatements : nat;
  m_totalLines : nat;
  cyclomaticComplexity : nat;
  variableCount : nat;
  functionCount : nat;
  maxNestingDepth : nat;
  linesOfCode : nat;
  codeToCommentRatio : Q;
  qualityScore : Z
}.

Definition Qltb (x y : Q) : bool := negb (Qle_bool y x).

(** [calculateQualityScore] reads three fields of the metrics. *)
Definition calculateQualityScore (complexity nesting : nat) (ratio : Q) : Z :=
  let score := 100%Z in
  (* Penalize high complexity *)
  let score :=
    if 10 <? complexity then (score - (Z.of_nat complexity - 10) * 5)%Z else score in
  (* Penalize deep nesting *)
  let score :=
    if 4 <? nesting then (score - (Z.of_nat nesting - 4) * 10)%Z else score in
  (* Reward good comment ratio *)
  let score :=
    if Qltb (inject_Z 3) ratio && Qltb ratio (inject_Z 10) then (score + 10)%Z else score in
  Z.max 0 (Z.min 100 score).

Definition calculateMetrics (analysis : Analysis) : Metrics :=
  let complexity := calculateCyclomaticComplexity analysis in
  let nesting := calculateMaxNesting analysis in
  let ratio := calculateCodeCommentRatio analysis in
  {| totalStatements := length (statements analysis);
     m_totalLines := totalLines analysis;
     cyclomaticComplexity := complexity;
     variableCount := length (a_variables analysis);
     functionCount := length (functions analysis);
     maxNestingDepth := nesting;
     linesOfCode := countLinesOfCode analysis;
     codeToCommentRatio := ratio;
     qualityScore := calculateQualityScore complexity nesting ratio |}.

(** *** Time complexity *)

Definition isLoopKind (ty : string) : bool :=
  existsb (String.eqb ty) ["for"; "while"].

(** One turn of the loop of [estimateTimeComplexity] on the pair
    [(nestedLoopDepth, currentDepth)]. *)
Definition timeStep (st : nat * nat) (statement : Statement) : nat * nat :=
  let '(nestedLoopDepth, currentDepth) := st in
  if isLoopKind (type statement) then
    (Nat.max nestedLoopDepth (S currentDepth), S currentDepth)
  else if indent statement <? default 0 (previousIndent statement) then
    (nestedLoopDepth, Nat.max 0 (currentDepth - 1))
  else (nestedLoopDepth, currentDepth).

Definition superscript2 : string := String (ascii_of_nat 178) "".
Definition superscript3 : string := String (ascii_of_nat 179) "".

Definition complexityLabel (nestedLoopDepth : nat) : string :=
  match nestedLoopDepth with
  | 0 => "O(1)"
  | 1 => "O(n)"
  | 2 => "O(n" +:+ superscript2 +:+ ")"
  | 3 => "O(n" +:+ superscript3 +:+ ")"
  | _ => "O(n^" +:+ pretty nestedLoopDepth +:+ ")"
  end.

Definition estimateTimeComplexity (analysis : Analysis) : string :=
  complexityLabel (fst (foldl timeStep (0, 0) (statements analysis))).

(** *** Security *)

Record SecurityIssue : Type := {
  si_type : string;
  severity : string;
  si_message : string;
  si_line : nat
}.

Definition evalIssue (statement : Statement) : SecurityIssue :=
  {| si_type := "eval_usage"; severity := "high";
     si_message := "Use of eval() detected - potential security risk";
     si_line := line statement |}.

Definition innerHTMLIssue (statement : Statement) : SecurityIssue :=
  {| si_type := "innerHTML_usage"; severity := "medium";
     si_message := "Use of innerHTML - potential XSS vulnerability";
     si_line := line statement |}.

(** The issues one statement pushes. *)
Definition statementIssues (statement : Statement) : list SecurityIssue :=
  (if JS.includes (JS.toLowerCase (code statement)) "eval(" then [evalIssue statement] else [])
  ++ (if JS.includes (JS.toLowerCase (code statement)) "innerhtml"
      then [innerHTMLIssue statement] else []).

Record Security : Type := {
  issues : list SecurityIssue;
  riskLevel : string
}.

Definition analyzeSecurityIssues (analysis : Analysis) : Security :=
  let found := foldl (fun acc statement => acc ++ statementIssues statement)
                     [] (statements analysis) in
  {| issues := found;
     riskLevel := if length found =? 0 then "low"
                  else if length found <=? 2 then "medium" else "high" |}.


(** *** Code quality *)

Record FunctionLength : Type := {
  fl_name : option string;
  startLine : nat;
  fl_length : Z
}.

Definition closeFunction (f : FunctionLength) (endLine : nat) : FunctionLength :=
  {| fl_name := fl_name f; startLine := startLine f;
     fl_length := (Z.of_nat endLine - Z.of_nat (startLine f))%Z |}.

(** The loop of [analyzeFunctionLengths] on the pair
    [(functions, currentFunction)]. *)
Definition lengthStep (st : list FunctionLength * option FunctionLength)
    (statement : Statement) : list FunctionLength * option FunctionLength :=
  let '(done, currentFunction) := st in
  if type statement == "function" then
    (match currentFunction with
     | Some f => done ++ [closeFunction f (line statement)]
     | None => done
     end,
     Some {| fl_name := name statement; startLine := line statement; fl_length := 0 |})
  else st.

Definition analyzeFunctionLengths (analysis : Analysis) : list FunctionLength :=
  let '(done, currentFunction) := foldl lengthStep ([], None) (statements analysis) in
  match currentFunction with
  | Some f => done ++ [closeFunction f (totalLines analysis)]
  | None => done
  end.

Record MagicNumber : Type := {
  value : N;
  mn_line : nat
}.

(** A word boundary, digits, a word boundary. *)
Definition numberPattern : regex := seq [WordB; Group 1 (plus (Chr CDigit)); WordB].

(** [parseInt] on a string that starts with decimal digits, as the matches
    of [numberPattern] do; [None] is NaN.  The value is exact; the source
    rounds it to a double above 2^53. *)
Fixpoint digitsValue (acc : N) (s : string) : N :=
  match s with
  | EmptyString => acc
  | String a s' =>
      if JS.isDigit a
      then digitsValue (acc * 10 + N.of_nat (JS.code a - 48))%N s'
      else acc
  end.

Definition parseInt (s : string) : option N :=
  match s with
  | EmptyString => None
  | String a _ => if JS.isDigit a then Some (digitsValue 0 s) else None
  end.

Definition isMagic (num : option N) : bool :=
  match num with
  | Some n => (1 <? n)%N && negb (n =? 100)%N && negb (n =? 1000)%N
  | None => false
  end.

Definition statementMagicNumbers (statement : Statement) : list MagicNumber :=
  omap (fun text =>
          let num := parseInt text in
          if isMagic num
          then Some {| value := default 0%N num; mn_line := line statement |}
          else None)
       (matchAll numberPattern (code statement)).

Definition findMagicNumbers (analysis : Analysis) : list MagicNumber :=
  foldl (fun acc statement => acc ++ statementMagicNumbers statement)
        [] (statements analysis).

Record QualityIssue : Type := {
  qi_type : string;
  qi_severity : string;
  qi_message : string;
  qi_line : option nat;
  qi_count : option nat
}.

Record Suggestion : Type := {
  sg_type : string;
  sg_message : string;
  sg_line : nat
}.

Record Quality : Type := {
  q_issues : list QualityIssue;
  suggestions : list Suggestion;
  overallRating : string
}.

Definition getOverallRating (issueCount : nat) : string :=
  if issueCount =? 0 then "excellent"
  else if issueCount <=? 2 then "good"
  else if issueCount <=? 5 then "fair"
  else "needs_improvement".

Definition assessCodeQuality (analysis : Analysis) : Quality :=
  (* Check for long functions *)
  let long :=
    omap (fun func =>
            if (50 <? fl_length func)%Z
            then Some {| qi_type := "long_function"; qi_severity := "warning";
                         qi_message :=
                           "Function '" +:+ JS.show (fl_name func) +:+ "' is "
                           +:+ pretty (fl_length func)
                           +:+ " lines long. Consider breaking it down.";
                         qi_line := Some (startLine func); qi_count := None |}
            else None)
         (analyzeFunctionLengths analysis) in
  (* Check for deeply nested code *)
  let deepNesting := filter (fun s => 8 <? indent s) (statements analysis) in
  let deep :=
    if 0 <? length deepNesting
    then [{| qi_type := "deep_nesting"; qi_severity := "warning";
             qi_message :=
               "Deep nesting detected. Consider refactoring for better readability.";
             qi_line := None; qi_count := Some (length deepNesting) |}]
    else [] in
  (* Check for magic numbers *)
  let magic :=
    map (fun number =>
           {| sg_type := "magic_number";
              sg_message :=
                "Consider replacing magic number '" +:+ pretty (value number)
                +:+ "' with a named constant";
              sg_line := mn_line number |})
        (findMagicNumbers analysis) in
  {| q_issues := long ++ deep; suggestions := magic;
     overallRating := getOverallRating (length (long ++ deep)) |}.

(** *** Patterns *)

(** A pattern object; the confidence is the decimal literal of the source. *)
Record Pattern : Type := {
  p_type : string;
  p_description : string;
  confidence : option Q;
  p_line : option nat;
  p_severity : option string;
  p_complexity : option string;
  p_functions : option (list (option string))
}.

Definition mkPattern (ty descr : string) : Pattern :=
  {| p_type := ty; p_description := descr; confidence := None; p_line := None;
     p_severity := None; p_complexity := None; p_functions := None |}.

(** [names.some(name => f(name.toLowerCase()))]: the search stops at the
    first hit, and lower-casing an undefined name throws. *)
Fixpoint someName (f : string -> bool) (names : list (option string)) : completion bool :=
  match names with
  | [] => Normal false
  | n :: rest =>
      do s <- deref n;
      if f (JS.toLowerCase s) then Normal true else someName f rest
  end.

Definition identifyDesignPatterns (analysis : Analysis) : completion (list Pattern) :=
  let functionNames := functions analysis in
  (* Factory pattern *)
  do factory <- someName (fun n => JS.includes n "create" || JS.includes n "factory")
                         functionNames;
  (* Observer pattern *)
  do observer <- someName (fun n => JS.includes n "notify" || JS.includes n "observer")
                          functionNames;
  Normal
    ((if factory
      then [{| p_type := "factory_pattern";
               p_description := "Factory pattern detected - functions that create objects";
               confidence := Some (6 # 10); p_line := None; p_severity := None;
               p_complexity := None; p_functions := None |}]
      else [])
     ++ (if observer
         then [{| p_type := "observer_pattern";
                  p_description :=
                    "Observer pattern detected - notification mechanism found";
                  confidence := Some (7 # 10); p_line := None; p_severity := None;
                  p_complexity := None; p_functions := None |}]
         else [])).

Definition reComma : regex := chr ",".

Definition identifyCodeSmells (analysis : Analysis) : list Pattern :=
  omap (fun statement =>
          if (type statement == "function") && JS.includes (code statement) "," then
            let paramCount := length (matchAll reComma (code statement)) + 1 in
            if 5 <? paramCount
            then Some {| p_type := "long_parameter_list";
                         p_description :=
                           "Function has " +:+ pretty paramCount
                           +:+ " parameters - consider using objects";
                         confidence := None; p_line := Some (line statement);
                         p_severity := Some "warning"; p_complexity := None;
                         p_functions := None |}
            else None
          else None)
       (statements analysis).

(** A for statement followed, anywhere later, by a deeper for statement. *)
Fixpoint hasNestedLoops (stmts : list Statement) : bool :=
  match stmts with
  | [] => false
  | stmt :: rest =>
      ((type stmt == "for")
       && existsb (fun s => (type s == "for") && (indent stmt <? indent s)) rest)
      || hasNestedLoops rest
  end.

Definition findRecursiveFunctions (analysis : Analysis) : list (option string) :=
  filter (fun funcName =>
            0 <? length (filter (fun s => (type s == "call")
                                          && bool_decide (function s = funcName))
                                (statements analysis)))
         (functions analysis).

Definition identifyAlgorithmPatterns (analysis : Analysis) : list Pattern :=
  let recursiveFunctions := findRecursiveFunctions analysis in
  (if hasNestedLoops (statements analysis)
   then [{| p_type := "nested_loops";
            p_description :=
              "Nested loops detected - possible O(n" +:+ superscript2 +:+ ") complexity";
            confidence := None; p_line := None; p_severity := None;
            p_complexity := Some "quadratic"; p_functions := None |}]
   else [])
  ++ (if 0 <? length recursiveFunctions
      then [{| p_type := "recursion"; p_description := "Recursive functions detected";
               confidence := None; p_line := None; p_severity := None;
               p_complexity := None; p_functions := Some recursiveFunctions |}]
      else []).

Definition identifyPatterns (analysis : Analysis) : completion (list Pattern) :=
  do design <- identifyDesignPatterns analysis;
  Normal (design ++ identifyCodeSmells analysis ++ identifyAlgorithmPatterns analysis).

(** *** Performance *)

Definition estimateSpaceComplexity (analysis : Analysis) (pats : list Pattern) : string :=
  let variableCount := length (a_variables analysis) in
  let hasRecursion := existsb (fun p => p_type p == "recursion") pats in
  if hasRecursion then "O(n)"
  else if variableCount <? 10 then "O(1)"
  else "O(n)".

Record Bottleneck : Type := {
  b_type : string;
  b_description : string;
  impact : string
}.

Definition identifyBottlenecks (pats : list Pattern) : list Bottleneck :=
  (if 0 <? length (filter (fun p => p_type p == "nested_loops") pats)
   then [{| b_type := "nested_loops";
            b_description :=
              "Nested loops may cause performance issues with large datasets";
            impact := "high" |}]
   else [])
  ++ (if 0 <? length (filter (fun p => p_type p == "recursion") pats)
      then [{| b_type := "recursion";
               b_description :=
                 "Recursive functions may cause stack overflow with large inputs";
               impact := "medium" |}]
      else []).

Record Optimization : Type := {
  o_type : string;
  o_message : string;
  priority : string
}.

Definition generateOptimizationSuggestions (timeComplexity : string)
    (bottlenecks : list Bottleneck) : list Optimization :=
  (if JS.includes timeComplexity ("n" +:+ superscript2)
      || JS.includes timeComplexity ("n" +:+ superscript3)
   then [{| o_type := "algorithm_optimization";
            o_message :=
              "Consider using more efficient algorithms to reduce time complexity";
            priority := "high" |}]
   else [])
  ++ (if existsb (fun b => b_type b == "recursion") bottlenecks
      then [{| o_type := "memoization";
               o_message := "Consider adding memoization to recursive functions";
               priority := "medium" |}]
      else []).

Record Performance : Type := {
  timeComplexity : string;
  spaceComplexity : string;
  bottlenecks : list Bottleneck;
  optimizationSuggestions : list Optimization
}.

Definition analyzePerformance (analysis : Analysis) (pats : list Pattern) : Performance :=
  let time := estimateTimeComplexity analysis in
  let found := identifyBottlenecks pats in
  {| timeComplexity := time;
     spaceComplexity := estimateSpaceComplexity analysis pats;
     bottlenecks := found;
     optimizationSuggestions := generateOptimizationSuggestions time found |}.

(** *** Flow insights and variable flow *)

Record FlowInsights : Type := {
  entryPoints : list (option string * nat);
  exitPoints : list (nat * string);
  branchingFactor : nat;
  pathComplexity : nat
}.

Definition calculateBranchingFactor (analysis : Analysis) : nat :=
  length (filter (fun s => existsb (String.eqb (type s)) ["if"; "for"; "while"])
                 (statements analysis)).

Definition generateFlowInsights (analysis : Analysis) : FlowInsights :=
  {| entryPoints :=
       map (fun s => (name s, line s))
           (filter (fun s => type s == "function") (statements analysis));
     exitPoints :=
       map (fun s => (line s, code s))
           (filter (fun s => type s == "return") (statements analysis));
     branchingFactor := calculateBranchingFactor analysis;
     pathComplexity := 2 ^ Nat.min (calculateBranchingFactor analysis) 10 |}.

Record FlowEvent : Type := {
  fe_line : nat;
  fe_type : string;
  fe_action : string
}.

Definition trackVariableFlow (analysis : Analysis)
    : gmap (option string) (list FlowEvent) :=
  foldl (fun flow statement =>
           match variables statement with
           | Some vs =>
               foldl (fun flow v =>
                        <[v := default [] (flow !! v)
                               ++ [{| fe_line := line statement;
                                      fe_type := type statement;
                                      fe_action :=
                                        if type statement == "variable"
                                        then "declare" else "modify" |}]]> flow)
                     flow vs
           | None => flow
           end)
        ∅ (statements analysis).

(** *** The analysis and its cache *)

(** The rolling hash: shift by 5, subtract, add the code unit, and wrap to
    32 bits. *)
Definition hashStep (hash : Z) (a : ascii) : Z :=
  let char := Z.of_nat (JS.code a) in
  let hash := (JS.toInt32 (Z.shiftl (JS.toInt32 hash) 5) - hash + char)%Z in
  Z.land (JS.toInt32 hash) (JS.toInt32 hash).

Fixpoint hashFrom (hash : Z) (str : string) : Z :=
  match str with
  | EmptyString => hash
  | String a str' => hashFrom (hashStep hash a) str'
  end.

Definition hashCode (str : string) : Z := hashFrom 0 str.

(** The analysis object once [analyzeCode] has filled it in.  The
    flowchart is kept as the graph the code is written from: the text
    itself is not modelled, its link styles carry an index drawn with
    [Math.random]. *)
Record AnalysisResult : Type := {
  parsed : Analysis;
  quality : Quality;
  patterns : list Pattern;
  performance : Performance;
  security : Security;
  flowInsights : FlowInsights;
  variableFlow : gmap (option string) (list FlowEvent);
  executionSteps : list ExecutionStep;
  metrics : Metrics;
  flowchartCode : FlowchartGenerator.Flowchart
}.

(** What [analyzeCode] computes when the cache has no entry. *)
Definition freshAnalysis (source language : string) : completion AnalysisResult :=
  let parser := CodeParser.new language in
  do analysis <- parseCode parser source;
  (* enhanceAnalysis *)
  let quality := assessCodeQuality analysis in
  do pats <- identifyPatterns analysis;
  let performance := analyzePerformance analysis pats in
  let security := analyzeSecurityIssues analysis in
  let flowInsights := generateFlowInsights analysis in
  let variableFlow := trackVariableFlow analysis in
  let executionSteps := generateExecutionSteps analysis in
  let metrics := calculateMetrics analysis in
  do flowchart <- FlowchartGenerator.generateFromAnalysis (statements analysis);
  Normal {| parsed := analysis; quality := quality; patterns := pats;
            performance := performance; security := security;
            flowInsights := flowInsights; variableFlow := variableFlow;
            executionSteps := executionSteps; metrics := metrics;
            flowchartCode := flowchart |}.

(** The analyzer object.  The cache maps a key to a reference; a
    reference is the position of the analysis object in [heap], the store
    of the objects allocated so far. *)
Record Analyzer : Type := {
  supportedLanguages : list string;
  analysisCache : gmap string nat;
  heap : list AnalysisResult
}.

(** [new CodeAnalyzer()] *)
Definition new : Analyzer :=
  {| supportedLanguages := ["javascript"; "python"; "java"; "cpp"];
     analysisCache := ∅; heap := [] |}.

Definition cacheKey (source language : string) : string :=
  language +:+ ":" +:+ pretty (hashCode source).

(** [analyzeCode(code, language = 'javascript')] returns a reference. *)
Definition analyzeCode (this : Analyzer) (source : string) (lang : option string)
    : completion (nat * Analyzer) :=
  let language := default "javascript" lang in
  (* Check cache first *)
  let key := cacheKey source language in
  match analysisCache this !! key with
  | Some ref => Normal (ref, this)
  | None =>
      do analysis <- freshAnalysis source language;
      let ref := length (heap this) in
      (* Cache the result *)
      Normal (ref, {| supportedLanguages := supportedLanguages this;
                      analysisCache := <[key := ref]> (analysisCache this);
                      heap := heap this ++ [analysis] |})
  end.

Definition clearCache (this : Analyzer) : Analyzer :=
  {| supportedLanguages := supportedLanguages this;
     analysisCache := ∅;
     heap := heap this |}.

(** The size of the cache and its keys; the keys come in the order of the
    map of the model, which is not the order of insertion. *)
Definition getCacheStats (this : Analyzer) : nat * list string :=
  (size (analysisCache this), (map_to_list (analysisCache this)).*1).

End CodeAnalyzer.


(** * Vocabulary of the properties *)

Module Vocabulary.
Import Regex CodeParser FlowchartGenerator CodeAnalyzer.

(** ** Texts *)

(** The line end. *)
Definition nl : string := String "010" "".

(** The lines joined by line ends. *)
Fixpoint unlines (lines : list string) : string :=
  match lines with
  | [] => ""
  | [text] => text
  | text :: rest => text +:+ nl +:+ unlines rest
  end.

(** The text from the index [n] on. *)
Fixpoint strDrop (n : nat) (s : string) : string :=
  match n, s with
  | 0, _ => s
  | S n', String _ s' => strDrop n' s'
  | S _, EmptyString => EmptyString
  end.

(** A text of white space only (the empty text included). *)
Fixpoint allSpace (s : string) : bool :=
  match s with
  | EmptyString => true
  | String a s' => JS.isSpace a && allSpace s'
  end.

(** A text without white space, as the comment marks are. *)
Fixpoint noSpace (m : string) : bool :=
  match m with
  | EmptyString => true
  | String x m' => negb (JS.isSpace x) && noSpace m'
  end.

(** ** The matcher *)

(** Every match of [r] goes through the group [n]. *)
Fixpoint mandatory (n : nat) (r : regex) : bool :=
  match r with
  | Group m r1 => (n =? m) || mandatory n r1
  | Seq r1 r2 => mandatory n r1 || mandatory n r2
  | Alt r1 r2 => mandatory n r1 && mandatory n r2
  | _ => false
  end.

(** The captures [c'] define every group that [c] defines. *)
Definition extends (c c' : captures) : Prop :=
  forall n, is_Some (capture n c) -> is_Some (capture n c').

(** Every match of [r] takes at least one character. *)
Fixpoint consumes (r : regex) : bool :=
  match r with
  | Chr _ => true
  | Lit s => negb (String.eqb s "")
  | Seq r1 r2 => consumes r1 || consumes r2
  | Alt r1 r2 => consumes r1 && consumes r2
  | Group _ r1 => consumes r1
  | _ => false
  end.

(** [r] has no group numbered [n]. *)
Fixpoint groupFree (n : nat) (r : regex) : bool :=
  match r with
  | Seq r1 r2 | Alt r1 r2 => groupFree n r1 && groupFree n r2
  | Star _ r1 => groupFree n r1
  | Group m r1 => negb (n =? m) && groupFree n r1
  | _ => true
  end.

(** Every match of [r] defines the group [n], and not as the empty
    string. *)
Fixpoint solid (n : nat) (r : regex) : bool :=
  match r with
  | Group m r1 => if n =? m then consumes r1 else solid n r1
  | Seq r1 r2 => (solid n r1 && groupFree n r2) || solid n r2
  | Alt r1 r2 => solid n r1 && solid n r2
  | _ => false
  end.

(** A defined, non-empty string. *)
Definition nonempty (o : option string) : Prop :=
  exists w, o = Some w /\ w <> "".

(** What a match of the input [inp] from [i] on captures [c] reaches: a
    later index within the input, and captures that keep the groups of
    [keep]. *)
Definition reaches (inp : string) (keep : nat -> Prop) (k : cont)
    (res : nat * captures) (i : nat) (c : captures) (j : nat) (c' : captures) : Prop :=
  k j c' = Some res /\ i <= j <= String.length inp /\
  forall n, keep n -> capture n c' = capture n c.

(** A match was found. *)
Definition found {X} (o : option X) : bool :=
  match o with Some _ => true | None => false end.

(** What a lazy star of the class [cl] does before the continuation [k]
    on [t], the text from the index [i] on: it tries [k] first, and takes
    one more character when [k] fails. *)
Fixpoint lazyScan (cl : cclass) (k : cont) (c : captures) (t : string) (i : nat)
    : option (nat * captures) :=
  match k i c with
  | Some x => Some x
  | None =>
      match t with
      | EmptyString => None
      | String a t' => if inClass cl a then lazyScan cl k c t' (S i) else None
      end
  end.

(** What a greedy star of the class [cl] does before the continuation
    [k]: it takes the whole run, and gives back one character at a time
    while [k] fails. *)
Fixpoint greedyScan (cl : cclass) (k : cont) (c : captures) (t : string) (i : nat)
    : option (nat * captures) :=
  match t with
  | EmptyString => k i c
  | String a t' =>
      if inClass cl a then
        match greedyScan cl k c t' (S i) with
        | Some x => Some x
        | None => k i c
        end
      else k i c
  end.

(** One of the texts [marks] starts the text [t]. *)
Definition startsWithAny (marks : list string) (t : string) : bool :=
  existsb (fun m => String.prefix m t) marks.

(** The texts that start a comment in the profile of a language name. *)
Definition commentMarks (lang : string) : list string :=
  if String.eqb lang "python" then ["#"]
  else if existsb (String.eqb lang) inheritedKeys then []
  else ["//"; "/*"].

(** The text before the first character [x] of [t], if no line
    terminator comes before it. *)
Fixpoint upTo (x : ascii) (t : string) : option string :=
  match t with
  | EmptyString => None
  | String a t' =>
      if Ascii.eqb a x then Some EmptyString
      else if JS.isLineTerminator a then None
      else String a <$> upTo x t'
  end.

(** The text between the first opening parenthesis of [t] that is closed
    on its line and the closing parenthesis that comes first after it. *)
Fixpoint firstGroup (t : string) : option string :=
  match t with
  | EmptyString => None
  | String a t' =>
      if Ascii.eqb a "(" then
        match upTo ")" t' with
        | Some inner => Some inner
        | None => firstGroup t'
        end
      else firstGroup t'
  end.

(** The text a line has after one of the three keywords, if it starts
    with one. *)
Definition afterKeyword (t : string) : option string :=
  if String.prefix "if" t then Some (strDrop 2 t)
  else if String.prefix "while" t then Some (strDrop 5 t)
  else if String.prefix "elif" t then Some (strDrop 4 t)
  else None.

(** The condition of a line in the Python profile: after the leading
    white space, one of the keywords and some white space, the text before
    the first colon. *)
Definition pythonCondition (text : string) : option string :=
  match afterKeyword (JS.trimStart text) with
  | Some (String a rest) =>
      if JS.isSpace a then upTo ":" (JS.trimStart rest) else None
  | _ => None
  end.

(** The condition of a line in the profile of a parser. *)
Definition conditionText (this : Parser) (text : string) : string :=
  default "condition"
    (if String.eqb (language this) "python" then pythonCondition text else firstGroup text).

(** The number of characters of the class [cl] a text starts with. *)
Fixpoint run (cl : cclass) (t : string) : nat :=
  match t with
  | EmptyString => 0
  | String a t' => if inClass cl a then S (run cl t') else 0
  end.

(** The name a line assigns to in the Python profile: after the leading
    white space, the word characters before an equals sign, with white
    space between at most. *)
Definition pythonTarget (text : string) : option string :=
  let t := JS.trimStart text in
  let n := run CWord t in
  if n =? 0 then None
  else match JS.trimStart (strDrop n t) with
       | String a _ => if Ascii.eqb a "=" then Some (String.substring 0 n t) else None
       | EmptyString => None
       end.

(** The call a text starts with: one word character or more, then, with
    white space between at most, a parenthesis that is closed on the line;
    the name is the word characters and the argument text what stands
    before the first closing parenthesis. *)
Definition callAt (t : string) : option (string * string) :=
  let n := run CWord t in
  if n =? 0 then None
  else match JS.trimStart (strDrop n t) with
       | String a rest =>
           if Ascii.eqb a "("
           then (fun args => (String.substring 0 n t, args)) <$> upTo ")" rest
           else None
       | EmptyString => None
       end.

(** The first call of a text, from left to right. *)
Fixpoint firstCall (t : string) : option (string * string) :=
  match t with
  | EmptyString => None
  | String _ t' =>
      match callAt t with
      | Some call => Some call
      | None => firstCall t'
      end
  end.

(** The arguments read from an argument text: its pieces between commas,
    trimmed, and none for the empty text. *)
Definition callArguments (args : string) : list string :=
  if JS.truthy args then map JS.trim (JS.split "," args) else [].

(** What a statement has of the first call of a text: a statement of the
    kind call names its function and has its arguments; a statement of
    the kind assignment or statement stands for a text without a call. *)
Definition callShaped (text : string) (s : Statement) : Prop :=
  (type s = "call" ->
   exists nm args, firstCall text = Some (nm, args) /\
                   function s = Some nm /\ arguments s = Some (callArguments args)) /\
  (type s = "assignment" \/ type s = "statement" -> firstCall text = None).

(** The name a text has before an opening parenthesis: white space
    first, then the word characters of the name, then, with white space
    between at most, the parenthesis. *)
Definition nameBeforeParen (t : string) : option string :=
  match t with
  | String a rest =>
      if JS.isSpace a then
        let u := JS.trimStart rest in
        let n := run CWord u in
        if n =? 0 then None
        else match JS.trimStart (strDrop n u) with
             | String b _ =>
                 if Ascii.eqb b "(" then Some (String.substring 0 n u) else None
             | EmptyString => None
             end
      else None
  | EmptyString => None
  end.

(** The name a line defines after the keyword [kw]. *)
Definition definedAfter (kw text : string) : option string :=
  let t := JS.trimStart text in
  if String.prefix kw t then nameBeforeParen (strDrop (String.length kw) t) else None.

(** The name a line defines after any word. *)
Definition definedAfterWord (text : string) : option string :=
  let t := JS.trimStart text in
  let n := run CWord t in
  if n =? 0 then None else nameBeforeParen (strDrop n t).

(** The name of the function a line defines, in the profiles of
    JavaScript (the fallback), Python and C++. *)
Definition functionName (lang text : string) : option string :=
  if String.eqb lang "python" then definedAfter "def" text
  else if String.eqb lang "cpp" then definedAfterWord text
  else definedAfter "function" text.

(** ** The classifier *)

(** A rule table [analyzeLine] can run on: the rules it tests without a
    guard are there, and the function rule names the function in its
    group 1, or else in its group 3. *)
Definition usable (p : Patterns) : Prop :=
  is_Some (pat_variable p) /\ is_Some (pat_if p) /\
  exists r, pat_function p = Some r /\ (solid 1 r = true \/ mandatory 3 r = true).

(** The kinds of statement of the data model. *)
Definition statementKinds : list string :=
  ["variable"; "assignment"; "function"; "if"; "for"; "while"; "return";
   "call"; "statement"].

(** A line that is neither blank nor a comment of the profile. *)
Definition isStatementLine (this : Parser) (text : string) : bool :=
  JS.truthy (JS.trim text) && negb (isComment this (JS.trim text)).

(** The lines of a text with their numbers, from [n] on. *)
Fixpoint numbered (n : nat) (lines : list string) : list (nat * string) :=
  match lines with
  | [] => []
  | text :: rest => (n, text) :: numbered (S n) rest
  end.

(** The numbered statement lines, trimmed: what the classifier has to
    emit one statement for. *)
Definition statementLines (this : Parser) (n : nat) (lines : list string)
    : list (nat * string) :=
  map (fun p => (fst p, JS.trim (snd p)))
      (filter (fun p => isStatementLine this (snd p)) (numbered n lines)).

(** A line of code of a language: a line that is not white space only
    and that does not start, once its leading white space is dropped, with
    a comment mark of the profile. *)
Definition codeLine (lang text : string) : bool :=
  negb (allSpace text)
  && negb (startsWithAny (commentMarks lang) (JS.trimStart text)).

(** The numbered lines of code, trimmed. *)
Definition codeLines (lang : string) (n : nat) (lines : list string)
    : list (nat * string) :=
  map (fun p => (fst p, JS.trim (snd p)))
      (filter (fun p => codeLine lang (snd p)) (numbered n lines)).

(** A statement [analyzeLine] has produced. *)
Definition classified (this : Parser) (s : Statement) : Prop :=
  exists text ln ind, analyzeLine this text ln ind = Normal s.

(** The line number and the text of a statement. *)
Definition origin (s : Statement) : nat * string := (line s, code s).

(** No rule of the profile applies to the line. *)
Definition unmatched (this : Parser) (text : string) : Prop :=
  let p := CodeParser.patterns this in
  guardedTest (pat_variable p) text = false /\
  guardedTest (pat_function p) text = false /\
  guardedTest (pat_if p) text = false /\
  guardedTest (pat_for p) text = false /\
  guardedTest (pat_while p) text = false /\
  guardedTest (pat_return p) text = false /\
  exec reCall text = None /\
  guardedTest (pat_assignment p) text = false.

(** The statements the classifier emits for a text. *)
Definition statementsOf (language source : string) : list Statement :=
  match parseCode (CodeParser.new language) source with
  | Normal a => statements a
  | Throw _ => []
  end.

(** ** The execution steps *)

(** The memory event of a declaration. *)
Definition createEvent (s : Statement) : MemoryChange :=
  {| action := "create"; mc_variable := name s; mc_type := "variable" |}.

(** ** The graph *)

(** An edge of the turn [i] that leaves the node of the turn, forwards:
    [c] is the identifier of the start node, [n] the number of
    statements. *)
Definition forward (c n i : nat) (e : Connection) : Prop :=
  from e = A (c + i) /\ label e <> "Loop" /\
  exists j, i < j <= S n /\ to e = A (c + j).

(** A loop edge of the turn [i]: back to the loop node of the turn, from
    a later statement. *)
Definition backward (c n i : nat) (e : Connection) : Prop :=
  label e = "Loop" /\ to e = A (c + i) /\ 1 <= i /\
  exists j, i < j <= n /\ from e = A (c + j).

(** The invariants of the graph built for [stmts]: the first node is the
    start node and the last the end node; they are the only node of type
    start, the only node of type end, and the only two nodes of terminal
    shape; no two nodes share an identifier; no edge enters the start node;
    every node but the end node has an edge that leaves it; there are at
    least as many edges as nodes but one. *)
Definition graphInvariants (stmts : list Statement) (g : Flowchart) : Prop :=
  let startNode := terminalNode 1 "start" in
  let endNode := terminalNode (length stmts + 2) "end" in
  head (nodes g) = Some startNode /\
  last (nodes g) = Some endNode /\
  filter (fun nd => n_type nd = "start") (nodes g) = [startNode] /\
  filter (fun nd => n_type nd = "end") (nodes g) = [endNode] /\
  filter (fun nd => shape nd = "ellipse") (nodes g) = [startNode; endNode] /\
  NoDup (id <$> nodes g) /\
  Forall (fun e => to e <> id startNode) (connections g) /\
  Forall (fun nd => nd <> endNode -> exists e, e ∈ connections g /\ from e = id nd)
         (nodes g) /\
  length (nodes g) - 1 <= length (connections g).

(** Claim C4 as the specification words it: the node of every return
    statement has an edge to the end node and, besides, the sequential
    edge to the node that follows it. *)
Definition returnKeepsSequentialEdge (stmts : list Statement) (g : Flowchart) : Prop :=
  forall i s,
    stmts !! i = Some s -> type s = "return" ->
    (exists e, e ∈ connections g /\ from e = A (i + 2) /\ to e = A (length stmts + 2)) /\
    (exists e, e ∈ connections g /\ from e = A (i + 2) /\ to e = A (i + 3)).

(** ** The metrics and the findings *)

(** Two characters that make the token of logical AND or of logical OR. *)
Definition isBoolToken (a b : ascii) : bool :=
  (Ascii.eqb a "&" && Ascii.eqb b "&") || (Ascii.eqb a "|" && Ascii.eqb b "|").

(** The number of logical AND and OR tokens in a text, read from left to
    right without overlap. *)
Fixpoint countBoolTokens (s : string) : nat :=
  match s with
  | EmptyString => 0
  | String a s' =>
      match s' with
      | EmptyString => 0
      | String b s'' =>
          if isBoolToken a b then S (countBoolTokens s'') else countBoolTokens s'
      end
  end.

(** The tokens in the condition text of a statement, if it has one. *)
Definition boolOps (s : Statement) : nat :=
  match condition s with
  | Some c => countBoolTokens c
  | None => 0
  end.

(** The first token of [t], the text from the index [i] on, as a match. *)
Fixpoint firstToken (t : string) (i : nat) : option MatchResult :=
  match t with
  | EmptyString => None
  | String a t' =>
      match t' with
      | EmptyString => None
      | String b _ =>
          if isBoolToken a b
          then Some {| Regex.index := i; lastIndex := i + 2; groups := [] |}
          else firstToken t' (S i)
      end
  end.

(** Claim C1 as the specification words it: the base 1, one for every
    conditional, for-loop and while-loop statement, and the tokens in the
    condition text of the conditionals only. *)
Definition claimedComplexity (stmts : list Statement) : nat :=
  1 + length (filter (fun s => type s ∈ ["if"; "for"; "while"]) stmts)
  + sum_list (boolOps <$> filter (fun s => type s = "if") stmts).

(** The number of loop statements of a stream. *)
Definition loopCount (stmts : list Statement) : nat :=
  length (filter (fun s => type s ∈ ["for"; "while"]) stmts).

(** The raw text of the statement contains [needle], whatever the case. *)
Definition mentions (needle : string) (s : Statement) : bool :=
  JS.includes (JS.toLowerCase (code s)) needle.

(** ** The cache *)

(** The state of an analyzer whose cached references are allocated. *)
Definition wellFormed (this : Analyzer) : Prop :=
  forall key ref, analysisCache this !! key = Some ref -> ref < length (heap this).

(** The polynomial of base 31 in the code units of [s], from the value
    [h] on: the first character has the highest power. *)
Fixpoint polyHash (h : Z) (s : string) : Z :=
  match s with
  | EmptyString => h
  | String a s' => polyHash (31 * h + Z.of_nat (JS.code a)) s'
  end.

(** The character [x] occurs in [s]. *)
Fixpoint occurs (x : ascii) (s : string) : bool :=
  match s with
  | EmptyString => false
  | String a s' => Ascii.eqb a x || occurs x s'
  end.

(** A text of decimal digits only. *)
Fixpoint allDigits (s : string) : bool :=
  match s with
  | EmptyString => true
  | String a s' => JS.isDigit a && allDigits s'
  end.

(** The categories of an execution step. *)
Definition stepCategories : list string :=
  ["memory"; "definition"; "control"; "execution"].

(** The weight of a step is a number between 1 and 3; but under a type
    that is a name the table of the weights inherits, it is the inherited
    property, which is no number. *)
Definition weighted (step : ExecutionStep) : Prop :=
  if existsb (String.eqb (es_type step)) inheritedKeys
  then es_complexity step = Inherited (es_type step)
  else exists w, es_complexity step = Own w /\ 1 <= w <= 3.

(** The kind of the first rule that applies to a line, in the order in
    which [analyzeLine] tries the rules; the shape of a call comes before
    the assignment rule. *)
Definition firstRule (this : Parser) (text : string) : string :=
  let p := CodeParser.patterns this in
  if guardedTest (pat_variable p) text then "variable"
  else if guardedTest (pat_function p) text then "function"
  else if guardedTest (pat_if p) text then "if"
  else if guardedTest (pat_for p) text then "for"
  else if guardedTest (pat_while p) text then "while"
  else if guardedTest (pat_return p) text then "return"
  else if test reCall text then "call"
  else if guardedTest (pat_assignment p) text then "assignment"
  else "statement".

(** The analysis object with another language name. *)
Definition relabel (lang : string) (a : Analysis) : Analysis :=
  {| a_language := lang; totalLines := totalLines a; statements := statements a;
     a_variables := a_variables a; functions := functions a;
     controlStructures := controlStructures a; complexity := complexity a |}.

(** The names of the profiles other than the JavaScript one, and the
    inherited property names. *)
Definition otherProfiles : list string := ["python"; "java"; "cpp"] ++ inheritedKeys.

(** ** The loop over the lines *)

(** The number of white-space characters a text starts with. *)
Fixpoint leadingSpaces (s : string) : nat :=
  match s with
  | EmptyString => 0
  | String a s' => if JS.isSpace a then S (leadingSpaces s') else 0
  end.

(** Where a statement comes from: its line number, its text and its
    indentation level. *)
Definition position (s : Statement) : nat * string * nat := (line s, code s, indent s).

(** The positions of the statement lines of a text, numbered from [n] on:
    the text is trimmed, the level is half the leading white space. *)
Definition positions (this : Parser) (n : nat) (lines : list string)
    : list (nat * string * nat) :=
  map (fun p => (fst p, JS.trim (snd p), leadingSpaces (snd p) / 2))
      (filter (fun p => isStatementLine this (snd p)) (numbered n lines)).

(** The names a statement declares or assigns. *)
Definition declared (s : Statement) : list (option string) := default [] (variables s).

(** What the analysis object keeps beside the statements: the control
    structures are the statements of the three control kinds, in order,
    and the complexity counts them; the two sets have no duplicates and
    hold the declared names and the names of the function statements. *)
Definition bookkeeping (a : Analysis) : Prop :=
  controlStructures a = filter (fun s => type s ∈ ["if"; "for"; "while"]) (statements a) /\
  complexity a = length (controlStructures a) /\
  NoDup (a_variables a) /\ NoDup (functions a) /\
  (forall v, v ∈ a_variables a <-> exists s, s ∈ statements a /\ v ∈ declared s) /\
  (forall f, f ∈ functions a <->
             exists s, s ∈ statements a /\ type s = "function" /\ name s = f).

(** ** The insights *)

(** The event a statement adds to the flow of each of its names. *)
Definition flowEvent (s : Statement) : FlowEvent :=
  {| fe_line := line s; fe_type := type s;
     fe_action := if String.eqb (type s) "variable" then "declare" else "modify" |}.

(** The events of the name [v]: one for every mention of [v] among the
    names of a statement, in the order of the statements. *)
Definition eventsOf (v : option string) (stmts : list Statement) : list FlowEvent :=
  flat_map (fun s => (fun _ => flowEvent s) <$> filter (fun w => w = v) (declared s)) stmts.

(** The entry of a name once the events [l] are added to the entry [o]. *)
Definition joined (o : option (list FlowEvent)) (l : list FlowEvent)
    : option (list FlowEvent) :=
  match l with
  | [] => o
  | _ => Some (default [] o ++ l)
  end.

(** Some call statement calls a name that some function statement
    defines, wherever the two statements are. *)
Definition callsDefined (stmts : list Statement) : Prop :=
  exists f c, f ∈ stmts /\ c ∈ stmts /\
              type f = "function" /\ type c = "call" /\ function c = name f.

(** A for statement is followed, anywhere later, by a for statement of a
    higher indentation level. *)
Definition deeperForLater (stmts : list Statement) : Prop :=
  exists i j s1 s2, i < j /\ stmts !! i = Some s1 /\ stmts !! j = Some s2 /\
                    type s1 = "for" /\ type s2 = "for" /\ indent s1 < indent s2.

(** The stretches of the function statements [fs] in a text of [total]
    lines: from the line of a function statement to the line of the next
    one, and from the last one to the number of lines. *)
Fixpoint spans (fs : list Statement) (total : nat) : list FunctionLength :=
  match fs with
  | [] => []
  | f :: rest =>
      {| fl_name := name f; startLine := line f;
         fl_length := (Z.of_nat (match rest with
                                 | [] => total
                                 | g :: _ => line g
                                 end) - Z.of_nat (line f))%Z |}
      :: spans rest total
  end.

(** The number of characters of the class [cl] in a text. *)
Fixpoint countIn (cl : cclass) (s : string) : nat :=
  match s with
  | EmptyString => 0
  | String a s' => (if inClass cl a then 1 else 0) + countIn cl s'
  end.

(** The first character of the class [cl] in [t], the text from the index
    [i] on, as a match. *)
Fixpoint firstIn (cl : cclass) (t : string) (i : nat) : option MatchResult :=
  match t with
  | EmptyString => None
  | String a t' =>
      if inClass cl a
      then Some {| Regex.index := i; lastIndex := S i; groups := [] |}
      else firstIn cl t' (S i)
  end.

(** The number of commas of the line of a statement. *)
Definition commas (s : Statement) : nat := countIn (COne ",") (code s).

(** The smell reported for a function statement: one parameter more than
    its line has commas. *)
Definition longParameterList (s : Statement) : Pattern :=
  {| p_type := "long_parameter_list";
     p_description :=
       "Function has " +:+ pretty (commas s + 1) +:+ " parameters - consider using objects";
     confidence := None; p_line := Some (line s); p_severity := Some "warning";
     p_complexity := None; p_functions := None |}.

(** ** The flowchart data of the parser *)

(** An edge of a tree over [nodes]: it leads from a node that is not a
    branch placeholder to a node numbered higher. *)
Definition treeEdge (nodes : list DataNode) (e : DataEdge) : Prop :=
  exists i j nd,
    de_from e = nodeName i /\ de_to e = nodeName j /\
    1 <= i < j /\ j <= length nodes /\
    nodes !! (i - 1) = Some nd /\ dn_type nd <> "process".

(** What holds between two turns of the loop of [generateFlowchartData]:
    the nodes are numbered from 1 on without a gap and the counter is the
    next number; every node but the first is the target of one edge, in
    the order of the nodes; every edge is a tree edge; the current node is
    a node that is not a branch placeholder. *)
Definition dataState (st : DataState) : Prop :=
  let n := length (ds_nodes st) in
  ds_nodeId st = S n /\
  dn_id <$> ds_nodes st = nodeName <$> List.seq 1 n /\
  de_to <$> ds_edges st = nodeName <$> List.seq 2 (n - 1) /\
  Forall (treeEdge (ds_nodes st)) (ds_edges st) /\
  exists c nd, ds_currentNode st = nodeName c /\ 1 <= c <= n /\
               ds_nodes st !! (c - 1) = Some nd /\ dn_type nd <> "process".

(** The flowchart data of the statements [stmts]: a start node, an end
    node, a node for every statement and two branch placeholders for every
    conditional, numbered from 1 on; the nodes that carry a statement
    carry the statements in order; the edges make a tree rooted at the
    start node, in which the branch placeholders are leaves. *)
Definition dataInvariants (stmts : list Statement) (nodes : list DataNode)
    (edges : list DataEdge) : Prop :=
  dn_id <$> nodes = nodeName <$> List.seq 1 (length nodes) /\
  length nodes = 2 + length stmts + 2 * length (filter (fun s => type s = "if") stmts) /\
  omap dn_statement nodes = stmts /\
  dn_type <$> head nodes = Some "start" /\
  dn_type <$> last nodes = Some "end" /\
  de_to <$> edges = nodeName <$> List.seq 2 (length nodes - 1) /\
  Forall (treeEdge nodes) edges.

(** An edge within the graph of [n] statements, whose nodes are numbered
    1 to [n + 2]: it leaves a node other than the end node, enters a node
    other than the start node, joins two different nodes, and goes to a
    lower number exactly when its label is Loop. *)
Definition withinGraph (n : nat) (e : Connection) : Prop :=
  exists i j, from e = A i /\ to e = A j /\
              1 <= i <= S n /\ 2 <= j <= n + 2 /\ i <> j /\
              (j < i <-> label e = "Loop").

(** ** The labels of the graph *)

(** Every double quote of the text comes after a backslash; [escaping]
    tells whether the character before the text is a backslash. *)
Fixpoint escaped (escaping : bool) (s : string) : bool :=
  match s with
  | EmptyString => true
  | String a s' =>
      (negb (Ascii.eqb a quote) || escaping) && escaped (Ascii.eqb a backslash) s'
  end.

End Vocabulary.

(** * Properties *)

(** ** The matcher: groups that every match defines *)

Module RegexFacts.
Import Regex Vocabulary.

Lemma extends_refl c : extends c c.
Proof. intros n H; exact H. Qed.

Lemma extends_trans c1 c2 c3 : extends c1 c2 -> extends c2 c3 -> extends c1 c3.
Proof. intros H12 H23 n H. apply H23, H12, H. Qed.

Lemma extends_cons n s c : extends c ((n, s) :: c).
Proof.
  intros m H. simpl. destruct (m =? n); [eexists; reflexivity | exact H].
Qed.

Lemma capture_head n s c : is_Some (capture n ((n, s) :: c)).
Proof. simpl. rewrite Nat.eqb_refl. eexists; reflexivity. Qed.

Lemma iterate_reaches body g k :
  (forall i c k' res, body i c k' = Some res ->
                      exists j c', k' j c' = Some res /\ extends c c') ->
  forall fuel i c res,
    iterate body g k fuel i c = Some res ->
    exists j c', k j c' = Some res /\ extends c c'.
Proof.
  intros Hbody. induction fuel as [ | fuel IH]; intros i c res H; simpl in H.
  - exists i, c. split; [exact H | apply extends_refl].
  - assert (Hagain :
              body i c (fun j c' => if i <? j then iterate body g k fuel j c' else None)
              = Some res ->
              exists j c', k j c' = Some res /\ extends c c').
    { intros Hx. apply Hbody in Hx as (j & c1 & Hx & E1).
      destruct (i <? j); [ | discriminate].
      apply IH in Hx as (j' & c2 & Hx & E2).
      exists j', c2. split; [exact Hx | eapply extends_trans; eassumption]. }
    destruct g.
    + destruct (body i c _) as [x | ] eqn:E.
      * inversion H; subst x. apply Hagain. reflexivity.
      * exists i, c. split; [exact H | apply extends_refl].
    + destruct (k i c) as [x | ] eqn:E.
      * inversion H; subst x. exists i, c. split; [exact E | apply extends_refl].
      * apply Hagain, H.
Qed.

(** A successful match ends in a successful call of the continuation, on
    captures that keep the old groups and define the mandatory ones. *)
Lemma rmatch_reaches r inp :
  forall i c k res,
    rmatch r inp i c k = Some res ->
    exists j c', k j c' = Some res /\ extends c c' /\
                 forall n, mandatory n r = true -> is_Some (capture n c').
Proof.
  induction r as [ | cl | s | r1 IH1 r2 IH2 | r1 IH1 r2 IH2 | g r1 IH1 | m r1 IH1 | | ];
    intros i c k res H; simpl in H.
  - exists i, c. split; [exact H | split; [apply extends_refl | discriminate]].
  - destruct (String.get i inp) as [a | ]; [ | discriminate].
    destruct (inClass cl a); [ | discriminate].
    exists (S i), c. split; [exact H | split; [apply extends_refl | discriminate]].
  - destruct (String.eqb _ s); [ | discriminate].
    eexists _, c. split; [exact H | split; [apply extends_refl | discriminate]].
  - apply IH1 in H as (j & c1 & H & E1 & M1).
    apply IH2 in H as (j' & c2 & H & E2 & M2).
    exists j', c2. split; [exact H | split; [eapply extends_trans; eassumption | ]].
    intros n Hn. simpl in Hn. apply orb_true_iff in Hn as [Hn | Hn].
    + apply E2, M1, Hn.
    + apply M2, Hn.
  - destruct (rmatch r1 inp i c k) as [x | ] eqn:E.
    + inversion H; subst x. apply IH1 in E as (j & c1 & E & E1 & M1).
      exists j, c1. split; [exact E | split; [exact E1 | ]].
      intros n Hn. simpl in Hn. apply andb_true_iff in Hn as [Hn _]. apply M1, Hn.
    + apply IH2 in H as (j & c2 & H & E2 & M2).
      exists j, c2. split; [exact H | split; [exact E2 | ]].
      intros n Hn. simpl in Hn. apply andb_true_iff in Hn as [_ Hn]. apply M2, Hn.
  - eapply iterate_reaches in H as (j & c' & H & E).
    2: { intros i' c0 k' res' H'. apply IH1 in H' as (j & c' & H' & E & _).
         exists j, c'. split; assumption. }
    exists j, c'. split; [exact H | split; [exact E | discriminate]].
  - apply IH1 in H as (j & c1 & H & E1 & M1).
    eexists j, _. split; [exact H | split].
    + eapply extends_trans; [exact E1 | apply extends_cons].
    + intros n Hn. simpl in Hn. apply orb_true_iff in Hn as [Hn | Hn].
      * apply Nat.eqb_eq in Hn; subst n. apply capture_head.
      * apply extends_cons, M1, Hn.
  - destruct (i =? 0); [ | discriminate].
    exists i, c. split; [exact H | split; [apply extends_refl | discriminate]].
  - destruct (atWordBoundary inp i); [ | discriminate].
    exists i, c. split; [exact H | split; [apply extends_refl | discriminate]].
Qed.

Lemma execFrom_mandatory r inp n :
  mandatory n r = true ->
  forall fuel i m, execFrom r inp fuel i = Some m -> is_Some (group n m).
Proof.
  intros Hn. induction fuel as [ | fuel IH]; intros i m H; simpl in H.
  - destruct (rmatch r inp i [] _) as [[j c] | ] eqn:E; [ | discriminate].
    inversion H; subst m. unfold group; simpl.
    apply rmatch_reaches in E as (j' & c' & E & _ & M).
    inversion E; subst. apply M, Hn.
  - destruct (rmatch r inp i [] _) as [[j c] | ] eqn:E.
    + inversion H; subst m. unfold group; simpl.
      apply rmatch_reaches in E as (j' & c' & E & _ & M).
      inversion E; subst. apply M, Hn.
    + eapply IH, H.
Qed.

Lemma exec_mandatory r inp n m :
  mandatory n r = true -> exec r inp = Some m -> is_Some (group n m).
Proof. intros Hn H. eapply execFrom_mandatory; eassumption. Qed.

Lemma get_lt s : forall i a, String.get i s = Some a -> i < String.length s.
Proof.
  induction s as [ | b s IH]; intros [ | i] a H; simpl in *; try discriminate; try lia.
  apply IH in H. lia.
Qed.

Lemma substring_length_le s :
  forall i n, String.length (String.substring i n s) <= String.length s - i.
Proof.
  induction s as [ | a s IH]; intros [ | i] [ | n]; simpl; try lia.
  - specialize (IH 0 n). lia.
  - apply IH.
  - apply IH.
Qed.

Lemma substring_length s :
  forall i n, i + n <= String.length s -> String.length (String.substring i n s) = n.
Proof.
  induction s as [ | a s IH]; intros [ | i] [ | n] H; simpl in *; try lia.
  - rewrite IH; lia.
  - apply IH. lia.
  - apply IH. lia.
Qed.

Section Progress.
Variable inp : string.

Lemma iterate_progress body g k (keep : nat -> Prop) :
  (forall i c k' res,
     body i c k' = Some res -> i <= String.length inp ->
     exists j c', reaches inp keep k' res i c j c') ->
  forall fuel i c res,
    iterate body g k fuel i c = Some res -> i <= String.length inp ->
    exists j c', reaches inp keep k res i c j c'.
Proof.
  intros Hbody. induction fuel as [ | fuel IH]; intros i c res H Hi; simpl in H.
  - exists i, c. split; [exact H | split; [lia | reflexivity]].
  - assert (Hagain :
              body i c (fun j c' => if i <? j then iterate body g k fuel j c' else None)
              = Some res ->
              exists j c', reaches inp keep k res i c j c').
    { intros Hx. apply Hbody in Hx as (j & c1 & Hx & Hj & K1); [ | exact Hi].
      destruct (i <? j); [ | discriminate].
      apply IH in Hx as (j' & c2 & Hx & Hj' & K2); [ | lia].
      exists j', c2. split; [exact Hx | split; [lia | ]].
      intros n Hn. rewrite (K2 n Hn). apply K1, Hn. }
    destruct g.
    + destruct (body i c _) as [x | ] eqn:E.
      * inversion H; subst x. apply Hagain. reflexivity.
      * exists i, c. split; [exact H | split; [lia | reflexivity]].
    + destruct (k i c) as [x | ] eqn:E.
      * inversion H; subst x. exists i, c. split; [exact E | split; [lia | reflexivity]].
      * apply Hagain, H.
Qed.

(** A successful match ends within the input, further on when the
    pattern consumes, keeps the groups the pattern does not have, and
    defines its solid groups as non-empty strings. *)
Lemma rmatch_progress r :
  forall i c k res,
    rmatch r inp i c k = Some res -> i <= String.length inp ->
    exists j c',
      reaches inp (fun n => groupFree n r = true) k res i c j c' /\
      (consumes r = true -> i < j) /\
      forall n, solid n r = true -> nonempty (capture n c').
Proof.
  induction r as [ | cl | s | r1 IH1 r2 IH2 | r1 IH1 r2 IH2 | g r1 IH1 | m r1 IH1 | | ];
    intros i c k res H Hi; simpl in H.
  - exists i, c. repeat split; try lia; try discriminate. exact H.
  - destruct (String.get i inp) as [a | ] eqn:E; [ | discriminate].
    destruct (inClass cl a); [ | discriminate].
    apply get_lt in E.
    exists (S i), c. repeat split; try lia; try discriminate. exact H.
  - destruct (String.eqb _ s) eqn:E; [ | discriminate].
    apply String.eqb_eq in E.
    pose proof (substring_length_le inp i (String.length s)) as Hle. rewrite E in Hle.
    exists (i + String.length s), c. repeat split; try lia; try discriminate; [exact H | ].
    simpl. intros Hs. apply negb_true_iff, String.eqb_neq in Hs.
    destruct s; [contradiction | simpl; lia].
  - apply IH1 in H as (j & c1 & (H & Hj & K1) & P1 & S1); [ | exact Hi].
    apply IH2 in H as (j' & c2 & (H & Hj' & K2) & P2 & S2); [ | lia].
    exists j', c2. split; [split; [exact H | split; [lia | ]] | split].
    + intros n Hn. simpl in Hn. apply andb_true_iff in Hn as [Hn1 Hn2].
      rewrite (K2 n Hn2). apply K1, Hn1.
    + simpl. intros Hc. apply orb_true_iff in Hc as [Hc | Hc];
        [specialize (P1 Hc) | specialize (P2 Hc)]; lia.
    + intros n Hn. simpl in Hn. apply orb_true_iff in Hn as [Hn | Hn].
      * apply andb_true_iff in Hn as [Hn1 Hn2]. rewrite (K2 n Hn2). apply S1, Hn1.
      * apply S2, Hn.
  - destruct (rmatch r1 inp i c k) as [x | ] eqn:E.
    + inversion H; subst x.
      apply IH1 in E as (j & c1 & (E & Hj & K1) & P1 & S1); [ | exact Hi].
      exists j, c1. split; [split; [exact E | split; [lia | ]] | split].
      * intros n Hn. simpl in Hn. apply andb_true_iff in Hn as [Hn _]. apply K1, Hn.
      * simpl. intros Hc. apply andb_true_iff in Hc as [Hc _]. apply P1, Hc.
      * intros n Hn. simpl in Hn. apply andb_true_iff in Hn as [Hn _]. apply S1, Hn.
    + apply IH2 in H as (j & c2 & (H & Hj & K2) & P2 & S2); [ | exact Hi].
      exists j, c2. split; [split; [exact H | split; [lia | ]] | split].
      * intros n Hn. simpl in Hn. apply andb_true_iff in Hn as [_ Hn]. apply K2, Hn.
      * simpl. intros Hc. apply andb_true_iff in Hc as [_ Hc]. apply P2, Hc.
      * intros n Hn. simpl in Hn. apply andb_true_iff in Hn as [_ Hn]. apply S2, Hn.
  - eapply (iterate_progress _ _ _ (fun n => groupFree n r1 = true)) in H
      as (j & c' & H); [ | | exact Hi].
    + exists j, c'. split; [exact H | split; discriminate].
    + intros i' c0 k' res' H' Hi'.
      apply IH1 in H' as (j & c' & H' & _); [ | exact Hi'].
      exists j, c'. exact H'.
  - apply IH1 in H as (j & c1 & (H & Hj & K1) & P1 & S1); [ | exact Hi].
    eexists j, _. split; [split; [exact H | split; [lia | ]] | split].
    + intros n Hn. simpl in Hn. apply andb_true_iff in Hn as [Hne Hn].
      simpl. apply negb_true_iff in Hne. rewrite Hne. apply K1, Hn.
    + exact P1.
    + intros n Hn. simpl in Hn. simpl. destruct (n =? m).
      * eexists. split; [reflexivity | ].
        specialize (P1 Hn). intros Hw.
        pose proof (substring_length inp i (j - i)) as Hl.
        rewrite Hw in Hl. simpl in Hl. lia.
      * apply S1, Hn.
  - destruct (i =? 0); [ | discriminate].
    exists i, c. repeat split; try lia; try discriminate. exact H.
  - destruct (atWordBoundary inp i); [ | discriminate].
    exists i, c. repeat split; try lia; try discriminate. exact H.
Qed.

Lemma execFrom_solid r n :
  solid n r = true ->
  forall fuel i m,
    i + fuel = String.length inp ->
    execFrom r inp fuel i = Some m -> nonempty (group n m).
Proof.
  intros Hn. induction fuel as [ | fuel IH]; intros i m Hi H; simpl in H.
  - destruct (rmatch r inp i [] _) as [[j c] | ] eqn:E; [ | discriminate].
    inversion H; subst m. unfold group; simpl.
    apply rmatch_progress in E as (j' & c' & (E & _) & _ & S); [ | lia].
    inversion E; subst. apply S, Hn.
  - destruct (rmatch r inp i [] _) as [[j c] | ] eqn:E.
    + inversion H; subst m. unfold group; simpl.
      apply rmatch_progress in E as (j' & c' & (E & _) & _ & S); [ | lia].
      inversion E; subst. apply S, Hn.
    + eapply (IH (S i)); [lia | exact H].
Qed.

End Progress.

Lemma exec_solid r inp n m :
  solid n r = true -> exec r inp = Some m -> nonempty (group n m).
Proof. intros Hn H. eapply execFrom_solid; [exact Hn | | exact H]. reflexivity. Qed.

End RegexFacts.

(** ** The classifier never throws *)

Module ParserFacts.
Import Regex CodeParser Vocabulary RegexFacts.

Lemma guarded_match rule text :
  guardedTest rule text = true -> exists m, matchRule rule text = Some m.
Proof.
  destruct rule as [r | ]; simpl; [ | discriminate].
  unfold test. destruct (exec r text) as [m | ]; [eauto | discriminate].
Qed.

Lemma guarded_rule rule text :
  guardedTest rule text = true -> is_Some rule.
Proof. destruct rule; simpl; [eauto | discriminate]. Qed.

Lemma plainTest_some rule text :
  is_Some rule -> exists b, plainTest rule text = Normal b.
Proof. intros [r ->]. simpl. eauto. Qed.

Lemma extractLoopInfo_total this text loopType :
  exists info, extractLoopInfo this text loopType = Normal info.
Proof.
  unfold extractLoopInfo. destruct (String.eqb _ _).
  - destruct (exec rePythonFor text); eauto.
  - destruct (exec reCFor text) as [m | ] eqn:E; [ | eauto].
    destruct (exec_mandatory reCFor text 1 m eq_refl E) as [init ->].
    simpl. eauto.
Qed.

Lemma getIndentation_total text : exists n, getIndentation text = Normal n.
Proof.
  unfold getIndentation. destruct (exec reIndentation text) as [m | ] eqn:E; [ | eauto].
  destruct (exec_mandatory reIndentation text 1 m eq_refl E) as [w ->].
  simpl. eauto.
Qed.

Lemma extractFunctionCall_total this text :
  usable (patterns this) -> exists fc, extractFunctionCall this text = Normal fc.
Proof.
  intros (_ & Hi & r & Hr & _). unfold extractFunctionCall.
  destruct (exec reCall text); [ | eauto].
  assert (Hf : is_Some (pat_function (patterns this))) by (rewrite Hr; eauto).
  destruct (plainTest_some _ text Hf) as [b ->]. simpl.
  destruct b; [eauto | ].
  destruct (plainTest_some _ text Hi) as [b ->]. simpl.
  destruct b; eauto.
Qed.

Lemma function_name_defined r text m :
  solid 1 r = true \/ mandatory 3 r = true ->
  exec r text = Some m ->
  is_Some (JS.orElse (group 1 m) (group 3 m)).
Proof.
  intros [H1 | H3] Hm; unfold JS.orElse.
  - destruct (exec_solid r text 1 m H1 Hm) as (w & -> & Hw).
    destruct w; [contradiction | simpl; eauto].
  - destruct (exec_mandatory r text 3 m H3 Hm) as [w ->].
    destruct (JS.truthyOpt (group 1 m)) eqn:E; [ | eauto].
    destruct (group 1 m); [eauto | discriminate E].
Qed.

Ltac in_kinds :=
  apply list_elem_of_In; simpl; repeat (first [left; reflexivity | right]).

Ltac kind_fact :=
  first
    [ reflexivity
    | in_kinds
    | discriminate
    | intros [? ?]; discriminate
    | intros _; first [left; reflexivity | right; reflexivity]
    | intros H; decompose [and] H; discriminate ].

Ltac kind_facts :=
  eexists; split; [reflexivity | ]; simpl; repeat split; try kind_fact.

(** What [analyzeLine] returns: always a statement, of a kind of the data
    model, that records the line as given. *)
Lemma analyzeLine_total this text ln ind :
  usable (patterns this) ->
  exists s, analyzeLine this text ln ind = Normal s /\
            type s ∈ statementKinds /\ line s = ln /\ indent s = ind /\
            code s = text /\ previousIndent s = None /\
            (is_Some (condition s) -> type s = "if" \/ type s = "while") /\
            (type s = "assignment" -> is_Some (pat_assignment (patterns this))) /\
            (guardedTest (pat_variable (patterns this)) text = true ->
             type s = "variable") /\
            (unmatched this text -> type s = "statement") /\
            (type s = "function" -> is_Some (name s)).
Proof.
  intros Hu. unfold analyzeLine, statementKinds, unmatched.
  destruct (guardedTest (pat_variable _) text) eqn:Ev.
  { destruct (guarded_match _ _ Ev) as [m ->]. simpl. kind_facts. }
  destruct (guardedTest (pat_function _) text) eqn:Ef.
  { destruct (guarded_match _ _ Ef) as [m Hm]. rewrite Hm. simpl. kind_facts.
    intros _. destruct Hu as (_ & _ & r & Hr & Hg). rewrite Hr in Hm.
    apply (function_name_defined r text m Hg Hm). }
  destruct (guardedTest (pat_if _) text) eqn:Ei.
  { kind_facts. }
  destruct (guardedTest (pat_for _) text) eqn:Eo.
  { destruct (extractLoopInfo_total this text "for") as [info ->]. simpl. kind_facts. }
  destruct (guardedTest (pat_while _) text) eqn:Ew.
  { kind_facts. }
  destruct (guardedTest (pat_return _) text) eqn:Er.
  { kind_facts. }
  destruct (extractFunctionCall_total this text Hu) as [fc Efc].
  rewrite Efc. simpl. destruct fc as [fc | ].
  { kind_facts.
    intros (_ & _ & _ & _ & _ & _ & Hc & _). unfold extractFunctionCall in Efc.
    rewrite Hc in Efc. discriminate. }
  destruct (guardedTest (pat_assignment _) text) eqn:Ea.
  { destruct Hu as (Hv & _). destruct (plainTest_some _ text Hv) as [b Eb].
    rewrite Eb. simpl.
    assert (b = false) as ->.
    { destruct Hv as [r Hr]. rewrite Hr in Eb, Ev. simpl in Eb, Ev. congruence. }
    simpl. destruct (guarded_match _ _ Ea) as [m ->]. simpl.
    kind_facts. intros _. eapply guarded_rule, Ea. }
  simpl. kind_facts.
Qed.

Lemma classified_facts this s :
  usable (patterns this) -> classified this s ->
  type s ∈ statementKinds /\ previousIndent s = None /\
  (is_Some (condition s) -> type s = "if" \/ type s = "while") /\
  (type s = "assignment" -> is_Some (pat_assignment (patterns this))) /\
  (type s = "function" -> is_Some (name s)).
Proof.
  intros Hu (text & ln & ind & H).
  destruct (analyzeLine_total this text ln ind Hu) as (s' & H' & F).
  rewrite H in H'. inversion H'; subst s'. tauto.
Qed.

Lemma parseLine_skip this st text :
  isStatementLine this text = false ->
  parseLine this st text = Normal (S (fst st), snd st).
Proof.
  unfold isStatementLine, parseLine. intros H.
  destruct (JS.truthy (JS.trim text)); simpl in *.
  - apply negb_false_iff in H. rewrite H. reflexivity.
  - reflexivity.
Qed.

Lemma parseLine_keep this st text :
  usable (patterns this) ->
  isStatementLine this text = true ->
  exists s a,
    parseLine this st text = Normal (S (fst st), a) /\
    statements a = statements (snd st) ++ [s] /\
    totalLines a = totalLines (snd st) /\
    classified this s /\ origin s = (S (fst st), JS.trim text) /\
    functions a = (if String.eqb (type s) "function"
                   then setAdd (name s) (functions (snd st))
                   else functions (snd st)).
Proof.
  unfold isStatementLine, parseLine. intros Hu H.
  apply andb_true_iff in H as [Ht Hc]. apply negb_true_iff in Hc.
  rewrite Ht, Hc. cbn [negb orb].
  destruct (getIndentation_total text) as [n ->]. cbn [bind].
  destruct (analyzeLine_total this (JS.trim text) (S (fst st)) (n / 2) Hu)
    as (s & Hs & _ & Hl & _ & Hcode & _).
  rewrite Hs. cbn [bind]. eexists s, _. split; [reflexivity | ]. simpl.
  repeat split.
  - eexists _, _, _. exact Hs.
  - unfold origin. congruence.
Qed.

Lemma setAdd_defined v names :
  is_Some v -> Forall is_Some names -> Forall is_Some (setAdd v names).
Proof.
  intros Hv Hn. unfold setAdd. destruct (bool_decide _); [exact Hn | ].
  apply Forall_app. split; [exact Hn | constructor; [exact Hv | constructor]].
Qed.

(** The loop over the lines: one statement for every statement line, in
    order, with its line number. *)
Lemma parseLines_spec this lines :
  usable (patterns this) ->
  forall n a,
  exists a',
    parseLines this (n, a) lines = Normal (n + length lines, a') /\
    origin <$> statements a' = (origin <$> statements a) ++ statementLines this (S n) lines /\
    totalLines a' = totalLines a /\
    (Forall (classified this) (statements a) ->
     Forall (classified this) (statements a')) /\
    (Forall is_Some (functions a) -> Forall is_Some (functions a')).
Proof.
  intros Hu. induction lines as [ | text rest IH]; intros n a.
  - exists a. simpl. rewrite Nat.add_0_r, app_nil_r. auto.
  - simpl. destruct (isStatementLine this text) eqn:E.
    + destruct (parseLine_keep this (n, a) text Hu E)
        as (s & a1 & -> & Hs & Ht & Hc & Ho & Hfun).
      simpl in *. destruct (IH (S n) a1) as (a' & -> & Hm & Ht' & Hf & Hn).
      exists a'. split; [f_equal; f_equal; lia | ].
      split; [ | split; [congruence | split]].
      3: { intros Ha. apply Hn. rewrite Hfun.
           destruct (String.eqb (type s) "function") eqn:Ety; [ | exact Ha].
           apply setAdd_defined; [ | exact Ha].
           apply String.eqb_eq in Ety.
           apply (classified_facts this s Hu Hc), Ety. }
      * rewrite Hm, Hs, fmap_app. simpl. rewrite <- app_assoc. simpl.
        unfold statementLines. simpl. rewrite filter_cons_True by (simpl; rewrite E; exact I).
        simpl. rewrite Ho. reflexivity.
      * intros Ha. apply Hf. rewrite Hs. apply Forall_app. split; [exact Ha | ].
        constructor; [exact Hc | constructor].
    + rewrite (parseLine_skip this (n, a) text E). simpl.
      destruct (IH (S n) a) as (a' & -> & Hm & Ht' & Hf & Hn).
      exists a'. split; [f_equal; f_equal; lia | ].
      split; [ | repeat split; assumption].
      rewrite Hm. unfold statementLines. simpl.
      rewrite filter_cons_False by (simpl; rewrite E; exact id). reflexivity.
Qed.

Lemma parseCode_spec this source :
  usable (patterns this) ->
  exists a,
    parseCode this source = Normal a /\
    origin <$> statements a = statementLines this 1 (JS.split "010" source) /\
    totalLines a = length (JS.split "010" source) /\
    Forall (classified this) (statements a) /\
    Forall is_Some (functions a).
Proof.
  intros Hu. unfold parseCode.
  edestruct (parseLines_spec this (JS.split "010" source) Hu 0)
    as (a & -> & Hm & Ht & Hf & Hn).
  exists a. simpl in *. repeat split; try assumption.
  - apply Hf. constructor.
  - apply Hn. constructor.
Qed.

(** Every name but an inherited property name selects a usable table. *)
Lemma usable_profile language :
  existsb (String.eqb language) inheritedKeys = false ->
  usable (patterns (CodeParser.new language)).
Proof.
  intros H. unfold CodeParser.new, getLanguagePatterns. cbn [patterns]. rewrite H.
  repeat destruct (String.eqb language _);
    (split; [eexists; reflexivity | split; [eexists; reflexivity | ]];
     eexists; split; [reflexivity | ]; first [left; reflexivity | right; reflexivity]).
Qed.

End ParserFacts.

(** ** Execution steps *)

Module StepFacts.
Import CodeParser CodeAnalyzer Vocabulary.

Lemma step_of_variable s k :
  type s = "variable" -> memoryChanges (createExecutionStep s k) = [createEvent s].
Proof. intros H. unfold createExecutionStep. rewrite H. reflexivity. Qed.

Lemma step_no_update s k :
  type s <> "assignment" ->
  Forall (fun m => action m <> "update") (memoryChanges (createExecutionStep s k)).
Proof.
  intros H. unfold createExecutionStep.
  destruct (type s == "variable"); [repeat constructor; discriminate | ].
  destruct (type s == "assignment") eqn:E; [apply String.eqb_eq in E; contradiction | ].
  destruct (type s == "function"); [repeat constructor; discriminate | ].
  destruct (type s == "if"); [constructor | ].
  destruct (type s == "for").
  { simpl. destruct (JS.truthyOpt _); repeat constructor; discriminate. }
  repeat (match goal with |- context [if ?b then _ else _] => destruct b end;
          try constructor).
Qed.

Lemma steps_no_update stmts :
  Forall (fun s => type s <> "assignment") stmts ->
  forall k,
    Forall (fun step => Forall (fun m => action m <> "update") (memoryChanges step))
           (stepsFrom k stmts).
Proof.
  induction 1 as [ | s rest Hs _ IH]; intros k; simpl; constructor.
  - apply step_no_update, Hs.
  - apply IH.
Qed.

End StepFacts.

(** ** The graph *)

Module FlowFacts.
Import CodeParser FlowchartGenerator Vocabulary.

Lemma statementNodes_lookup stmts :
  forall c idx j,
    statementNodes c idx stmts !! j
    = (fun s => createNodeFromStatement (c + j) s (idx + j)) <$> stmts !! j.
Proof.
  induction stmts as [ | s rest IH]; intros c idx j; [reflexivity | ].
  destruct j as [ | j]; simpl.
  - rewrite !Nat.add_0_r. reflexivity.
  - rewrite IH. replace (S c + j) with (c + S j) by lia.
    replace (S idx + j) with (idx + S j) by lia. reflexivity.
Qed.

Lemma statementNodes_length stmts :
  forall c idx, length (statementNodes c idx stmts) = length stmts.
Proof.
  induction stmts as [ | s rest IH]; intros c idx; simpl; [reflexivity | ].
  rewrite IH. reflexivity.
Qed.

Lemma createNodes_length c stmts : length (createNodes c stmts) = length stmts + 2.
Proof.
  unfold createNodes. simpl. rewrite length_app, statementNodes_length. simpl. lia.
Qed.

Lemma createNodes_start c stmts :
  createNodes c stmts !! 0 = Some (terminalNode c "start").
Proof. reflexivity. Qed.

Lemma createNodes_statement c stmts i s :
  stmts !! i = Some s ->
  createNodes c stmts !! S i = Some (createNodeFromStatement (c + S i) s i).
Proof.
  intros H. unfold createNodes. simpl.
  rewrite lookup_app_l by (rewrite statementNodes_length; eapply lookup_lt_Some, H).
  rewrite statementNodes_lookup, H. simpl. do 2 f_equal. lia.
Qed.

Lemma createNodes_end c stmts :
  createNodes c stmts !! S (length stmts)
  = Some (terminalNode (c + S (length stmts)) "end").
Proof.
  unfold createNodes. simpl.
  rewrite lookup_app_r by (rewrite statementNodes_length; lia).
  rewrite statementNodes_length, Nat.sub_diag. simpl. do 2 f_equal. lia.
Qed.

(** The three kinds of position in the node list. *)
Lemma createNodes_cases c stmts j nd :
  createNodes c stmts !! j = Some nd ->
  (j = 0 /\ nd = terminalNode c "start") \/
  (exists i s, j = S i /\ stmts !! i = Some s /\
               nd = createNodeFromStatement (c + j) s i) \/
  (j = S (length stmts) /\ nd = terminalNode (c + j) "end").
Proof.
  intros H. destruct j as [ | i].
  - left. rewrite createNodes_start in H. inversion H. auto.
  - right. destruct (stmts !! i) as [s | ] eqn:E.
    + left. rewrite (createNodes_statement c stmts i s E) in H. inversion H. eauto.
    + right. apply lookup_ge_None in E.
      assert (Hlt : S i < length (createNodes c stmts)) by (eapply lookup_lt_Some, H).
      rewrite createNodes_length in Hlt.
      assert (i = length stmts) as -> by lia.
      rewrite createNodes_end in H. inversion H. auto.
Qed.

Lemma createNodes_id c stmts j nd :
  createNodes c stmts !! j = Some nd -> id nd = A (c + j).
Proof.
  intros H. apply createNodes_cases in H as [[-> ->] | [(i & s & -> & _ & ->) | [-> ->]]];
    simpl; f_equal; lia.
Qed.

Lemma createNodes_has_statement c stmts j nd :
  createNodes c stmts !! j = Some nd -> is_Some (statement nd) ->
  1 <= j <= length stmts.
Proof.
  intros H Hs.
  apply createNodes_cases in H as [[-> ->] | [(i & s & -> & Hi & ->) | [-> ->]]].
  - destruct Hs as [? Hs]. discriminate Hs.
  - apply lookup_lt_Some in Hi. lia.
  - destruct Hs as [? Hs]. discriminate Hs.
Qed.

Lemma createNodes_last c stmts :
  lastId (createNodes c stmts) = Normal (A (c + S (length stmts))).
Proof.
  unfold lastId, createNodes.
  change (terminalNode c "start" :: statementNodes (S c) 0 stmts
          ++ [terminalNode (S c + length stmts) "end"])
    with ((terminalNode c "start" :: statementNodes (S c) 0 stmts)
          ++ [terminalNode (S c + length stmts) "end"]).
  rewrite last_snoc. simpl. do 2 f_equal. lia.
Qed.

Lemma find_drop {X} (P : X -> bool) (l : list X) k x :
  find P (drop k l) = Some x -> exists j, k <= j /\ l !! j = Some x.
Proof.
  revert k. induction l as [ | y l IH]; intros k H.
  - rewrite drop_nil in H. discriminate.
  - destruct k as [ | k]; simpl in H.
    + destruct (P y).
      * inversion H; subst. exists 0. split; [lia | reflexivity].
      * destruct (IH 0 H) as (j & _ & Hj). exists (S j). split; [lia | exact Hj].
    + destruct (IH k H) as (j & Hk & Hj). exists (S j). split; [lia | exact Hj].
Qed.

Lemma scanLoopBody_from ind (l : list Node) :
  forall acc t,
    scanLoopBody ind l acc = Some t ->
    acc = Some t \/
    exists j nd, l !! j = Some nd /\ id nd = t /\ is_Some (statement nd).
Proof.
  induction l as [ | nd l IH]; intros acc t H; simpl in H; [auto | ].
  destruct (statement nd) as [s | ] eqn:Es; [ | auto].
  destruct (ind <? indent s); [ | auto].
  apply IH in H as [H | (j & nd' & Hj & Hid & Hs)].
  - inversion H; subst. right. exists 0, nd. rewrite Es. eauto.
  - right. exists (S j), nd'. auto.
Qed.

Lemma scanLoopBody_drop ind (l : list Node) k t :
  scanLoopBody ind (drop k l) None = Some t ->
  exists j nd, k <= j /\ l !! j = Some nd /\ id nd = t /\ is_Some (statement nd).
Proof.
  intros H. apply scanLoopBody_from in H as [H | (j & nd & Hj & Hid & Hs)];
    [discriminate | ].
  rewrite lookup_drop in Hj. exists (k + j), nd. split; [lia | auto].
Qed.

(** The target of the No edge of a condition and of the Exit edge of a
    loop, at the turn [i]: a later node. *)
Lemma findElseTarget_spec c stmts i nd s :
  statement nd = Some s ->
  i <= length stmts ->
  exists j, findElseTarget nd (createNodes c stmts) i = Normal (A (c + j)) /\
            i < j <= S (length stmts).
Proof.
  intros Hs Hi. unfold findElseTarget. rewrite Hs. cbn [deref bind].
  destruct (find _ _) as [x | ] eqn:E.
  - apply find_drop in E as (j & Hj & Hx).
    exists j. rewrite (createNodes_id _ _ _ _ Hx). split; [reflexivity | ].
    apply lookup_lt_Some in Hx. rewrite createNodes_length in Hx. lia.
  - exists (S (length stmts)). rewrite createNodes_last. split; [reflexivity | lia].
Qed.

Lemma findLoopExit_spec c stmts i nd s :
  statement nd = Some s ->
  i <= length stmts ->
  exists j, findLoopExit nd (createNodes c stmts) i = Normal (A (c + j)) /\
            i < j <= S (length stmts).
Proof. apply findElseTarget_spec. Qed.

Lemma findLoopBack_spec c stmts i nd s :
  statement nd = Some s ->
  exists back, findLoopBack nd (createNodes c stmts) i = Normal back /\
               forall t, back = Some t ->
                         exists j, t = A (c + j) /\ i < j <= length stmts.
Proof.
  intros Hs. unfold findLoopBack. rewrite Hs. cbn [deref bind].
  eexists. split; [reflexivity | ].
  intros t Ht. apply scanLoopBody_drop in Ht as (j & nd' & Hj & Hnd & Hid & Hst).
  exists j. rewrite <- Hid, (createNodes_id _ _ _ _ Hnd). split; [reflexivity | ].
  apply (createNodes_has_statement _ _ _ _ Hnd) in Hst. lia.
Qed.

Lemma forward_plain c n i j :
  i < j <= S n -> forward c n i (plainEdge (A (c + i)) (A (c + j))).
Proof. intros H. split; [reflexivity | split; [discriminate | eauto]]. Qed.

Lemma forward_styled c n i j l st :
  l <> "Loop" -> i < j <= S n -> forward c n i (styledEdge (A (c + i)) (A (c + j)) l st).
Proof. intros Hl H. split; [reflexivity | split; [exact Hl | eauto]]. Qed.

(** One turn of the loop of [createConnections]: it never throws; its
    edges leave the node of the turn forwards, but for a loop edge that
    comes back to it; a node whose type is not the end type gets a forward
    edge; the node of a return statement gets the edge to the end node and
    nothing else. *)
Lemma turn_spec c stmts i :
  i <= length stmts ->
  exists l,
    connectionsAt (createNodes c stmts) i = Normal l /\
    Forall (fun e => forward c (length stmts) i e \/ backward c (length stmts) i e) l /\
    (forall nd, createNodes c stmts !! i = Some nd -> n_type nd <> "end" ->
                exists e, e ∈ l /\ forward c (length stmts) i e) /\
    (forall k s, i = S k -> stmts !! k = Some s -> type s = "return" ->
                 l = [plainEdge (A (c + i)) (A (c + S (length stmts)))]).
Proof.
  intros Hi. set (n := length stmts) in *.
  assert (Hnext : exists nx, createNodes c stmts !! S i = Some nx /\ id nx = A (c + S i)).
  { destruct (lookup_lt_is_Some_2 (createNodes c stmts) (S i)) as [nx Hnx].
    - rewrite createNodes_length. lia.
    - exists nx. split; [exact Hnx | eapply createNodes_id, Hnx]. }
  destruct Hnext as (nx & Hnx & Hidx).
  unfold connectionsAt. rewrite Hnx.
  destruct i as [ | k].
  - rewrite createNodes_start. cbn [deref bind]. simpl String.eqb. cbv iota.
    rewrite Hidx. replace (id (terminalNode c "start")) with (A (c + 0)) by (simpl; f_equal; lia).
    eexists. split; [reflexivity | ].
    assert (F : forward c n 0 (plainEdge (A (c + 0)) (A (c + 1)))) by (apply forward_plain; lia).
    split; [constructor; [left; exact F | constructor] | split].
    + intros nd _ _. eexists. split; [apply list_elem_of_here | exact F].
    + intros k s Hk. discriminate Hk.
  - destruct (lookup_lt_is_Some_2 stmts k) as [s Hs]; [lia | ].
    rewrite (createNodes_statement c stmts k s Hs).
    cbn [deref bind n_type id connectsToEnd createNodeFromStatement]. rewrite Hidx.
    set (here := A (c + S k)).
    assert (Fnext : forall l st, l <> "Loop" ->
                      forward c n (S k) (styledEdge here (A (c + S (S k))) l st)).
    { intros l st Hl. apply forward_styled; [exact Hl | lia]. }
    assert (Fplain : forward c n (S k) (plainEdge here (A (c + S (S k))))).
    { apply forward_plain. lia. }
    destruct (String.eqb (type s) "start") eqn:E1.
    { eexists. split; [reflexivity | ].
      split; [constructor; [left; exact Fplain | constructor] | split].
      - intros nd _ _. eexists. split; [apply list_elem_of_here | exact Fplain].
      - intros k' s' Hk Hs' Hty. inversion Hk; subst k'. rewrite Hs in Hs'.
        inversion Hs'; subst s'. apply String.eqb_eq in E1. congruence. }
    destruct (String.eqb (type s) "if") eqn:E2.
    { edestruct (findElseTarget_spec c stmts (S k)) as (j & -> & Hj);
        [reflexivity | exact Hi | ].
      cbn [bind]. eexists. split; [reflexivity | ].
      split; [ | split].
      - constructor; [left; apply Fnext; discriminate | ].
        constructor; [ | constructor].
        left. apply forward_styled; [discriminate | exact Hj].
      - intros nd _ _. eexists. split; [apply list_elem_of_here | apply Fnext; discriminate].
      - intros k' s' Hk Hs' Hty. inversion Hk; subst k'. rewrite Hs in Hs'.
        inversion Hs'; subst s'. apply String.eqb_eq in E2. congruence. }
    destruct (isLoop (type s)) eqn:E3.
    { edestruct (findLoopExit_spec c stmts (S k)) as (j & -> & Hj);
        [reflexivity | exact Hi | ].
      edestruct (findLoopBack_spec c stmts (S k)) as (back & -> & Hback);
        [reflexivity | ].
      cbn [bind]. eexists. split; [reflexivity | ].
      split; [ | split].
      - constructor; [left; apply Fnext; discriminate | ].
        constructor; [left; apply forward_styled; [discriminate | exact Hj] | ].
        destruct back as [t | ]; [ | constructor].
        constructor; [ | constructor]. right.
        destruct (Hback t eq_refl) as (j' & -> & Hj').
        split; [reflexivity | split; [reflexivity | split; [lia | ]]].
        exists j'. split; [exact Hj' | reflexivity].
      - intros nd _ _. eexists. split; [apply list_elem_of_here | apply Fnext; discriminate].
      - intros k' s' Hk Hs' Hty. inversion Hk; subst k'. rewrite Hs in Hs'.
        inversion Hs'; subst s'. rewrite Hty in E3. discriminate E3. }
    destruct (String.eqb (type s) "return") eqn:E4.
    { rewrite createNodes_last. cbn [bind]. eexists. split; [reflexivity | ].
      assert (F : forward c n (S k) (plainEdge here (A (c + S n)))).
      { apply forward_plain. lia. }
      split; [constructor; [left; exact F | constructor] | split].
      - intros nd _ _. eexists. split; [apply list_elem_of_here | exact F].
      - intros k' s' Hk _ _. inversion Hk; subst k'. reflexivity. }
    destruct (String.eqb (type s) "end") eqn:E5; cbn [negb].
    { eexists. split; [reflexivity | ].
      split; [constructor | split].
      - intros nd Hnd Hty. inversion Hnd; subst nd. simpl in Hty.
        apply String.eqb_eq in E5. contradiction.
      - intros k' s' Hk Hs' Hty. inversion Hk; subst k'. rewrite Hs in Hs'.
        inversion Hs'; subst s'. rewrite Hty in E4. discriminate E4. }
    eexists. split; [reflexivity | ].
    split; [constructor; [left; exact Fplain | constructor] | split].
    + intros nd _ _. eexists. split; [apply list_elem_of_here | exact Fplain].
    + intros k' s' Hk Hs' Hty. inversion Hk; subst k'. rewrite Hs in Hs'.
      inversion Hs'; subst s'. rewrite Hty in E4. discriminate E4.
Qed.

(** The turns [i], ..., [i + k - 1] together. *)
Lemma connectionsFrom_spec c stmts k :
  forall i,
    i + k <= S (length stmts) ->
    exists ls,
      connectionsFrom (createNodes c stmts) i k = Normal ls /\
      (forall e, e ∈ ls <->
                 exists j l, i <= j < i + k /\
                             connectionsAt (createNodes c stmts) j = Normal l /\ e ∈ l) /\
      (Forall (fun s => type s <> "end") stmts -> k <= length ls).
Proof.
  induction k as [ | k IH]; intros i Hi.
  - exists []. split; [reflexivity | split].
    + intros e. split; [intros H; inversion H | intros (j & _ & Hj & _); lia].
    + intros _. simpl. lia.
  - simpl. destruct (turn_spec c stmts i) as (l & Hl & _ & Hne & _); [lia | ].
    rewrite Hl. cbn [bind].
    destruct (IH (S i)) as (ls & -> & Hls & Hlen); [lia | ]. cbn [bind].
    exists (l ++ ls). split; [reflexivity | split].
    + intros e. rewrite elem_of_app. split.
      * intros [He | He].
        -- exists i, l. split; [lia | auto].
        -- apply Hls in He as (j & l' & Hj & Hl' & He). exists j, l'. split; [lia | auto].
      * intros (j & l' & Hj & Hl' & He).
        destruct (decide (j = i)) as [-> | Hne'].
        -- rewrite Hl in Hl'. inversion Hl'; subst l'. auto.
        -- right. apply Hls. exists j, l'. split; [lia | auto].
    + intros Hend. rewrite length_app. specialize (Hlen Hend).
      enough (1 <= length l) by lia.
      destruct (lookup_lt_is_Some_2 (createNodes c stmts) i) as [nd Hnd].
      { rewrite createNodes_length. lia. }
      destruct (Hne nd Hnd) as (e & He & _).
      * apply createNodes_cases in Hnd
          as [[-> ->] | [(k' & s & -> & Hs & ->) | [-> ->]]].
        -- discriminate.
        -- simpl. rewrite Forall_forall in Hend. apply Hend.
           eapply list_elem_of_lookup_2, Hs.
        -- lia.
      * destruct l; [inversion He | simpl; lia].
Qed.

Lemma createNodes_ids c stmts :
  id <$> createNodes c stmts = A <$> seq c (length stmts + 2).
Proof.
  apply list_eq. intros j. rewrite !list_lookup_fmap.
  destruct (createNodes c stmts !! j) as [nd | ] eqn:E.
  - rewrite lookup_seq_lt.
    + simpl. f_equal. eapply createNodes_id, E.
    + apply lookup_lt_Some in E. rewrite createNodes_length in E. exact E.
  - apply lookup_ge_None in E. rewrite createNodes_length in E.
    rewrite lookup_seq_ge by lia. reflexivity.
Qed.

Lemma statementNodes_filter (P : Node -> Prop) `{forall nd, Decision (P nd)} stmts :
  (forall c s i, s ∈ stmts -> ~ P (createNodeFromStatement c s i)) ->
  forall c idx, filter P (statementNodes c idx stmts) = [].
Proof.
  induction stmts as [ | s rest IH]; intros HP c idx; [reflexivity | ]. simpl.
  rewrite filter_cons_False by (apply HP, list_elem_of_here).
  apply IH. intros c' s' i' Hs'. apply HP. apply list_elem_of_further, Hs'.
Qed.

Lemma kind_not_terminal ty :
  ty ∈ statementKinds -> ty <> "start" /\ ty <> "end" /\ nodeShape ty <> "ellipse".
Proof.
  unfold statementKinds. rewrite !elem_of_cons.
  intros [-> | [-> | [-> | [-> | [-> | [-> | [-> | [-> | [-> | H]]]]]]]]];
    [repeat split; discriminate .. | inversion H].
Qed.

Lemma createNodes_filter (P : Node -> Prop) `{forall nd, Decision (P nd)} c stmts :
  (forall c s i, s ∈ stmts -> ~ P (createNodeFromStatement c s i)) ->
  filter P (createNodes c stmts)
  = filter P [terminalNode c "start"] ++ filter P [terminalNode (S c + length stmts) "end"].
Proof.
  intros HP. unfold createNodes.
  change (terminalNode c "start" :: statementNodes (S c) 0 stmts
          ++ [terminalNode (S c + length stmts) "end"])
    with ([terminalNode c "start"] ++ statementNodes (S c) 0 stmts
          ++ [terminalNode (S c + length stmts) "end"]).
  rewrite !filter_app, (statementNodes_filter P stmts HP). reflexivity.
Qed.

End FlowFacts.

(** ** The tokens of a condition *)

Module TokenFacts.
Import Regex CodeParser CodeAnalyzer Vocabulary.

Lemma strDrop_length s : forall n, String.length (strDrop n s) = String.length s - n.
Proof.
  induction s as [ | a s IH]; intros [ | n]; simpl; try reflexivity. apply IH.
Qed.

Lemma strDrop_step s : forall n a t, strDrop n s = String a t -> strDrop (S n) s = t.
Proof.
  induction s as [ | b s IH]; intros [ | n] a t H; simpl in *; try discriminate.
  - inversion H. reflexivity.
  - apply (IH n a t H).
Qed.

Lemma strDrop_add s : forall n m, strDrop (n + m) s = strDrop m (strDrop n s).
Proof.
  induction s as [ | a s IH]; intros [ | n] m; simpl; try reflexivity.
  - destruct m; reflexivity.
  - apply IH.
Qed.

Lemma substring_strDrop s : forall i n, String.substring i n s = String.substring 0 n (strDrop i s).
Proof.
  induction s as [ | a s IH]; intros [ | i] n; simpl; try reflexivity.
  - destruct n; reflexivity.
  - apply IH.
Qed.

Lemma firstToken_two a b t i :
  firstToken (String a (String b t)) i
  = if isBoolToken a b
    then Some {| index := i; lastIndex := i + 2; groups := [] |}
    else firstToken (String b t) (S i).
Proof. reflexivity. Qed.

Lemma countBoolTokens_two a b t :
  countBoolTokens (String a (String b t))
  = if isBoolToken a b then S (countBoolTokens t) else countBoolTokens (String b t).
Proof. reflexivity. Qed.

(** The pattern at the index [i] looks at the two characters there. *)
Lemma rmatch_boolOps inp i k :
  rmatch reBoolOps inp i [] k
  = match strDrop i inp with
    | String a (String b _) => if isBoolToken a b then k (i + 2) [] else None
    | _ => None
    end.
Proof.
  change reBoolOps with (Alt (Lit "&&") (Lit "||")). cbn [rmatch String.length].
  rewrite (substring_strDrop inp i 2).
  destruct (strDrop i inp) as [ | a [ | b t]]; try reflexivity.
  - simpl. destruct (Ascii.eqb a "&"), (Ascii.eqb a "|"); reflexivity.
  - unfold isBoolToken. cbn [String.substring].
    replace (String.substring 0 0 t) with EmptyString by (destruct t; reflexivity).
    cbn [String.eqb].
    destruct (Ascii.eqb a "&") eqn:Ea, (Ascii.eqb a "|") eqn:Eo;
      destruct (Ascii.eqb b "&") eqn:Eb, (Ascii.eqb b "|") eqn:Ec; cbn;
      try reflexivity; destruct (k (i + 2) []); reflexivity.
Qed.

(** The leftmost match from [i] on is the first token of the rest. *)
Lemma execFrom_boolOps inp :
  forall fuel i,
    fuel = String.length inp - i ->
    execFrom reBoolOps inp fuel i = firstToken (strDrop i inp) i.
Proof.
  induction fuel as [ | fuel IH]; intros i Hf; cbn [execFrom]; rewrite rmatch_boolOps.
  - pose proof (strDrop_length inp i) as Hl. rewrite <- Hf in Hl.
    destruct (strDrop i inp) as [ | a t]; [reflexivity | discriminate Hl].
  - destruct (strDrop i inp) as [ | a t] eqn:E.
    + pose proof (strDrop_length inp i) as Hl. rewrite E, <- Hf in Hl. discriminate Hl.
    + apply strDrop_step in E as E'.
      assert (Hrest : execFrom reBoolOps inp fuel (S i) = firstToken t (S i)).
      { rewrite <- E'. apply IH. lia. }
      destruct t as [ | b t'].
      * rewrite Hrest. reflexivity.
      * rewrite firstToken_two. destruct (isBoolToken a b); [reflexivity | exact Hrest].
Qed.

(** The first token splits the count. *)
Lemma firstToken_count t :
  forall i,
    match firstToken t i with
    | None => countBoolTokens t = 0
    | Some m =>
        exists p, index m = i + p /\ lastIndex m = i + p + 2 /\
                  p + 2 <= String.length t /\
                  countBoolTokens t = S (countBoolTokens (strDrop (p + 2) t))
    end.
Proof.
  induction t as [ | a t IH]; intros i; [reflexivity | ].
  destruct t as [ | b t']; [reflexivity | ].
  rewrite firstToken_two, countBoolTokens_two. destruct (isBoolToken a b).
  - exists 0. cbn [Regex.index lastIndex].
    split; [lia | split; [lia | split; [simpl; lia | reflexivity]]].
  - specialize (IH (S i)). destruct (firstToken (String b t') (S i)) as [m | ].
    + destruct IH as (p & Hi & Hl & Hp & Hc).
      exists (S p). split; [lia | split; [lia | split; [simpl in *; lia | ]]].
      rewrite Hc. reflexivity.
    + exact IH.
Qed.

Lemma matchAllFrom_boolOps inp :
  forall fuel i,
    String.length inp - i < fuel ->
    length (matchAllFrom reBoolOps inp fuel i) = countBoolTokens (strDrop i inp).
Proof.
  induction fuel as [ | fuel IH]; intros i Hf; [lia | ].
  cbn [matchAllFrom]. destruct (String.length inp <? i) eqn:Ei.
  { apply Nat.ltb_lt in Ei. pose proof (strDrop_length inp i) as Hl.
    destruct (strDrop i inp); [reflexivity | simpl in Hl; lia]. }
  rewrite execFrom_boolOps by reflexivity.
  pose proof (firstToken_count (strDrop i inp) i) as Hc.
  destruct (firstToken (strDrop i inp) i) as [m | ]; [ | symmetry; exact Hc].
  destruct Hc as (p & Hi & Hl & Hp & Hc).
  rewrite strDrop_length in Hp.
  replace (lastIndex m =? index m) with false by (symmetry; apply Nat.eqb_neq; lia).
  cbn [length]. rewrite Hc, IH by lia.
  rewrite Hl, <- Nat.add_assoc, strDrop_add. reflexivity.
Qed.

(** The global match finds exactly the tokens. *)
Lemma matchAll_boolOps c : length (matchAll reBoolOps c) = countBoolTokens c.
Proof.
  unfold matchAll. rewrite matchAllFrom_boolOps by lia. reflexivity.
Qed.

Lemma isBoolToken_true a b :
  isBoolToken a b = true ->
  (a = "&"%char /\ b = "&"%char) \/ (a = "|"%char /\ b = "|"%char).
Proof.
  unfold isBoolToken. intros H. apply orb_true_iff in H as [H | H];
    apply andb_true_iff in H as [Ha Hb];
    apply Ascii.eqb_eq in Ha, Hb; auto.
Qed.

(** A text with a token passes the two [includes] tests of the guard. *)
Lemma token_included c :
  countBoolTokens c <> 0 ->
  JS.truthy c && (JS.includes c "&&" || JS.includes c "||") = true.
Proof.
  intros H. assert (Ht : JS.truthy c = true) by (destruct c; [contradiction | reflexivity]).
  rewrite Ht. simpl. clear Ht.
  induction c as [ | a c IH]; [contradiction | ].
  destruct c as [ | b c']; [contradiction | ].
  rewrite countBoolTokens_two in H. destruct (isBoolToken a b) eqn:E.
  - clear IH H. apply isBoolToken_true in E as [[-> ->] | [-> ->]];
      destruct c'; simpl; rewrite ?orb_true_r; reflexivity.
  - specialize (IH H). apply orb_true_iff in IH. apply orb_true_iff.
    destruct IH as [IH | IH]; [left | right];
      change (JS.includes (String a (String b c')) ?x)
        with (String.prefix x (String a (String b c')) || JS.includes (String b c') x);
      rewrite IH; apply orb_true_r.
Qed.

(** What a statement adds for its condition is its number of tokens. *)
Lemma conditionOperators_count s : conditionOperators s = boolOps s.
Proof.
  unfold conditionOperators, boolOps. destruct (condition s) as [c | ]; [ | reflexivity].
  destruct (decide (countBoolTokens c = 0)) as [E | E].
  - rewrite matchAll_boolOps, E. destruct (_ && _); reflexivity.
  - rewrite (token_included c E). apply matchAll_boolOps.
Qed.

End TokenFacts.

(** ** The metrics *)

Module MetricFacts.
Import Regex CodeParser CodeAnalyzer Vocabulary ParserFacts TokenFacts.

Lemma sum_cons {X} (f : X -> nat) x l :
  sum_list (f <$> x :: l) = f x + sum_list (f <$> l).
Proof. reflexivity. Qed.

(** The loop of [calculateCyclomaticComplexity] is a sum. *)
Lemma complexity_sum stmts :
  forall acc,
    foldl (fun complexity statement =>
             (if isBranch (type statement) then S complexity else complexity)
             + conditionOperators statement) acc stmts
    = acc + length (filter (fun s => isBranch (type s)) stmts)
      + sum_list (boolOps <$> stmts).
Proof.
  induction stmts as [ | s rest IH]; intros acc; [simpl; lia | ].
  cbn [foldl]. rewrite IH, conditionOperators_count.
  rewrite sum_cons. destruct (isBranch (type s)) eqn:E.
  - rewrite filter_cons_True by (rewrite E; exact I). cbn [length]. lia.
  - rewrite filter_cons_False by (rewrite E; exact id). lia.
Qed.

Lemma kind_branch ty :
  ty ∈ statementKinds -> (isBranch ty = true <-> ty ∈ ["if"; "for"; "while"]).
Proof.
  unfold statementKinds. rewrite !elem_of_cons, elem_of_nil.
  intros [-> | [-> | [-> | [-> | [-> | [-> | [-> | [-> | [-> | H]]]]]]]]];
    [ | | | | | | | | | contradiction];
    (split; intros E;
     [ vm_compute in E;
       first [discriminate E | repeat (first [left; reflexivity | right])]
     | first [reflexivity | intuition congruence] ]).
Qed.

(** On classified statements the branch kinds are the three of the data
    model, and only conditionals and while loops have a condition text. *)
Lemma classified_shape this stmts :
  usable (CodeParser.patterns this) ->
  Forall (classified this) stmts ->
  length (filter (fun s => isBranch (type s)) stmts)
  = length (filter (fun s => type s ∈ ["if"; "for"; "while"]) stmts) /\
  sum_list (boolOps <$> stmts)
  = sum_list (boolOps <$> filter (fun s => type s ∈ ["if"; "while"]) stmts).
Proof.
  intros Hu. induction 1 as [ | s rest Hs _ [IH1 IH2]]; [split; reflexivity | ].
  destruct (classified_facts this s Hu Hs) as (Hk & _ & Hc & _).
  split.
  - destruct (isBranch (type s)) eqn:E.
    + rewrite filter_cons_True by (rewrite E; exact I).
      rewrite filter_cons_True by (apply kind_branch; assumption).
      simpl. rewrite IH1. reflexivity.
    + rewrite filter_cons_False by (rewrite E; exact id).
      rewrite filter_cons_False; [exact IH1 | ].
      intros Hin. apply (kind_branch _ Hk) in Hin. congruence.
  - destruct (decide (type s ∈ ["if"; "while"])) as [Hin | Hout].
    + rewrite filter_cons_True by exact Hin. rewrite !sum_cons, IH2. reflexivity.
    + rewrite filter_cons_False by exact Hout. rewrite sum_cons, IH2.
      assert (boolOps s = 0) as ->; [ | reflexivity].
      unfold boolOps. destruct (condition s) as [c | ] eqn:Ec; [ | reflexivity].
      exfalso. apply Hout. destruct Hc as [Hc | Hc]; [eauto | | ];
        rewrite Hc, !elem_of_cons; auto.
Qed.

(** With no statement that records a previous indentation, the counter of
    [estimateTimeComplexity] never goes down: it counts the loops. *)
Lemma timeStep_counts stmts :
  Forall (fun s => previousIndent s = None) stmts ->
  forall m c,
    c <= m ->
    foldl timeStep (m, c) stmts
    = (Nat.max m (c + loopCount stmts), c + loopCount stmts).
Proof.
  unfold loopCount.
  induction 1 as [ | s rest Hs _ IH]; intros m c Hc; cbn [foldl].
  - rewrite filter_nil. cbn [length]. rewrite Nat.add_0_r. f_equal. lia.
  - destruct (isLoopKind (type s)) eqn:E.
    + assert (Hstep : timeStep (m, c) s = (Nat.max m (S c), S c)).
      { unfold timeStep. rewrite E. reflexivity. }
      rewrite Hstep, filter_cons_True.
      * rewrite IH by lia. cbn [length]. f_equal; lia.
      * unfold isLoopKind in E. simpl in E. rewrite orb_false_r in E.
        apply orb_true_iff in E as [E | E]; apply String.eqb_eq in E;
          rewrite E, !elem_of_cons; auto.
    + assert (Hstep : timeStep (m, c) s = (m, c)).
      { unfold timeStep. rewrite E, Hs. reflexivity. }
      rewrite Hstep, filter_cons_False.
      * apply IH, Hc.
      * unfold isLoopKind in E. simpl in E. rewrite orb_false_r in E.
        apply orb_false_iff in E as [E1 E2]. apply String.eqb_neq in E1, E2.
        rewrite !elem_of_cons, elem_of_nil. tauto.
Qed.

(** The loop of [analyzeSecurityIssues] concatenates the findings. *)
Lemma issues_concat stmts :
  forall acc,
    foldl (fun acc statement => acc ++ statementIssues statement) acc stmts
    = acc ++ concat (statementIssues <$> stmts).
Proof.
  induction stmts as [ | s rest IH]; intros acc; simpl.
  - rewrite app_nil_r. reflexivity.
  - rewrite IH, <- app_assoc. reflexivity.
Qed.

Lemma issues_of_statement s :
  filter (fun i => severity i = "high") (statementIssues s)
  = (if mentions "eval(" s then [evalIssue s] else []) /\
  filter (fun i => severity i = "medium") (statementIssues s)
  = (if mentions "innerhtml" s then [innerHTMLIssue s] else []) /\
  length (statementIssues s)
  = (if mentions "eval(" s then 1 else 0) + (if mentions "innerhtml" s then 1 else 0).
Proof.
  unfold statementIssues, mentions.
  destruct (JS.includes _ "eval("), (JS.includes _ "innerhtml"); repeat split.
Qed.

Lemma count_true {X} (f : X -> bool) (l : list X) :
  sum_list ((fun x => if f x then 1 else 0) <$> l) = length (filter (fun x => f x) l).
Proof.
  induction l as [ | x l IH]; [reflexivity | ]. rewrite sum_cons. destruct (f x) eqn:E.
  - rewrite filter_cons_True by (rewrite E; exact I). cbn [length]. rewrite IH. reflexivity.
  - rewrite filter_cons_False by (rewrite E; exact id). exact IH.
Qed.

Lemma length_filter_cons {X} (f : X -> bool) x l :
  length (filter (fun y => f y) (x :: l))
  = (if f x then 1 else 0) + length (filter (fun y => f y) l).
Proof.
  destruct (f x) eqn:E.
  - rewrite filter_cons_True by (rewrite E; exact I). reflexivity.
  - rewrite filter_cons_False by (rewrite E; exact id). reflexivity.
Qed.

End MetricFacts.

(** ** The whole analysis and its cache *)

Module CacheFacts.
Import Regex CodeParser FlowchartGenerator CodeAnalyzer.
Import Vocabulary ParserFacts FlowFacts.

Lemma someName_total f names :
  Forall is_Some names -> exists b, someName f names = Normal b.
Proof.
  induction 1 as [ | n rest [w ->] _ [b IH]]; simpl; [eauto | ].
  destruct (f (JS.toLowerCase w)); eauto.
Qed.

Lemma identifyPatterns_total a :
  Forall is_Some (functions a) -> exists pats, identifyPatterns a = Normal pats.
Proof.
  intros H. unfold identifyPatterns, identifyDesignPatterns.
  destruct (someName_total
              (fun n => JS.includes n "create" || JS.includes n "factory") _ H) as [b1 ->].
  destruct (someName_total
              (fun n => JS.includes n "notify" || JS.includes n "observer") _ H) as [b2 ->].
  cbn [bind]. eauto.
Qed.

Lemma generateFromAnalysis_total stmts :
  exists g, generateFromAnalysis stmts = Normal g /\
            nodes g = createNodes 1 stmts.
Proof.
  unfold generateFromAnalysis, createConnections.
  rewrite createNodes_length. replace (length stmts + 2 - 1) with (S (length stmts)) by lia.
  destruct (connectionsFrom_spec 1 stmts (S (length stmts)) 0) as (ls & -> & _); [lia | ].
  cbn [bind]. eauto.
Qed.

(** On a usable profile the analysis of a text never throws. *)
Lemma freshAnalysis_total source language :
  usable (CodeParser.patterns (CodeParser.new language)) ->
  exists r, freshAnalysis source language = Normal r.
Proof.
  intros Hu. unfold freshAnalysis.
  destruct (parseCode_spec _ source Hu) as (a & -> & _ & _ & _ & Hn). cbn [bind].
  destruct (identifyPatterns_total a Hn) as [pats ->]. cbn [bind].
  destruct (generateFromAnalysis_total (statements a)) as (g & -> & _). cbn [bind].
  eauto.
Qed.

Lemma supported_usable language :
  language ∈ supportedLanguages CodeAnalyzer.new ->
  usable (CodeParser.patterns (CodeParser.new language)).
Proof.
  intros Hin. apply usable_profile. simpl in Hin. rewrite !elem_of_cons in Hin.
  destruct Hin as [-> | [-> | [-> | [-> | Hin]]]]; try reflexivity. inversion Hin.
Qed.

(** White space only: every line is blank. *)
Lemma trimStart_allSpace s : allSpace s = true -> JS.trimStart s = "".
Proof.
  induction s as [ | a s IH]; simpl; [reflexivity | ].
  intros H. apply andb_true_iff in H as [Ha Hs]. rewrite Ha. apply IH, Hs.
Qed.

Lemma trim_allSpace s : allSpace s = true -> JS.trim s = "".
Proof. intros H. unfold JS.trim. rewrite (trimStart_allSpace s H). reflexivity. Qed.

Lemma split_allSpace sep s :
  allSpace s = true -> Forall (fun text => allSpace text = true) (JS.split sep s).
Proof.
  induction s as [ | a s IH]; simpl; intros H.
  - repeat constructor.
  - apply andb_true_iff in H as [Ha Hs]. specialize (IH Hs).
    destruct (Ascii.eqb a sep).
    + constructor; [reflexivity | exact IH].
    + destruct (JS.split sep s) as [ | w ws].
      * repeat constructor. simpl. rewrite Ha. reflexivity.
      * inversion IH; subst. constructor; [ | assumption].
        simpl. rewrite Ha. assumption.
Qed.

Lemma parseLines_blank this lines :
  Forall (fun text => allSpace text = true) lines ->
  forall n a, parseLines this (n, a) lines = Normal (n + length lines, a).
Proof.
  induction 1 as [ | text rest Ht _ IH]; intros n a; simpl.
  - rewrite Nat.add_0_r. reflexivity.
  - unfold parseLine at 1. rewrite (trim_allSpace text Ht). cbn [JS.truthy negb orb bind fst snd].
    rewrite IH. do 2 f_equal. lia.
Qed.

Lemma parseCode_blank this source :
  allSpace source = true ->
  parseCode this source
  = Normal {| a_language := language this;
              totalLines := length (JS.split "010" source);
              statements := []; a_variables := []; functions := [];
              controlStructures := []; complexity := 0 |}.
Proof.
  intros H. unfold parseCode.
  rewrite (parseLines_blank this _ (split_allSpace _ source H)). reflexivity.
Qed.

(** The step of the hash is the rolling hash [31 * hash + char], wrapped
    to the signed 32-bit range. *)
Lemma hashStep_rolling h a :
  hashStep h a = JS.toInt32 (31 * h + Z.of_nat (JS.code a)).
Proof.
  unfold hashStep, JS.toInt32. rewrite Z.land_diag, Z.shiftl_mul_pow2 by lia.
  change (2 ^ 5)%Z with 32%Z.
  generalize (Z.of_nat (JS.code a)). intros c.
  Z.div_mod_to_equations. lia.
Qed.

(** The invariant of the cache. *)
Lemma wellFormed_new : wellFormed CodeAnalyzer.new.
Proof.
  intros key ref H. unfold CodeAnalyzer.new in H. cbn [analysisCache] in H.
  rewrite lookup_empty in H. discriminate.
Qed.

Lemma wellFormed_clearCache this : wellFormed (clearCache this).
Proof.
  intros key ref H. unfold clearCache in H. cbn [analysisCache] in H.
  rewrite lookup_empty in H. discriminate.
Qed.

Lemma wellFormed_analyzeCode this source lang ref this' :
  wellFormed this ->
  analyzeCode this source lang = Normal (ref, this') ->
  wellFormed this' /\ ref < length (heap this') /\
  analysisCache this' !! cacheKey source (default "javascript" lang) = Some ref.
Proof.
  intros Hwf. unfold analyzeCode.
  destruct (analysisCache this !! _) as [r | ] eqn:E.
  - intros H. inversion H; subst. split; [exact Hwf | split; [ | exact E]].
    apply (Hwf _ _ E).
  - destruct (freshAnalysis _ _) as [r | e]; cbn [bind]; [ | discriminate].
    intros H. inversion H; subst. split; [ | split].
    + intros key ref Hk. cbn [heap analysisCache] in *. rewrite length_app. simpl.
      destruct (decide (key = cacheKey source (default "javascript" lang))) as [-> | Hne].
      * rewrite lookup_insert_eq in Hk. inversion Hk. lia.
      * rewrite lookup_insert_ne in Hk by (intros Heq; apply Hne; symmetry; exact Heq).
        apply Hwf in Hk. lia.
    + cbn [heap]. rewrite length_app. simpl. lia.
    + cbn [analysisCache]. apply lookup_insert_eq.
Qed.

End CacheFacts.

(** * The classifier *)

Import Regex CodeParser FlowchartGenerator CodeAnalyzer.
Import Vocabulary RegexFacts ParserFacts StepFacts FlowFacts TokenFacts MetricFacts CacheFacts.

(** The fallback to the JavaScript profile does not cover the names an
    object literal inherits: under such a name no rule is defined, and a
    line with a call makes the classifier throw. *)
Example inherited_name_throws :
  isNormal (parseCode (CodeParser.new "constructor") "render(page);") = false /\
  isNormal (parseCode (CodeParser.new "typescript") "render(page);") = true.
Proof. split; reflexivity. Qed.

(** C10.  The Python profile has no assignment rule.  A line its variable
    rule matches is classified as a variable declaration, whose step
    records one memory event, a creation.  In the statements of any Python
    text none has the assignment kind, and no step records an update. *)
Theorem python_never_assignment :
  pat_assignment python = None /\
  (forall text ln ind,
     guardedTest (pat_variable python) text = true ->
     exists s, analyzeLine (CodeParser.new "python") text ln ind = Normal s /\
               type s = "variable" /\
               forall k, memoryChanges (createExecutionStep s k) = [createEvent s]) /\
  (forall source,
     exists a, parseCode (CodeParser.new "python") source = Normal a /\
               Forall (fun s => type s <> "assignment") (statements a) /\
               Forall (fun step =>
                         Forall (fun m => action m <> "update") (memoryChanges step))
                      (generateExecutionSteps a)).
Proof.
  assert (Hu : usable (CodeParser.patterns (CodeParser.new "python"))).
  { apply usable_profile. reflexivity. }
  split; [reflexivity | split].
  - intros text ln ind Hv.
    destruct (analyzeLine_total (CodeParser.new "python") text ln ind Hu)
      as (s & Hs & _ & _ & _ & _ & _ & _ & _ & Hvar & _).
    exists s. split; [exact Hs | ].
    split; [exact (Hvar Hv) | ].
    intros k. apply step_of_variable, Hvar, Hv.
  - intros source.
    destruct (parseCode_spec (CodeParser.new "python") source Hu) as (a & Hp & _ & _ & Hc & _).
    assert (Hna : Forall (fun s => type s <> "assignment") (statements a)).
    { eapply Forall_impl; [exact Hc | ].
      intros s Hs Hty.
      destruct (classified_facts _ s Hu Hs) as (_ & _ & _ & Ha & _).
      destruct (Ha Hty) as [r Hr]. discriminate Hr. }
    exists a. split; [exact Hp | split; [exact Hna | ]].
    apply steps_no_update, Hna.
Qed.

(** C10, on the reassignment of a name to a value computed from it: the
    line is a variable declaration, narrated as a creation. *)
Lemma python_never_assignment_witness :
  exists s, analyzeLine (CodeParser.new "python") "x = x + 1" 2 0 = Normal s /\
            type s = "variable" /\
            forall k, memoryChanges (createExecutionStep s k) = [createEvent s].
Proof.
  destruct python_never_assignment as (_ & H & _).
  apply (H "x = x + 1" 2 0). reflexivity.
Defined.

(** * The graph *)

(** C3.  For every statement stream (statements of the kinds of the data
    model) the graph is built without an exception and has the invariants
    of [graphInvariants]: one start node and one end node, the only nodes
    of terminal shape; in-degree 0 for the start node; an outgoing edge for
    every node but the end node; at least as many edges as nodes but one. *)
Theorem graph_invariants (stmts : list Statement) :
  Forall (fun s => type s ∈ statementKinds) stmts ->
  exists g, generateFromAnalysis stmts = Normal g /\ graphInvariants stmts g.
Proof.
  intros Hk. unfold generateFromAnalysis, createConnections.
  rewrite createNodes_length. replace (length stmts + 2 - 1) with (S (length stmts)) by lia.
  destruct (connectionsFrom_spec 1 stmts (S (length stmts)) 0) as (ls & -> & Hls & Hlen);
    [lia | ].
  cbn [bind]. eexists. split; [reflexivity | ].
  assert (Hkinds : forall s, s ∈ stmts ->
                     type s <> "start" /\ type s <> "end" /\ nodeShape (type s) <> "ellipse").
  { intros s Hs. apply kind_not_terminal. rewrite Forall_forall in Hk. apply Hk, Hs. }
  unfold graphInvariants. cbn [nodes connections].
  replace (length stmts + 2) with (1 + S (length stmts)) by lia.
  repeat split.
  - pose proof (createNodes_last 1 stmts) as Hlast. unfold lastId in Hlast.
    unfold createNodes.
    change (terminalNode 1 "start" :: statementNodes 2 0 stmts
            ++ [terminalNode (2 + length stmts) "end"])
      with ((terminalNode 1 "start" :: statementNodes 2 0 stmts)
            ++ [terminalNode (2 + length stmts) "end"]).
    rewrite last_snoc. do 2 f_equal.
  - rewrite createNodes_filter; [reflexivity | ].
    intros c s i Hs. simpl. apply (Hkinds s Hs).
  - rewrite createNodes_filter; [reflexivity | ].
    intros c s i Hs. simpl. apply (Hkinds s Hs).
  - rewrite createNodes_filter; [reflexivity | ].
    intros c s i Hs. simpl. apply (Hkinds s Hs).
  - rewrite createNodes_ids. apply NoDup_fmap_2; [ | apply NoDup_seq].
    intros x y Hxy. inversion Hxy. reflexivity.
  - apply Forall_forall. intros e He.
    apply Hls in He as (j & l & Hj & Hl & He).
    destruct (turn_spec 1 stmts j) as (l' & Hl' & Hf & _); [lia | ].
    rewrite Hl in Hl'. inversion Hl'; subst l'.
    rewrite Forall_forall in Hf.
    destruct (Hf e He) as [(_ & _ & j' & Hj' & ->) | (_ & -> & Hj' & _)];
      simpl; intros Heq; inversion Heq; lia.
  - apply Forall_forall. intros nd Hnd Hne.
    apply list_elem_of_lookup in Hnd as [j Hnd].
    assert (Hid := createNodes_id 1 stmts j nd Hnd).
    assert (Hj : j <= length stmts /\ n_type nd <> "end").
    { apply createNodes_cases in Hnd
        as [[-> ->] | [(k & s & -> & Hs & ->) | [-> ->]]].
      - split; [lia | discriminate].
      - split; [apply lookup_lt_Some in Hs; lia | ].
        simpl. apply (Hkinds s). eapply list_elem_of_lookup_2, Hs.
      - contradiction. }
    destruct Hj as [Hj Hty].
    destruct (turn_spec 1 stmts j Hj) as (l & Hl & _ & Hout & _).
    destruct (Hout nd Hnd Hty) as (e & He & Hfrom & _).
    exists e. split; [ | congruence].
    apply Hls. exists j, l. split; [lia | auto].
  - rewrite createNodes_length. replace (length stmts + 2 - 1) with (S (length stmts)) by lia.
    apply Hlen. apply Forall_forall. intros s Hs. apply (Hkinds s Hs).
Qed.

(** C3, on the statements of a function with a loop, a condition and a
    return. *)
Lemma graph_invariants_witness :
  let stmts :=
    statementsOf "javascript"
      (unlines ["function f(n) {"; "  for (let i = 0; i < n; i++) {";
                "    if (i > 2) {"; "      return i;"; "    }"; "  }";
                "  g(n);"; "}"]) in
  exists g, generateFromAnalysis stmts = Normal g /\ graphInvariants stmts g.
Proof.
  apply graph_invariants.
  apply (bool_decide_unpack _). vm_compute. exact I.
Defined.

(** C4, as amended.  The node of a return statement gets the edge to the
    end node in place of the sequential edge: that edge is there; every
    edge that leaves the node is that edge or a loop edge back to an
    earlier loop node; so, unless the return is the last statement, no
    edge goes from it to the node that follows it. *)
Theorem return_edge_replaces_sequential (stmts : list Statement) (i : nat) (s : Statement) :
  stmts !! i = Some s -> type s = "return" ->
  exists g,
    generateFromAnalysis stmts = Normal g /\
    let ret := A (i + 2) in
    let endId := A (length stmts + 2) in
    plainEdge ret endId ∈ connections g /\
    (forall e, e ∈ connections g -> from e = ret ->
               e = plainEdge ret endId \/
               (label e = "Loop" /\ exists j, j < i /\ to e = A (j + 2))) /\
    (i + 1 < length stmts ->
     forall e, e ∈ connections g -> from e = ret -> to e <> A (i + 3)).
Proof.
  intros Hs Hty. unfold generateFromAnalysis, createConnections.
  rewrite createNodes_length. replace (length stmts + 2 - 1) with (S (length stmts)) by lia.
  destruct (connectionsFrom_spec 1 stmts (S (length stmts)) 0) as (ls & -> & Hls & _);
    [lia | ].
  cbn [bind]. eexists. split; [reflexivity | ]. cbn [connections].
  assert (Hi : i < length stmts) by (eapply lookup_lt_Some, Hs).
  destruct (turn_spec 1 stmts (S i)) as (l & Hl & _ & _ & Hret); [lia | ].
  specialize (Hret i s eq_refl Hs Hty).
  replace (A (1 + S i)) with (A (i + 2)) in Hret by (f_equal; lia).
  replace (A (1 + S (length stmts))) with (A (length stmts + 2)) in Hret by (f_equal; lia).
  assert (Hall : forall e, e ∈ ls -> from e = A (i + 2) ->
                   e = plainEdge (A (i + 2)) (A (length stmts + 2)) \/
                   (label e = "Loop" /\ exists j, j < i /\ to e = A (j + 2))).
  { intros e He Hfrom. apply Hls in He as (j & l' & Hj & Hl' & He).
    destruct (turn_spec 1 stmts j) as (l'' & Hl'' & Hf & _); [lia | ].
    rewrite Hl' in Hl''. inversion Hl''; subst l''.
    rewrite Forall_forall in Hf.
    destruct (Hf e He) as [(Hfr & _) | (Hlab & Hto & Hj1 & j' & Hj' & Hfr)].
    - rewrite Hfr in Hfrom. injection Hfrom as Hj0. assert (j = S i) as -> by lia.
      rewrite Hl in Hl'. inversion Hl'; subst l'. rewrite Hret in He.
      apply list_elem_of_singleton in He. left. exact He.
    - right. split; [exact Hlab | ].
      rewrite Hfr in Hfrom. injection Hfrom as Hj0.
      exists (j - 1). split; [lia | ]. rewrite Hto. f_equal. lia. }
  split; [ | split; [exact Hall | ]].
  - apply Hls. exists (S i), l. split; [lia | split; [exact Hl | ]].
    rewrite Hret. apply list_elem_of_here.
  - intros Hlast e He Hfrom.
    destruct (Hall e He Hfrom) as [-> | (_ & j & Hj & ->)];
      simpl; intros Heq; inversion Heq; lia.
Qed.

(** C4, as amended, on a return followed by an assignment. *)
Lemma return_edge_replaces_sequential_witness :
  let stmts := statementsOf "javascript" (unlines ["return 1;"; "x = 2;"]) in
  exists g,
    generateFromAnalysis stmts = Normal g /\
    let ret := A (0 + 2) in
    let endId := A (length stmts + 2) in
    plainEdge ret endId ∈ connections g /\
    (forall e, e ∈ connections g -> from e = ret ->
               e = plainEdge ret endId \/
               (label e = "Loop" /\ exists j, j < 0 /\ to e = A (j + 2))) /\
    (0 + 1 < length stmts ->
     forall e, e ∈ connections g -> from e = ret -> to e <> A (0 + 3)).
Proof.
  eapply (return_edge_replaces_sequential
            (statementsOf "javascript" (unlines ["return 1;"; "x = 2;"])) 0).
  - vm_compute. reflexivity.
  - reflexivity.
Defined.

(** C4 as stated fails on a return followed by an assignment: the graph
    has the edges A1 to A2, A2 to A4 and A3 to A4, and no edge from the
    return node A2 to the next node A3. *)
Lemma return_edge_counterexample :
  let stmts := statementsOf "javascript" (unlines ["return 1;"; "x = 2;"]) in
  exists g,
    generateFromAnalysis stmts = Normal g /\
    (from <$> connections g, to <$> connections g) = ([A 1; A 2; A 3], [A 2; A 4; A 4]) /\
    ~ returnKeepsSequentialEdge stmts g.
Proof.
  eexists. split; [vm_compute; reflexivity | ].
  split; [reflexivity | ].
  intros H. destruct (H 0 _ eq_refl eq_refl) as (_ & e & He & Hfrom & Hto).
  cbn [connections] in He. rewrite !elem_of_cons in He.
  destruct He as [-> | [-> | [-> | He]]];
    [discriminate Hto | discriminate Hto | discriminate Hfrom | inversion He].
Qed.

(** * The metrics *)

(** C1, as amended.  For every profile and every text, the cyclomatic
    complexity is 1, plus the number of conditional, for-loop and
    while-loop statements, plus the number of logical AND and OR tokens in
    the condition text of the conditionals and of the while loops. *)
Theorem cyclomatic_complexity (language source : string) :
  language ∈ supportedLanguages CodeAnalyzer.new ->
  exists a,
    parseCode (CodeParser.new language) source = Normal a /\
    calculateCyclomaticComplexity a
    = 1 + length (filter (fun s => type s ∈ ["if"; "for"; "while"]) (statements a))
      + sum_list (boolOps <$> filter (fun s => type s ∈ ["if"; "while"]) (statements a)).
Proof.
  intros Hin.
  pose proof (supported_usable language Hin) as Hu.
  destruct (parseCode_spec _ source Hu) as (a & Hp & _ & _ & Hc & _).
  exists a. split; [exact Hp | ].
  unfold calculateCyclomaticComplexity. rewrite complexity_sum.
  destruct (classified_shape _ _ Hu Hc) as [-> ->]. reflexivity.
Qed.

(** C1, as amended, on a function with a loop and a compound while
    condition. *)
Lemma cyclomatic_complexity_witness :
  exists a,
    parseCode (CodeParser.new "javascript")
      (unlines ["function f(n) {"; "  for (let i = 0; i < n; i++) {";
                "    while (a && b || c) {"; "    }"; "  }"; "}"]) = Normal a /\
    calculateCyclomaticComplexity a
    = 1 + length (filter (fun s => type s ∈ ["if"; "for"; "while"]) (statements a))
      + sum_list (boolOps <$> filter (fun s => type s ∈ ["if"; "while"]) (statements a)).
Proof.
  apply (cyclomatic_complexity "javascript").
  simpl. rewrite !elem_of_cons. left. reflexivity.
Defined.

(** C1 as stated fails on a while loop with a compound condition: the
    code counts the token of its condition, the claim does not. *)
Lemma cyclomatic_counterexample :
  exists a,
    parseCode (CodeParser.new "javascript") "while (a && b) {" = Normal a /\
    type <$> statements a = ["while"] /\
    condition <$> statements a = [Some "a && b"] /\
    calculateCyclomaticComplexity a = 3 /\
    claimedComplexity (statements a) = 2 /\
    calculateCyclomaticComplexity a <> claimedComplexity (statements a).
Proof.
  eexists. split; [vm_compute; reflexivity | ].
  repeat split. vm_compute. discriminate.
Qed.

(** C2.  Two loops in sequence, neither inside the other: the counter
    is never taken down (no statement records a previous indentation), so
    the estimate is quadratic, although no nested loop is found. *)
Theorem sequential_loops_quadratic :
  exists a,
    parseCode (CodeParser.new "javascript")
      (unlines ["for (let i = 0; i < n; i++) {"; "  a();"; "}";
                "for (let j = 0; j < n; j++) {"; "  b();"; "}"]) = Normal a /\
    type <$> statements a = ["for"; "call"; "statement"; "for"; "call"; "statement"] /\
    indent <$> statements a = [0; 1; 0; 0; 1; 0] /\
    hasNestedLoops (statements a) = false /\
    estimateTimeComplexity a = "O(n" +:+ superscript2 +:+ ")".
Proof.
  eexists. split; [vm_compute; reflexivity | ]. repeat split.
Qed.

(** The estimate of any classified text is the label of its number of
    loop statements. *)
Lemma estimate_is_loop_count (language source : string) :
  language ∈ supportedLanguages CodeAnalyzer.new ->
  exists a,
    parseCode (CodeParser.new language) source = Normal a /\
    estimateTimeComplexity a = complexityLabel (loopCount (statements a)).
Proof.
  intros Hin.
  pose proof (supported_usable language Hin) as Hu.
  destruct (parseCode_spec _ source Hu) as (a & Hp & _ & _ & Hc & _).
  exists a. split; [exact Hp | ].
  unfold estimateTimeComplexity. rewrite timeStep_counts; [reflexivity | | lia].
  eapply Forall_impl; [exact Hc | ].
  intros s Hs. apply (classified_facts _ s Hu Hs).
Qed.

(** C6.  Eleven conditionals and two comment lines: the ratio of code
    lines to comment lines is 11/2, between 3 and 10, but the comment lines
    are not among the statements, the ratio the code computes is 11, no
    bonus is added and the score is 100 - 5 * (12 - 10) = 90. *)
Theorem quality_score_without_bonus :
  let lines := ["// first"; "// second";
                "if (a) {"; "if (a) {"; "if (a) {"; "if (a) {"; "if (a) {"; "if (a) {";
                "if (a) {"; "if (a) {"; "if (a) {"; "if (a) {"; "if (a) {"] in
  let this := CodeParser.new "javascript" in
  exists a,
    parseCode this (unlines lines) = Normal a /\
    length (filter (fun text => isStatementLine this text) lines) = 11 /\
    length (filter (fun text => isComment this (JS.trim text)) lines) = 2 /\
    cyclomaticComplexity (calculateMetrics a) = 12 /\
    maxNestingDepth (calculateMetrics a) = 0 /\
    codeToCommentRatio (calculateMetrics a) = inject_Z 11 /\
    qualityScore (calculateMetrics a) = 90%Z.
Proof.
  eexists. split; [vm_compute; reflexivity | ]. repeat split.
Qed.

(** On every classified text the ratio is the number of statements: no
    statement has the comment kind. *)
Lemma ratio_ignores_comments (language source : string) :
  language ∈ supportedLanguages CodeAnalyzer.new ->
  exists a,
    parseCode (CodeParser.new language) source = Normal a /\
    calculateCodeCommentRatio a = inject_Z (Z.of_nat (length (statements a))).
Proof.
  intros Hin.
  pose proof (supported_usable language Hin) as Hu.
  destruct (parseCode_spec _ source Hu) as (a & Hp & _ & _ & Hc & _).
  exists a. split; [exact Hp | ].
  assert (Hnone : forall l : list Statement,
             Forall (classified (CodeParser.new language)) l ->
             filter (fun s => type s == "comment") l = []
             /\ filter (fun s => negb (type s == "comment")) l = l).
  { induction 1 as [ | s rest Hs _ [IH1 IH2]]; [split; reflexivity | ].
    destruct (classified_facts _ s Hu Hs) as (Hk & _).
    assert (E : (type s == "comment") = false).
    { apply String.eqb_neq. intros Heq. rewrite Heq in Hk.
      unfold statementKinds in Hk. rewrite !elem_of_cons, elem_of_nil in Hk.
      intuition congruence. }
    split.
    - rewrite filter_cons_False by (rewrite E; exact (fun F => F)). exact IH1.
    - rewrite filter_cons_True by (rewrite E; exact I). rewrite IH2. reflexivity. }
  destruct (Hnone _ Hc) as [H1 H2].
  unfold calculateCodeCommentRatio, countLinesOfCode. rewrite H1, H2. reflexivity.
Qed.

(** C9.  The high-severity findings are one per statement whose text
    contains the substring of dynamic evaluation, whatever the case; the
    medium-severity findings are one per statement whose text contains the
    substring of the HTML assignment; there is no other finding; and the
    risk level is low for no finding, medium for one or two, high for
    more. *)
Theorem security_findings (a : Analysis) :
  let sec := analyzeSecurityIssues a in
  filter (fun i => severity i = "high") (issues sec)
  = evalIssue <$> filter (fun s => mentions "eval(" s) (statements a) /\
  filter (fun i => severity i = "medium") (issues sec)
  = innerHTMLIssue <$> filter (fun s => mentions "innerhtml" s) (statements a) /\
  length (issues sec)
  = length (filter (fun s => mentions "eval(" s) (statements a))
    + length (filter (fun s => mentions "innerhtml" s) (statements a)) /\
  riskLevel sec = match length (issues sec) with
                  | 0 => "low"
                  | 1 | 2 => "medium"
                  | _ => "high"
                  end.
Proof.
  unfold analyzeSecurityIssues. cbn [issues riskLevel]. rewrite issues_concat. cbn [app].
  repeat split.
  - induction (statements a) as [ | s rest IH]; [reflexivity | ].
    cbn [fmap list_fmap concat]. rewrite filter_app, IH.
    destruct (issues_of_statement s) as (-> & _ & _).
    destruct (mentions "eval(" s) eqn:E.
    + rewrite filter_cons_True by (rewrite E; exact I). reflexivity.
    + rewrite filter_cons_False by (rewrite E; exact (fun F => F)). reflexivity.
  - induction (statements a) as [ | s rest IH]; [reflexivity | ].
    cbn [fmap list_fmap concat]. rewrite filter_app, IH.
    destruct (issues_of_statement s) as (_ & -> & _).
    destruct (mentions "innerhtml" s) eqn:E.
    + rewrite filter_cons_True by (rewrite E; exact I). reflexivity.
    + rewrite filter_cons_False by (rewrite E; exact (fun F => F)). reflexivity.
  - induction (statements a) as [ | s rest IH]; [reflexivity | ].
    cbn [fmap list_fmap concat]. rewrite length_app, IH.
    destruct (issues_of_statement s) as (_ & _ & ->).
    rewrite !length_filter_cons. lia.
  - destruct (length _) as [ | [ | [ | n]]]; reflexivity.
Qed.

(** Scenario D: one statement that calls eval gives one high-severity
    finding and a medium risk level. *)
Example security_scenario :
  exists a,
    parseCode (CodeParser.new "javascript") "result = EVAL(input);" = Normal a /\
    (severity <$> issues (analyzeSecurityIssues a)) = ["high"] /\
    riskLevel (analyzeSecurityIssues a) = "medium".
Proof. eexists. split; [vm_compute; reflexivity | ]. repeat split. Qed.

(** * The analysis and its cache *)

(** C7.  On an analyzer whose cache is in order, the analysis of a text
    under a profile returns a reference to an analysis object; the same
    analysis again is a cache hit that returns the same reference and
    leaves the analyzer as it is, so the same object, equal in every field.
    After [clearCache] the same analysis is computed anew and stored under
    a reference that is not the old one. *)
Theorem cache_hit_and_clear (this : Analyzer) (source language : string) :
  wellFormed this ->
  language ∈ supportedLanguages CodeAnalyzer.new ->
  exists ref this1,
    analyzeCode this source (Some language) = Normal (ref, this1) /\
    is_Some (heap this1 !! ref) /\
    analysisCache this1 !! cacheKey source language = Some ref /\
    analyzeCode this1 source (Some language) = Normal (ref, this1) /\
    exists r',
      freshAnalysis source language = Normal r' /\
      analyzeCode (clearCache this1) source (Some language)
      = Normal (length (heap this1),
                {| supportedLanguages := supportedLanguages this1;
                   analysisCache := <[cacheKey source language := length (heap this1)]> ∅;
                   heap := heap this1 ++ [r'] |}) /\
      length (heap this1) <> ref.
Proof.
  intros Hwf Hin.
  destruct (freshAnalysis_total source language (supported_usable language Hin)) as [r' Hr'].
  assert (Hclear : forall this1,
            analyzeCode (clearCache this1) source (Some language)
            = Normal (length (heap this1),
                      {| supportedLanguages := supportedLanguages this1;
                         analysisCache :=
                           <[cacheKey source language := length (heap this1)]> ∅;
                         heap := heap this1 ++ [r'] |})).
  { intros this1. unfold analyzeCode, clearCache. cbn [analysisCache heap].
    change (default "javascript" (Some language)) with language.
    rewrite lookup_empty, Hr'. reflexivity. }
  unfold analyzeCode at 1. change (default "javascript" (Some language)) with language.
  destruct (analysisCache this !! cacheKey source language) as [ref | ] eqn:E.
  - exists ref, this. split; [reflexivity | ].
    pose proof (Hwf _ _ E) as Hlt.
    split; [apply lookup_lt_is_Some_2, Hlt | split; [exact E | split]].
    + unfold analyzeCode. change (default "javascript" (Some language)) with language.
      rewrite E. reflexivity.
    + exists r'. split; [exact Hr' | split; [apply Hclear | lia]].
  - rewrite Hr'. cbn [bind]. eexists _, _. split; [reflexivity | ].
    cbn [heap]. split; [ | split; [ | split]].
    + apply lookup_lt_is_Some_2. rewrite length_app. simpl. lia.
    + cbn [analysisCache]. apply lookup_insert_eq.
    + unfold analyzeCode. change (default "javascript" (Some language)) with language.
      cbn [analysisCache]. rewrite lookup_insert_eq. reflexivity.
    + exists r'. split; [reflexivity | split; [apply Hclear | ]].
      rewrite length_app. simpl. lia.
Qed.

(** C7, on a new analyzer and a one-line text. *)
Lemma cache_hit_and_clear_witness :
  exists ref this1,
    analyzeCode CodeAnalyzer.new "total = price * 2;" (Some "javascript")
    = Normal (ref, this1) /\
    is_Some (heap this1 !! ref) /\
    analysisCache this1 !! cacheKey "total = price * 2;" "javascript" = Some ref /\
    analyzeCode this1 "total = price * 2;" (Some "javascript") = Normal (ref, this1) /\
    exists r',
      freshAnalysis "total = price * 2;" "javascript" = Normal r' /\
      analyzeCode (clearCache this1) "total = price * 2;" (Some "javascript")
      = Normal (length (heap this1),
                {| supportedLanguages := supportedLanguages this1;
                   analysisCache :=
                     <[cacheKey "total = price * 2;" "javascript" := length (heap this1)]> ∅;
                   heap := heap this1 ++ [r'] |}) /\
      length (heap this1) <> ref.
Proof.
  apply (cache_hit_and_clear CodeAnalyzer.new "total = price * 2;" "javascript").
  - exact wellFormed_new.
  - simpl. rewrite !elem_of_cons. left. reflexivity.
Defined.

(** C8, as amended.  For a text of white space only (the empty text
    included), whatever the profile, an analyzer that has no cache entry
    under the key of the text returns an analysis, it does not throw: no
    statement, cyclomatic complexity 1, a graph of the start node and the
    end node with the one edge between them, and the constant estimate
    O(1) for time and for space. *)
Theorem blank_input_analysis (this : Analyzer) (source : string) (language : option string) :
  allSpace source = true ->
  analysisCache this !! cacheKey source (default "javascript" language) = None ->
  exists r this',
    analyzeCode this source language = Normal (length (heap this), this') /\
    heap this' !! length (heap this) = Some r /\
    statements (parsed r) = [] /\
    totalStatements (metrics r) = 0 /\
    cyclomaticComplexity (metrics r) = 1 /\
    nodes (flowchartCode r) = [terminalNode 1 "start"; terminalNode 2 "end"] /\
    connections (flowchartCode r) = [plainEdge (A 1) (A 2)] /\
    timeComplexity (performance r) = "O(1)" /\
    spaceComplexity (performance r) = "O(1)".
Proof.
  intros Hs Hmiss. unfold analyzeCode. rewrite Hmiss. unfold freshAnalysis.
  rewrite (parseCode_blank _ source Hs). cbn [bind].
  eexists _, _. split; [reflexivity | ]. cbn [heap].
  split; [apply list_lookup_middle; reflexivity | ]. repeat split.
Qed.

(** C8, as amended, on a new analyzer and a text of blanks, a tab and two
    line ends. *)
Lemma blank_input_analysis_witness :
  exists r this',
    analyzeCode CodeAnalyzer.new (unlines ["  "; String "009" ""; ""]) (Some "python")
    = Normal (length (heap CodeAnalyzer.new), this') /\
    heap this' !! length (heap CodeAnalyzer.new) = Some r /\
    statements (parsed r) = [] /\
    totalStatements (metrics r) = 0 /\
    cyclomaticComplexity (metrics r) = 1 /\
    nodes (flowchartCode r) = [terminalNode 1 "start"; terminalNode 2 "end"] /\
    connections (flowchartCode r) = [plainEdge (A 1) (A 2)] /\
    timeComplexity (performance r) = "O(1)" /\
    spaceComplexity (performance r) = "O(1)".
Proof.
  apply (blank_input_analysis CodeAnalyzer.new
           (unlines ["  "; String "009" ""; ""]) (Some "python")).
  - reflexivity.
  - vm_compute. reflexivity.
Defined.

(** C8 as stated fails on the empty text: the estimates are O(1), and no
    field of the analysis is the string N/A. *)
Lemma blank_input_counterexample :
  exists r this',
    analyzeCode CodeAnalyzer.new "" None = Normal (0, this') /\
    heap this' !! 0 = Some r /\
    timeComplexity (performance r) = "O(1)" /\
    timeComplexity (performance r) <> "N/A" /\
    spaceComplexity (performance r) <> "N/A".
Proof.
  eexists _, _. split; [vm_compute; reflexivity | ].
  split; [reflexivity | ]. repeat split; discriminate.
Qed.

(** The hypothesis on the cache cannot be dropped: the key holds the hash
    of the text, not the text.  The one-character text of code unit 0 has
    the hash of the empty text, 0; once it is analysed, the analysis of
    the empty text is answered from the cache with its one statement. *)
Example cache_collision :
  hashCode (String "000" "") = hashCode "" /\
  exists this1 r,
    analyzeCode CodeAnalyzer.new (String "000" "") None = Normal (0, this1) /\
    analyzeCode this1 "" None = Normal (0, this1) /\
    heap this1 !! 0 = Some r /\
    length (statements (parsed r)) = 1.
Proof.
  split; [reflexivity | ].
  eexists _, _. split; [vm_compute; reflexivity | ].
  split; [vm_compute; reflexivity | ]. split; reflexivity.
Qed.

(** * The loop over the lines *)

Module LineFacts.
Import Regex CodeParser Vocabulary RegexFacts ParserFacts TokenFacts.

Lemma get_strDrop s : forall i,
  String.get i s = match strDrop i s with String a _ => Some a | EmptyString => None end.
Proof.
  induction s as [ | b s IH]; intros [ | i]; simpl; try reflexivity. apply IH.
Qed.

Lemma leadingSpaces_le s : leadingSpaces s <= String.length s.
Proof. induction s as [ | a s IH]; simpl; [lia | destruct (JS.isSpace a); simpl; lia]. Qed.

(** A greedy star of white space before a continuation that never fails
    takes the whole run. *)
Lemma iterate_spaces inp (k : cont) :
  (forall j c, is_Some (k j c)) ->
  forall fuel i c,
    leadingSpaces (strDrop i inp) <= fuel ->
    iterate (rmatch ws inp) true k fuel i c = k (i + leadingSpaces (strDrop i inp)) c.
Proof.
  intros Hk. induction fuel as [ | fuel IH]; intros i c Hf.
  - simpl. replace (leadingSpaces (strDrop i inp)) with 0 by lia.
    rewrite Nat.add_0_r. reflexivity.
  - cbn [iterate rmatch ws inClass]. rewrite get_strDrop.
    destruct (strDrop i inp) as [ | a t] eqn:E.
    + simpl. rewrite Nat.add_0_r. reflexivity.
    + cbn [leadingSpaces] in *. destruct (JS.isSpace a).
      * assert (Hlt : (i <? S i) = true) by (apply Nat.ltb_lt; lia). rewrite Hlt.
        apply strDrop_step in E. rewrite IH by (rewrite E; lia). rewrite E.
        replace (S i + leadingSpaces t) with (i + S (leadingSpaces t)) by lia.
        destruct (Hk (i + S (leadingSpaces t)) c) as [x ->]. reflexivity.
      * rewrite Nat.add_0_r. reflexivity.
Qed.

Lemma execFrom_here r inp fuel i j c :
  rmatch r inp i [] (fun j c => Some (j, c)) = Some (j, c) ->
  execFrom r inp fuel i = Some {| Regex.index := i; lastIndex := j; groups := c |}.
Proof. intros H. destruct fuel; simpl; rewrite H; reflexivity. Qed.

(** [getIndentation] counts the leading white space. *)
Lemma getIndentation_spec text : getIndentation text = Normal (leadingSpaces text).
Proof.
  unfold getIndentation, exec.
  rewrite (execFrom_here reIndentation text _ 0 (leadingSpaces text)
             [(1, String.substring 0 (leadingSpaces text) text)]).
  - unfold group. simpl. rewrite substring_length; [reflexivity | ].
    simpl. apply leadingSpaces_le.
  - unfold reIndentation, seq, star. cbn [foldr rmatch Nat.eqb].
    rewrite iterate_spaces.
    + simpl. rewrite Nat.sub_0_r. reflexivity.
    + intros j c. eauto.
    + simpl. apply leadingSpaces_le.
Qed.


Lemma analyzeLine_position this text ln ind s :
  usable (patterns this) -> analyzeLine this text ln ind = Normal s ->
  position s = (ln, text, ind).
Proof.
  intros Hu H.
  destruct (analyzeLine_total this text ln ind Hu) as (s' & H' & _ & Hl & Hi & Hc & _).
  rewrite H in H'. inversion H'; subst s'. unfold position. congruence.
Qed.

(** One turn of the loop over the lines, read backwards. *)
Lemma parseLine_inv this st text st' :
  usable (patterns this) ->
  parseLine this st text = Normal st' ->
  fst st' = S (fst st) /\
  if isStatementLine this text then
    exists s,
      classified this s /\
      position s = (S (fst st), JS.trim text, leadingSpaces text / 2) /\
      snd st' =
        {| a_language := a_language (snd st);
           totalLines := totalLines (snd st);
           statements := statements (snd st) ++ [s];
           a_variables := foldl (fun acc v => setAdd v acc) (a_variables (snd st)) (declared s);
           functions := if String.eqb (type s) "function"
                        then setAdd (name s) (functions (snd st))
                        else functions (snd st);
           controlStructures := if isControl (type s)
                                then controlStructures (snd st) ++ [s]
                                else controlStructures (snd st);
           complexity := if isControl (type s)
                         then S (complexity (snd st)) else complexity (snd st) |}
  else snd st' = snd st.
Proof.
  intros Hu. unfold parseLine, isStatementLine.
  destruct (JS.truthy (JS.trim text)); cbn [negb orb andb].
  2: { intros H. inversion H. simpl. auto. }
  destruct (isComment this (JS.trim text)); cbn [negb].
  { intros H. inversion H. simpl. auto. }
  rewrite getIndentation_spec. cbn [bind].
  destruct (analyzeLine this (JS.trim text) (S (fst st)) (leadingSpaces text / 2))
    as [s | e] eqn:E; cbn [bind]; [ | discriminate].
  intros H. inversion H. simpl. split; [reflexivity | ].
  exists s. split; [eexists _, _, _; exact E | ].
  split; [apply (analyzeLine_position _ _ _ _ _ Hu E) | ].
  unfold declared. destruct (variables s); reflexivity.
Qed.

Lemma parseLines_positions this :
  usable (patterns this) ->
  forall lines st st',
    parseLines this st lines = Normal st' ->
    position <$> statements (snd st')
    = (position <$> statements (snd st)) ++ positions this (S (fst st)) lines.
Proof.
  intros Hu. induction lines as [ | text rest IH]; intros st st' H; simpl in H.
  - inversion H. unfold positions. simpl. rewrite app_nil_r. reflexivity.
  - destruct (parseLine this st text) as [st1 | e] eqn:E; cbn [bind] in H; [ | discriminate].
    destruct (parseLine_inv this st text st1 Hu E) as [Hn Hs].
    rewrite (IH st1 st' H), Hn. unfold positions. simpl.
    destruct (isStatementLine this text) eqn:El.
    + destruct Hs as (s & _ & Hp & ->). simpl.
      rewrite filter_cons_True by (simpl; rewrite El; exact I).
      rewrite fmap_app, <- app_assoc. simpl. rewrite Hp. reflexivity.
    + rewrite Hs. rewrite filter_cons_False by (simpl; rewrite El; exact (fun F => F)).
      reflexivity.
Qed.

(** The line numbers of the statement lines are taken, in order, from
    the numbers of the lines. *)
Lemma positions_sublist this lines : forall n,
  sublist ((fun p => fst (fst p)) <$> positions this n lines) (List.seq n (length lines)).
Proof.
  unfold positions. induction lines as [ | text rest IH]; intros n; simpl.
  - constructor.
  - destruct (isStatementLine this text) eqn:El.
    + rewrite filter_cons_True by (simpl; rewrite El; exact I). simpl.
      apply sublist_skip, IH.
    + rewrite filter_cons_False by (simpl; rewrite El; exact (fun F => F)).
      apply sublist_cons, IH.
Qed.


Lemma setAdd_elem (x v : option string) s : x ∈ setAdd v s <-> x ∈ s \/ x = v.
Proof.
  unfold setAdd. destruct (bool_decide (v ∈ s)) eqn:E.
  - apply bool_decide_eq_true in E. split; [auto | intros [H | ->]; assumption].
  - rewrite elem_of_app, list_elem_of_singleton. reflexivity.
Qed.

Lemma setAdd_NoDup (v : option string) s : NoDup s -> NoDup (setAdd v s).
Proof.
  intros H. unfold setAdd. destruct (bool_decide (v ∈ s)) eqn:E; [exact H | ].
  apply bool_decide_eq_false in E. apply NoDup_app. split; [exact H | ].
  split; [ | apply NoDup_singleton].
  intros x Hx Hv. apply list_elem_of_singleton in Hv. subst x. contradiction.
Qed.

Lemma setAddAll_elem (vs : list (option string)) : forall s x,
  x ∈ foldl (fun acc v => setAdd v acc) s vs <-> x ∈ s \/ x ∈ vs.
Proof.
  induction vs as [ | v vs IH]; intros s x; simpl.
  - rewrite elem_of_nil. tauto.
  - rewrite IH, setAdd_elem, elem_of_cons. tauto.
Qed.

Lemma setAddAll_NoDup (vs : list (option string)) : forall s,
  NoDup s -> NoDup (foldl (fun acc v => setAdd v acc) s vs).
Proof.
  induction vs as [ | v vs IH]; intros s H; simpl; [exact H | ].
  apply IH, setAdd_NoDup, H.
Qed.

Lemma control_kinds ty :
  ty ∈ statementKinds -> isControl ty = bool_decide (ty ∈ ["if"; "for"; "while"]).
Proof.
  unfold statementKinds. rewrite !elem_of_cons, elem_of_nil.
  intros H. repeat (destruct H as [-> | H]; [reflexivity | ]). contradiction.
Qed.

(** Recording a statement keeps the books. *)
Lemma bookkeeping_step a s a' :
  type s ∈ statementKinds ->
  bookkeeping a ->
  statements a' = statements a ++ [s] ->
  a_variables a' = foldl (fun acc v => setAdd v acc) (a_variables a) (declared s) ->
  functions a' = (if String.eqb (type s) "function"
                  then setAdd (name s) (functions a) else functions a) ->
  controlStructures a' = (if isControl (type s)
                          then controlStructures a ++ [s] else controlStructures a) ->
  complexity a' = (if isControl (type s) then S (complexity a) else complexity a) ->
  bookkeeping a'.
Proof.
  intros Hk (Hc & Hn & Hv & Hf & Hvs & Hfs) Es Ev Ef Ec En.
  rewrite (control_kinds _ Hk) in Ec, En.
  unfold bookkeeping. rewrite Es, Ev, Ef, Ec, En. clear Es Ev Ef Ec En.
  split; [ | split; [ | split; [ | split; [ | split]]]].
  - rewrite filter_app, <- Hc.
    destruct (decide (type s ∈ ["if"; "for"; "while"])) as [Hin | Hout].
    + rewrite bool_decide_eq_true_2 by exact Hin.
      rewrite filter_cons_True by exact Hin. reflexivity.
    + rewrite bool_decide_eq_false_2 by exact Hout.
      rewrite filter_cons_False by exact Hout. simpl. rewrite app_nil_r. reflexivity.
  - destruct (bool_decide _); [rewrite length_app; simpl; lia | exact Hn].
  - apply setAddAll_NoDup, Hv.
  - destruct (String.eqb _ _); [apply setAdd_NoDup, Hf | exact Hf].
  - intros v. rewrite setAddAll_elem, Hvs. split.
    + intros [(s0 & Hs0 & Hv0) | Hd].
      * exists s0. rewrite elem_of_app. auto.
      * exists s. rewrite elem_of_app, list_elem_of_singleton. auto.
    + intros (s0 & Hs0 & Hv0). apply elem_of_app in Hs0 as [Hs0 | Hs0].
      * left. eauto.
      * apply list_elem_of_singleton in Hs0. subst s0. auto.
  - intros f. destruct (String.eqb (type s) "function") eqn:E.
    + apply String.eqb_eq in E. rewrite setAdd_elem, Hfs. split.
      * intros [(s0 & Hs0 & Hf0) | ->].
        -- exists s0. rewrite elem_of_app. auto.
        -- exists s. rewrite elem_of_app, list_elem_of_singleton. auto.
      * intros (s0 & Hs0 & Ht0 & Hf0). apply elem_of_app in Hs0 as [Hs0 | Hs0].
        -- left. eauto.
        -- apply list_elem_of_singleton in Hs0. subst s0. auto.
    + apply String.eqb_neq in E. rewrite Hfs. split.
      * intros (s0 & Hs0 & Hf0). exists s0. rewrite elem_of_app. auto.
      * intros (s0 & Hs0 & Ht0 & Hf0). apply elem_of_app in Hs0 as [Hs0 | Hs0].
        -- eauto.
        -- apply list_elem_of_singleton in Hs0. subst s0. contradiction.
Qed.

Lemma parseLines_bookkeeping this :
  usable (patterns this) ->
  forall lines st st',
    parseLines this st lines = Normal st' ->
    bookkeeping (snd st) ->
    bookkeeping (snd st') /\ a_language (snd st') = a_language (snd st).
Proof.
  intros Hu. induction lines as [ | text rest IH]; intros st st' H Hb; simpl in H.
  - inversion H. subst. auto.
  - destruct (parseLine this st text) as [st1 | e] eqn:E; cbn [bind] in H; [ | discriminate].
    destruct (parseLine_inv this st text st1 Hu E) as [_ Hs].
    destruct (isStatementLine this text).
    + destruct Hs as (s & Hc & _ & Hst).
      destruct (IH st1 st' H) as [Hb' Hl'].
      * destruct (classified_facts this s Hu Hc) as (Hk & _).
        apply (bookkeeping_step (snd st) s); [exact Hk | exact Hb | rewrite Hst; reflexivity ..].
      * split; [exact Hb' | ]. rewrite Hl', Hst. reflexivity.
    + rewrite <- Hs. apply (IH _ _ H). rewrite Hs. exact Hb.
Qed.

End LineFacts.

Import LineFacts.

(** X1.  Where the statements come from.  For every profile name but an
    inherited property name, [parseCode] returns, and its statements are those
    of the lines that are neither blank nor comments, in order: each one
    carries the 1-based number of its line, the trimmed text of the line, and
    as indentation level half the number of white-space characters the line
    starts with, rounded down.  The line numbers are taken in increasing order
    from 1 to [totalLines]. *)
Theorem statement_positions (language source : string) :
  existsb (String.eqb language) inheritedKeys = false ->
  exists a,
    parseCode (CodeParser.new language) source = Normal a /\
    position <$> statements a
    = positions (CodeParser.new language) 1 (JS.split "010" source) /\
    sublist (line <$> statements a) (List.seq 1 (totalLines a)).
Proof.
  intros Hk. pose proof (usable_profile language Hk) as Hu.
  destruct (parseCode_spec _ source Hu) as (a & Ha & _ & Ht & _).
  exists a. split; [exact Ha | ].
  unfold parseCode in Ha.
  destruct (parseLines _ _ _) as [st | e] eqn:E; cbn [bind] in Ha; [ | discriminate].
  inversion Ha; subst a. clear Ha.
  pose proof (parseLines_positions _ Hu _ _ _ E) as Hp. simpl in Hp.
  split; [exact Hp | ].
  rewrite Ht.
  replace (line <$> statements (snd st))
    with ((fun p : nat * string * nat => fst (fst p)) <$> (position <$> statements (snd st))).
  - rewrite Hp. apply positions_sublist.
  - rewrite <- list_fmap_compose. reflexivity.
Qed.

Lemma statement_positions_witness :
  exists a,
    parseCode (CodeParser.new "python") (unlines ["if x:"; ""; "    y = 1"]) = Normal a /\
    position <$> statements a
    = positions (CodeParser.new "python") 1
        (JS.split "010" (unlines ["if x:"; ""; "    y = 1"])) /\
    sublist (line <$> statements a) (List.seq 1 (totalLines a)).
Proof. apply (statement_positions "python"). reflexivity. Defined.

(** X2.  The books of the analysis object.  For every profile name but an
    inherited property name, the object [parseCode] returns names the language
    it was asked for; its control structures are its conditional and loop
    statements, in order, and its complexity is their number; its two sets
    have no duplicates, the variables being the names its statements declare
    and the functions the names of its function statements. *)
Theorem parse_bookkeeping (language source : string) :
  existsb (String.eqb language) inheritedKeys = false ->
  exists a,
    parseCode (CodeParser.new language) source = Normal a /\
    a_language a = language /\
    bookkeeping a.
Proof.
  intros Hk. pose proof (usable_profile language Hk) as Hu.
  destruct (parseCode_spec _ source Hu) as (a & Ha & _).
  exists a. split; [exact Ha | ].
  unfold parseCode in Ha.
  destruct (parseLines _ _ _) as [st | e] eqn:E; cbn [bind] in Ha; [ | discriminate].
  inversion Ha; subst a. clear Ha.
  destruct (parseLines_bookkeeping _ Hu _ _ _ E) as [Hb Hl].
  - simpl. unfold bookkeeping. simpl.
    split; [reflexivity | split; [reflexivity | ]].
    split; [constructor | split; [constructor | ]].
    split; intros x; rewrite elem_of_nil; split; try contradiction.
    + intros (s & Hs & _). inversion Hs.
    + intros (s & Hs & _). inversion Hs.
  - split; [rewrite Hl; reflexivity | exact Hb].
Qed.

Lemma parse_bookkeeping_witness :
  exists a,
    parseCode (CodeParser.new "javascript")
      (unlines ["function f(n) {"; "  let x = 1;"; "  while (x < n) {"; "    x = x + x;"])
    = Normal a /\
    a_language a = "javascript" /\
    bookkeeping a.
Proof. apply (parse_bookkeeping "javascript"). reflexivity. Defined.

(** * The execution steps, the hash and the cache *)

Module KeyFacts.
Import Regex CodeParser CodeAnalyzer Vocabulary CacheFacts.

(** What one step takes from its statement. *)
Lemma createExecutionStep_spec s k :
  let step := createExecutionStep s k in
  stepNumber step = k /\ es_type step = type s /\
  (es_line step, es_code step, es_indent step) = position s /\
  weighted step /\
  length (memoryChanges step) <= 1 /\
  category step ∈ stepCategories.
Proof.
  assert (Hw : forall step, es_type step = type s ->
                            es_complexity step = getStatementComplexity s ->
                            weighted step).
  { intros step Ht Hc. unfold weighted. rewrite Hc, Ht.
    unfold getStatementComplexity, lookupOr, complexityMap.
    repeat match goal with
           | |- context [if type s == ?k then _ else _] =>
               let E := fresh "E" in
               destruct (type s == k) eqn:E;
               [apply String.eqb_eq in E; rewrite E; simpl; eexists; split;
                [reflexivity | lia] | ]
           end.
    destruct (existsb (String.eqb (type s)) inheritedKeys); [reflexivity | ].
    eexists. split; [reflexivity | lia]. }
  unfold createExecutionStep, position, stepCategories.
  repeat match goal with
         | |- context [if ?b then _ else _] => destruct b
         end;
    cbv zeta; (split; [reflexivity | split; [reflexivity | split; [reflexivity | ]]]);
    (split; [apply Hw; reflexivity | ]);
    (split; [simpl; lia | apply list_elem_of_In; simpl; tauto]).
Qed.

Lemma stepsFrom_spec stmts : forall k,
  stepNumber <$> stepsFrom k stmts = List.seq k (length stmts) /\
  es_type <$> stepsFrom k stmts = type <$> stmts /\
  (fun step => (es_line step, es_code step, es_indent step)) <$> stepsFrom k stmts
  = position <$> stmts /\
  Forall (fun step => weighted step /\
                      length (memoryChanges step) <= 1 /\
                      category step ∈ stepCategories)
         (stepsFrom k stmts).
Proof.
  induction stmts as [ | s rest IH]; intros k.
  - repeat split; constructor.
  - destruct (IH (S k)) as (H1 & H2 & H3 & H4).
    destruct (createExecutionStep_spec s k) as (E1 & E2 & E3 & E4).
    cbn [stepsFrom length List.seq]. rewrite !fmap_cons, H1, H2, H3, E1, E2, E3.
    repeat split. constructor; [exact E4 | exact H4].
Qed.

(** The rolling hash is the polynomial, wrapped to 32 bits. *)
Lemma hashFrom_poly s : forall h g,
  (-2147483648 <= h < 2147483648)%Z ->
  ((h - g) mod 4294967296 = 0)%Z ->
  hashFrom h s = JS.toInt32 (polyHash g s).
Proof.
  induction s as [ | a s IH]; intros h g Hr Hc; simpl.
  - unfold JS.toInt32. Z.div_mod_to_equations. lia.
  - apply IH; rewrite hashStep_rolling; unfold JS.toInt32.
    + Z.div_mod_to_equations. lia.
    + generalize (Z.of_nat (JS.code a)). intros c. Z.div_mod_to_equations. lia.
Qed.

Lemma toInt32_eq x y :
  JS.toInt32 x = JS.toInt32 y <-> ((x - y) mod 4294967296 = 0)%Z.
Proof. unfold JS.toInt32. split; intros H; Z.div_mod_to_equations; lia. Qed.

Lemma toInt32_range x : (-2147483648 <= JS.toInt32 x < 2147483648)%Z.
Proof. unfold JS.toInt32. Z.div_mod_to_equations. lia. Qed.


Lemma pretty_N_char_digit x : JS.isDigit (pretty_N_char x) = true.
Proof.
  unfold pretty_N_char. destruct x as [ | p]; [reflexivity | ].
  do 4 (try destruct p as [p | p | ]; try reflexivity).
Qed.

Lemma pretty_N_go_digits x : forall s,
  allDigits s = true -> allDigits (pretty_N_go x s) = true.
Proof.
  induction (N.lt_wf_0 x) as [x _ IH]; intros s Hs.
  destruct (decide (x = 0%N)) as [-> | Hx].
  - rewrite pretty_N_go_0. exact Hs.
  - rewrite pretty_N_go_step by lia. apply IH.
    + apply N.div_lt; lia.
    + simpl. rewrite pretty_N_char_digit. exact Hs.
Qed.

Lemma pretty_N_digits (x : N) : allDigits (pretty x) = true.
Proof.
  unfold pretty, pretty_N. destruct (decide (x = 0%N)); [reflexivity | ].
  apply pretty_N_go_digits. reflexivity.
Qed.

Lemma pretty_nat_digits (n : nat) : allDigits (pretty n) = true.
Proof. apply pretty_N_digits. Qed.

Lemma digits_without x s :
  JS.isDigit x = false -> allDigits s = true -> occurs x s = false.
Proof.
  intros Hx. induction s as [ | a s IH]; simpl; [reflexivity | ].
  intros H. apply andb_true_iff in H as [Ha Hs]. rewrite (IH Hs), orb_false_r.
  apply Ascii.eqb_neq. intros ->. congruence.
Qed.

Lemma pretty_Z_no_colon (z : Z) : occurs ":" (pretty z) = false.
Proof.
  destruct z as [ | p | p]; unfold pretty, pretty_Z; [reflexivity | | ].
  - apply digits_without; [reflexivity | apply (pretty_N_digits (Npos p))].
  - simpl. apply digits_without; [reflexivity | apply (pretty_N_digits (Npos p))].
Qed.

(** A key splits at its last colon. *)
Lemma key_split l1 : forall l2 p1 p2,
  occurs ":" p1 = false -> occurs ":" p2 = false ->
  l1 +:+ ":" +:+ p1 = l2 +:+ ":" +:+ p2 -> l1 = l2 /\ p1 = p2.
Proof.
  assert (Hno : forall l p q, occurs ":" p = false -> p <> l +:+ ":" +:+ q).
  { intros l p q Hp ->. revert Hp. induction l as [ | a l IH]; simpl.
    - discriminate.
    - intros H. apply orb_false_iff in H as [_ H]. apply IH, H. }
  induction l1 as [ | a l1 IH]; intros [ | b l2] p1 p2 H1 H2 H; simpl in H.
  - injection H as H. auto.
  - injection H as _ H. destruct (Hno l2 p1 p2 H1 H).
  - injection H as _ H. symmetry in H. destruct (Hno l1 p2 p1 H2 H).
  - injection H as -> H. destruct (IH l2 p1 p2 H1 H2 H) as [-> ->]. auto.
Qed.

(** The keys the statistics list are the keys the cache maps. *)
Lemma stats_keys this key :
  key ∈ (getCacheStats this).2 <-> is_Some (analysisCache this !! key).
Proof.
  unfold getCacheStats. cbn [snd]. rewrite list_elem_of_fmap. split.
  - intros ([k r] & -> & H). apply elem_of_map_to_list in H. simpl. eauto.
  - intros [r H]. exists (key, r). split; [reflexivity | ].
    apply elem_of_map_to_list. exact H.
Qed.

End KeyFacts.

Import KeyFacts.

(** X3.  The execution steps mirror the statements: there is one step for
    every statement, in order; the steps are numbered 1, 2, 3, ... without a
    gap; a step has the type, the line number, the text and the indentation
    level of its statement, at most one memory change, and one of the four
    categories.  Its weight is a number between 1 and 3, unless its type is
    a name the table of the weights inherits from [Object.prototype]: the
    weight is then the inherited property, and no number. *)
Theorem steps_mirror_statements (a : Analysis) :
  let steps := generateExecutionSteps a in
  stepNumber <$> steps = List.seq 1 (length (statements a)) /\
  es_type <$> steps = type <$> statements a /\
  (fun step => (es_line step, es_code step, es_indent step)) <$> steps
  = position <$> statements a /\
  Forall (fun step => weighted step /\
                      length (memoryChanges step) <= 1 /\
                      category step ∈ stepCategories)
         steps.
Proof. apply stepsFrom_spec. Qed.

(** X4.  The hash of the cache key is the polynomial of base 31 in the code
    units of the text, first character first, wrapped to the signed 32-bit
    range; so two texts have the same hash exactly when their polynomials
    differ by a multiple of 2^32. *)
Theorem hashCode_polynomial (s t : string) :
  hashCode s = JS.toInt32 (polyHash 0 s) /\
  (-2147483648 <= hashCode s < 2147483648)%Z /\
  (hashCode s = hashCode t <-> ((polyHash 0 s - polyHash 0 t) mod 4294967296 = 0)%Z).
Proof.
  assert (H : forall u, hashCode u = JS.toInt32 (polyHash 0 u)).
  { intros u. apply hashFrom_poly; [lia | reflexivity]. }
  rewrite !H. split; [reflexivity | ]. split; [apply toInt32_range | apply toInt32_eq].
Qed.

(** X5.  Two requests share a cache key exactly when they name the same
    language and their texts have the same hash: the language never runs into
    the digits of the hash, whatever characters it has. *)
Theorem cacheKey_injective (source1 language1 source2 language2 : string) :
  cacheKey source1 language1 = cacheKey source2 language2
  <-> language1 = language2 /\ hashCode source1 = hashCode source2.
Proof.
  unfold cacheKey. split.
  - intros H. apply key_split in H; try apply pretty_Z_no_colon.
    destruct H as [Hl Hp]. split; [exact Hl | ]. apply (inj pretty), Hp.
  - intros [-> ->]. reflexivity.
Qed.

(** X6.  The cache only grows.  For every language name but an inherited
    property name, [analyzeCode] returns a reference; afterwards every key
    cached before is cached with the reference it had, every object allocated
    before is where it was, the key of the request is among the keys the
    statistics list, and the size the statistics report has grown by one if
    the key was not listed before and not at all if it was.  Clearing the
    cache empties the statistics and leaves the objects alone. *)
Theorem cache_only_grows (this : Analyzer) (source : string) (lang : option string) :
  let language := default "javascript" lang in
  existsb (String.eqb language) inheritedKeys = false ->
  exists ref this',
    analyzeCode this source lang = Normal (ref, this') /\
    (forall key r, analysisCache this !! key = Some r ->
                   analysisCache this' !! key = Some r) /\
    (forall i r, heap this !! i = Some r -> heap this' !! i = Some r) /\
    cacheKey source language ∈ (getCacheStats this').2 /\
    (getCacheStats this').1
    = (getCacheStats this).1
      + (if bool_decide (cacheKey source language ∈ (getCacheStats this).2)
         then 0 else 1) /\
    getCacheStats (clearCache this') = (0, []) /\
    heap (clearCache this') = heap this'.
Proof.
  intros language Hk. pose proof (usable_profile language Hk) as Hu.
  unfold analyzeCode. fold language.
  destruct (analysisCache this !! cacheKey source language) as [ref | ] eqn:E.
  - exists ref, this. split; [reflexivity | ]. split; [auto | ]. split; [auto | ].
    assert (Hin : cacheKey source language ∈ (getCacheStats this).2).
    { apply stats_keys. rewrite E. eauto. }
    split; [exact Hin | ]. rewrite bool_decide_eq_true_2 by exact Hin.
    split; [lia | ]. split; reflexivity.
  - destruct (freshAnalysis_total source language Hu) as [r ->]. cbn [bind].
    eexists _, _. split; [reflexivity | ].
    split.
    { intros key r0 H. cbn [analysisCache]. rewrite lookup_insert_ne; [exact H | ].
      intros <-. congruence. }
    split.
    { intros i r0 H. cbn [heap]. apply lookup_app_l_Some, H. }
    split.
    { apply stats_keys. cbn [analysisCache]. rewrite lookup_insert_eq. eauto. }
    split; [ | split; reflexivity].
    rewrite bool_decide_eq_false_2.
    + unfold getCacheStats. cbn [fst analysisCache].
      rewrite map_size_insert_None by exact E. lia.
    + intros Hin. apply stats_keys in Hin. rewrite E in Hin. destruct Hin. discriminate.
Qed.

Lemma cache_only_grows_witness :
  exists ref this',
    analyzeCode CodeAnalyzer.new "let x = 1;" (Some "java") = Normal (ref, this') /\
    (forall key r, analysisCache CodeAnalyzer.new !! key = Some r ->
                   analysisCache this' !! key = Some r) /\
    (forall i r, heap CodeAnalyzer.new !! i = Some r -> heap this' !! i = Some r) /\
    cacheKey "let x = 1;" "java" ∈ (getCacheStats this').2 /\
    (getCacheStats this').1
    = (getCacheStats CodeAnalyzer.new).1
      + (if bool_decide (cacheKey "let x = 1;" "java" ∈ (getCacheStats CodeAnalyzer.new).2)
         then 0 else 1) /\
    getCacheStats (clearCache this') = (0, []) /\
    heap (clearCache this') = heap this'.
Proof. apply (cache_only_grows CodeAnalyzer.new "let x = 1;" (Some "java")). reflexivity. Defined.

(** * The insights *)

Module InsightFacts.
Import Regex CodeParser CodeAnalyzer Vocabulary ParserFacts MetricFacts CacheFacts LineFacts KeyFacts.

(** All that the loop over the lines establishes. *)
Lemma parseCode_full language source :
  existsb (String.eqb language) inheritedKeys = false ->
  let this := CodeParser.new language in
  usable (CodeParser.patterns this) /\
  exists a,
    parseCode this source = Normal a /\
    position <$> statements a = positions this 1 (JS.split "010" source) /\
    sublist (line <$> statements a) (List.seq 1 (totalLines a)) /\
    totalLines a = length (JS.split "010" source) /\
    Forall (classified this) (statements a) /\
    Forall is_Some (functions a) /\
    bookkeeping a.
Proof.
  intros Hk this. pose proof (usable_profile language Hk) as Hu. split; [exact Hu | ].
  destruct (parseCode_spec this source Hu) as (a & Ha & _ & Ht & Hc & Hf).
  exists a. split; [exact Ha | ].
  unfold parseCode in Ha.
  destruct (parseLines _ _ _) as [st | e] eqn:E; cbn [bind] in Ha; [ | discriminate].
  inversion Ha; subst a. clear Ha.
  pose proof (parseLines_positions _ Hu _ _ _ E) as Hp. simpl in Hp.
  split; [exact Hp | ]. split.
  { rewrite Ht.
    replace (line <$> statements (snd st))
      with ((fun p : nat * string * nat => fst (fst p)) <$> (position <$> statements (snd st))).
    - rewrite Hp. apply positions_sublist.
    - rewrite <- list_fmap_compose. reflexivity. }
  split; [exact Ht | ]. split; [exact Hc | ]. split; [exact Hf | ].
  apply (parseLines_bookkeeping _ Hu _ _ _ E).
  unfold bookkeeping. simpl.
  split; [reflexivity | split; [reflexivity | ]].
  split; [constructor | split; [constructor | ]].
  split; intros x; rewrite elem_of_nil; split; try contradiction.
  - intros (s & Hs & _). inversion Hs.
  - intros (s & Hs & _). inversion Hs.
Qed.

Lemma joined_app o l1 l2 : joined (joined o l1) l2 = joined o (l1 ++ l2).
Proof.
  destruct l1 as [ | e1 l1]; [reflexivity | ].
  destruct l2 as [ | e2 l2]; simpl.
  - rewrite app_nil_r. reflexivity.
  - rewrite <- app_assoc. reflexivity.
Qed.

Lemma flow_names (ev : FlowEvent) (vs : list (option string)) :
  forall (flow : gmap (option string) (list FlowEvent)) v,
    foldl (fun flow w => <[w := default [] (flow !! w) ++ [ev]]> flow) flow vs !! v
    = joined (flow !! v) ((fun _ => ev) <$> filter (fun w => w = v) vs).
Proof.
  induction vs as [ | w vs IH]; intros flow v; [reflexivity | ].
  cbn [foldl]. rewrite IH. destruct (decide (w = v)) as [-> | Hne].
  - rewrite filter_cons_True by reflexivity. rewrite lookup_insert_eq.
    rewrite fmap_cons. change (joined (Some (default [] (flow !! v) ++ [ev])) ?l)
      with (joined (joined (flow !! v) [ev]) l).
    rewrite joined_app. reflexivity.
  - rewrite filter_cons_False by exact Hne. rewrite lookup_insert_ne by exact Hne.
    reflexivity.
Qed.

Lemma flow_statements stmts :
  forall (flow : gmap (option string) (list FlowEvent)) v,
    foldl (fun flow statement =>
             match variables statement with
             | Some vs =>
                 foldl (fun flow v =>
                          <[v := default [] (flow !! v)
                                 ++ [{| fe_line := line statement;
                                        fe_type := type statement;
                                        fe_action :=
                                          if type statement == "variable"
                                          then "declare" else "modify" |}]]> flow)
                       flow vs
             | None => flow
             end) flow stmts !! v
    = joined (flow !! v) (eventsOf v stmts).
Proof.
  induction stmts as [ | s rest IH]; intros flow v; [reflexivity | ].
  cbn [foldl]. rewrite IH. unfold eventsOf. cbn [flat_map]. rewrite <- joined_app.
  f_equal. unfold declared. destruct (variables s) as [vs | ]; [ | reflexivity].
  apply (flow_names (flowEvent s)).
Qed.

Lemma eventsOf_nil v stmts :
  eventsOf v stmts = [] <-> ~ exists s, s ∈ stmts /\ v ∈ declared s.
Proof.
  unfold eventsOf. induction stmts as [ | s rest IH]; cbn [flat_map].
  - split; [ | reflexivity]. intros _ (s & Hs & _). inversion Hs.
  - split.
    + intros H. apply app_eq_nil in H as [H1 H2]. apply fmap_nil_inv in H1.
      intros (s0 & Hs0 & Hv). apply elem_of_cons in Hs0 as [-> | Hs0].
      * assert (Hin : v ∈ filter (fun w => w = v) (declared s)).
        { apply list_elem_of_filter. auto. }
        rewrite H1 in Hin. inversion Hin.
      * apply IH in H2. apply H2. eauto.
    + intros H. apply app_nil. split.
      * destruct (filter (fun w => w = v) (declared s)) as [ | w l] eqn:E; [reflexivity | ].
        exfalso. apply H. exists s. split; [left | ].
        assert (Hin : w ∈ filter (fun w => w = v) (declared s)) by (rewrite E; left).
        apply list_elem_of_filter in Hin as [-> Hin]. exact Hin.
      * apply IH. intros (s0 & Hs0 & Hv). apply H. exists s0. split; [right | ]; assumption.
Qed.

(** A map whose keys are the elements of a list without duplicates has
    as many entries as the list has elements. *)
Lemma size_keys {V} (m : gmap (option string) V) (l : list (option string)) :
  NoDup l -> (forall k, k ∈ l <-> is_Some (m !! k)) -> size m = length l.
Proof.
  intros Hn Hk. rewrite <- size_dom, <- (size_list_to_set (C := gset (option string)) l Hn).
  f_equal. apply set_eq. intros k. rewrite elem_of_dom, elem_of_list_to_set. symmetry. apply Hk.
Qed.


Lemma exists_count {X} (f : X -> bool) (l : list X) :
  existsb f l = (0 <? length (filter (fun x => f x) l)).
Proof.
  induction l as [ | x l IH]; [reflexivity | ].
  rewrite length_filter_cons. simpl. rewrite IH. destruct (f x); reflexivity.
Qed.

Lemma smells_kind a :
  Forall (fun p => p_type p = "long_parameter_list") (identifyCodeSmells a).
Proof.
  unfold identifyCodeSmells. induction (statements a) as [ | s rest IH]; [constructor | ].
  cbn [omap list_omap].
  destruct ((type s == "function") && JS.includes (code s) ","); [ | exact IH].
  destruct (5 <? length (matchAll reComma (code s)) + 1); [ | exact IH].
  constructor; [reflexivity | exact IH].
Qed.

Lemma smells_filter a t :
  t = "recursion" \/ t = "nested_loops" ->
  filter (fun p => p_type p == t) (identifyCodeSmells a) = [].
Proof.
  intros Ht. pose proof (smells_kind a) as Hk.
  induction Hk as [ | p l Hp _ IH]; [reflexivity | ].
  rewrite filter_cons_False; [exact IH | ].
  rewrite Hp. destruct Ht as [-> | ->]; exact (fun F => F).
Qed.

(** Among the patterns of an analysis, those of the two algorithm kinds
    come from [identifyAlgorithmPatterns]. *)
Lemma algorithm_patterns a pats t :
  t = "recursion" \/ t = "nested_loops" ->
  identifyPatterns a = Normal pats ->
  filter (fun p => p_type p == t) pats
  = filter (fun p => p_type p == t) (identifyAlgorithmPatterns a).
Proof.
  intros Ht. unfold identifyPatterns, identifyDesignPatterns.
  destruct (someName _ _) as [b1 | ]; cbn [bind]; [ | discriminate].
  destruct (someName _ _) as [b2 | ]; cbn [bind]; [ | discriminate].
  intros H. inversion H. clear H. rewrite !filter_app.
  rewrite (smells_filter a t Ht).
  destruct Ht as [-> | ->]; destruct b1, b2; reflexivity.
Qed.

Lemma algorithm_flags a :
  (0 <? length (filter (fun p => p_type p == "nested_loops") (identifyAlgorithmPatterns a)))
  = hasNestedLoops (statements a) /\
  (0 <? length (filter (fun p => p_type p == "recursion") (identifyAlgorithmPatterns a)))
  = (0 <? length (findRecursiveFunctions a)).
Proof.
  unfold identifyAlgorithmPatterns.
  destruct (hasNestedLoops (statements a)); destruct (0 <? length (findRecursiveFunctions a));
    split; reflexivity.
Qed.

Lemma hasNestedLoops_spec stmts :
  hasNestedLoops stmts = true <-> deeperForLater stmts.
Proof.
  unfold deeperForLater. induction stmts as [ | s rest IH]; cbn [hasNestedLoops].
  - split; [discriminate | ]. intros (i & j & s1 & s2 & _ & H & _). inversion H.
  - rewrite orb_true_iff, andb_true_iff, IH. split.
    + intros [[Hs He] | (i & j & s1 & s2 & Hlt & H1 & H2 & F)].
      * apply existsb_exists in He as (s2 & Hin & H2).
        apply list_elem_of_In, list_elem_of_lookup in Hin as [j Hj].
        apply andb_true_iff in H2 as [Ht Hi].
        exists 0, (S j), s, s2. repeat split; try assumption; try lia.
        -- apply String.eqb_eq, Hs.
        -- apply String.eqb_eq, Ht.
        -- apply Nat.ltb_lt, Hi.
      * exists (S i), (S j), s1, s2. repeat split; try tauto. lia.
    + intros (i & j & s1 & s2 & Hlt & H1 & H2 & Ht1 & Ht2 & Hi).
      destruct j as [ | j]; [lia | ]. destruct i as [ | i].
      * left. simpl in H1, H2. injection H1 as ->. split; [apply String.eqb_eq, Ht1 | ].
        apply existsb_exists. exists s2. split.
        -- apply list_elem_of_In, list_elem_of_lookup. eauto.
        -- apply andb_true_iff. split; [apply String.eqb_eq, Ht2 | apply Nat.ltb_lt, Hi].
      * right. exists i, j, s1, s2. simpl in H1, H2. repeat split; try assumption. lia.
Qed.

Lemma recursive_spec a :
  bookkeeping a ->
  (0 <? length (findRecursiveFunctions a)) = true <-> callsDefined (statements a).
Proof.
  intros (_ & _ & _ & _ & _ & Hf). unfold findRecursiveFunctions, callsDefined.
  rewrite Nat.ltb_lt. split.
  - intros H. destruct (filter _ (functions a)) as [ | f l] eqn:E; [simpl in H; lia | ].
    assert (Hin : f ∈ filter
              (fun funcName =>
                 0 <? length (filter (fun s => (type s == "call")
                                               && bool_decide (function s = funcName))
                                     (statements a))) (functions a)) by (rewrite E; left).
    apply list_elem_of_filter in Hin as [Hc Hin]. apply Is_true_true, Nat.ltb_lt in Hc.
    destruct (filter _ (statements a)) as [ | c l'] eqn:E'; [simpl in Hc; lia | ].
    assert (Hin' : c ∈ filter (fun s => (type s == "call") && bool_decide (function s = f))
                               (statements a)) by (rewrite E'; left).
    apply list_elem_of_filter in Hin' as [Hc' Hin'].
    apply Is_true_true, andb_true_iff in Hc' as [Ht Hn].
    apply String.eqb_eq in Ht. apply bool_decide_eq_true in Hn.
    apply Hf in Hin as (s & Hs & Hts & Hns).
    exists s, c. repeat split; try assumption. congruence.
  - intros (s & c & Hs & Hc & Hts & Htc & Hn).
    assert (Hin : name s ∈ filter
              (fun funcName =>
                 0 <? length (filter (fun s => (type s == "call")
                                               && bool_decide (function s = funcName))
                                     (statements a))) (functions a)).
    { apply list_elem_of_filter. split; [ | apply Hf; eauto].
      apply Is_true_true, Nat.ltb_lt.
      assert (Hin' : c ∈ filter (fun s0 => (type s0 == "call")
                                            && bool_decide (function s0 = name s))
                                 (statements a)).
      { apply list_elem_of_filter. split; [ | exact Hc].
        apply Is_true_true, andb_true_iff. split.
        - apply String.eqb_eq, Htc.
        - apply bool_decide_eq_true, Hn. }
      destruct (filter _ (statements a)); [inversion Hin' | simpl; lia]. }
    destruct (filter _ (functions a)); [inversion Hin | simpl; lia].
Qed.


(** The text of a label of degree four or more has neither superscript. *)
Lemma digits_plain (x : ascii) t :
  allDigits t = true -> JS.includes (t +:+ ")") (String "n" (String x "")) = false.
Proof.
  induction t as [ | a t IH]; [reflexivity | ].
  intros H. simpl in H. apply andb_true_iff in H as [Ha Ht].
  change (String a t +:+ ")") with (String a (t +:+ ")")).
  cbn [JS.includes String.prefix]. rewrite (IH Ht).
  destruct (ascii_dec "n" a) as [<- | _]; [discriminate Ha | reflexivity].
Qed.

Lemma label_superscripts n :
  JS.includes (complexityLabel n) ("n" +:+ superscript2)
  || JS.includes (complexityLabel n) ("n" +:+ superscript3)
  = (n =? 2) || (n =? 3).
Proof.
  do 4 (destruct n as [ | n]; [reflexivity | ]).
  change (complexityLabel (S (S (S (S n)))))
    with ("O(n^" +:+ (pretty (S (S (S (S n)))) +:+ ")")).
  change ("n" +:+ superscript2) with (String "n" (String (ascii_of_nat 178) "")).
  change ("n" +:+ superscript3) with (String "n" (String (ascii_of_nat 179) "")).
  set (t := pretty (S (S (S (S n))))).
  change ("O(n^" +:+ (t +:+ ")"))
    with (String "O" (String "(" (String "n" (String "^" (t +:+ ")"))))).
  cbn [JS.includes String.prefix].
  rewrite !digits_plain by apply pretty_nat_digits. reflexivity.
Qed.

(** The loop of [analyzeFunctionLengths], closed at the end. *)
Lemma lengths_spans total stmts : forall done cur,
  (let '(d, c) := foldl lengthStep (done, cur) stmts in
   match c with
   | Some f => d ++ [closeFunction f total]
   | None => d
   end)
  = done
    ++ match cur with
       | Some f =>
           [closeFunction f
              (match filter (fun s => type s = "function") stmts with
               | [] => total
               | g :: _ => line g
               end)]
       | None => []
       end
    ++ spans (filter (fun s => type s = "function") stmts) total.
Proof.
  induction stmts as [ | s rest IH]; intros done cur.
  - simpl. destruct cur; simpl; rewrite ?app_nil_r; reflexivity.
  - cbn [foldl]. unfold lengthStep at 2.
    destruct (type s == "function") eqn:E.
    + apply String.eqb_eq in E. rewrite filter_cons_True by exact E.
      rewrite IH. cbn [spans]. destruct cur as [f | ].
      * rewrite <- app_assoc. reflexivity.
      * reflexivity.
    + apply String.eqb_neq in E. rewrite filter_cons_False by exact E. apply IH.
Qed.

(** A selection of consecutive numbers, read from its head. *)
Lemma sublist_seq l : forall n k,
  sublist l (List.seq n k) ->
  match l with
  | [] => True
  | x :: l' => n <= x < n + k /\ sublist l' (List.seq (S x) (n + k - S x))
  end.
Proof.
  intros n k. revert n. induction k as [ | k IH]; intros n H; simpl in H.
  - apply sublist_nil_r in H. subst l. exact I.
  - destruct l as [ | x l']; [exact I | ].
    apply sublist_cons_r in H as [H | (l'' & Hl & H)].
    + specialize (IH (S n) H). simpl in IH. destruct IH as [Hx Hs].
      split; [lia | ]. replace (n + S k - S x) with (S n + k - S x) by lia. exact Hs.
    + injection Hl as -> ->. split; [lia | ].
      replace (n + S k - S n) with k by lia. exact H.
Qed.

Lemma spans_bounds total fs : forall n,
  sublist (line <$> fs) (List.seq n (S total - n)) -> n <= S total ->
  Forall (fun f => (0 <= fl_length f < Z.of_nat (S total) - Z.of_nat n)%Z) (spans fs total).
Proof.
  induction fs as [ | f rest IH]; intros n H Hn; [constructor | ].
  rewrite fmap_cons in H. apply sublist_seq in H as [Hx Hs].
  replace (n + (S total - n) - S (line f)) with (S total - S (line f)) in Hs by lia.
  cbn [spans]. constructor.
  - cbn [fl_length]. destruct rest as [ | g rest']; [lia | ].
    rewrite fmap_cons in Hs. apply sublist_seq in Hs as [Hg _]. lia.
  - eapply Forall_impl; [apply (IH (S (line f))); [exact Hs | lia] | ].
    intros x Hxx. simpl in Hxx. lia.
Qed.

Lemma sublist_filter_fmap (P : Statement -> Prop) `{forall s, Decision (P s)} stmts :
  sublist (line <$> filter P stmts) (line <$> stmts).
Proof. apply fmap_sublist, sublist_filter. Qed.

(** The loop of [calculateMaxNesting] is a maximum. *)
Lemma nesting_max stmts : forall acc,
  foldl (fun maxDepth statement =>
           if isNesting (type statement)
           then Nat.max maxDepth (indent statement) else maxDepth) acc stmts
  = Nat.max acc (max_list_with indent (filter (fun s => isNesting (type s)) stmts)).
Proof.
  induction stmts as [ | s rest IH]; intros acc; [simpl; lia | ].
  cbn [foldl]. rewrite IH. destruct (isNesting (type s)) eqn:E.
  - rewrite filter_cons_True by (rewrite E; exact I). simpl. lia.
  - rewrite filter_cons_False by (rewrite E; exact (fun F => F)). reflexivity.
Qed.

(** A position of a text names one of its statement lines. *)
Lemma positions_lookup this lines : forall n ln text lvl,
  (ln, text, lvl) ∈ positions this n lines ->
  exists raw, n <= ln /\ lines !! (ln - n) = Some raw /\ isStatementLine this raw = true /\
              text = JS.trim raw /\ lvl = leadingSpaces raw / 2.
Proof.
  unfold positions. induction lines as [ | raw rest IH]; intros n ln text lvl H.
  - inversion H.
  - cbn [numbered] in H. destruct (isStatementLine this raw) eqn:E.
    + rewrite filter_cons_True in H by (simpl; rewrite E; exact I).
      cbn [map fst snd] in H. apply elem_of_cons in H as [H | H].
      * injection H as -> -> ->. exists raw. rewrite Nat.sub_diag. auto.
      * apply IH in H as (raw' & Hn & Hl & F). exists raw'. split; [lia | ].
        replace (ln - n) with (S (ln - S n)) by lia. auto.
    + rewrite filter_cons_False in H by (simpl; rewrite E; exact (fun F => F)).
      apply IH in H as (raw' & Hn & Hl & F). exists raw'. split; [lia | ].
      replace (ln - n) with (S (ln - S n)) by lia. auto.
Qed.


Lemma max_list_with_le {X} (f : X -> nat) x l : x ∈ l -> f x <= max_list_with f l.
Proof.
  induction 1 as [ | y z l _ IH]; simpl; lia.
Qed.

Lemma existsb_elem (x : string) l : Is_true (existsb (String.eqb x) l) <-> x ∈ l.
Proof.
  rewrite Is_true_true. induction l as [ | y l IH]; simpl.
  - rewrite elem_of_nil. split; [discriminate | contradiction].
  - rewrite orb_true_iff, IH, elem_of_cons, String.eqb_eq. reflexivity.
Qed.

(** No statement of the classifier is of the kind comment. *)
Lemma no_comment this stmts :
  usable (CodeParser.patterns this) -> Forall (classified this) stmts ->
  filter (fun s => negb (type s == "comment")) stmts = stmts.
Proof.
  intros Hu. induction 1 as [ | s rest Hs _ IH]; [reflexivity | ].
  destruct (classified_facts _ s Hu Hs) as (Hk & _).
  rewrite filter_cons_True, IH; [reflexivity | ].
  apply Is_true_true, negb_true_iff, String.eqb_neq. intros Heq. rewrite Heq in Hk.
  unfold statementKinds in Hk. rewrite !elem_of_cons, elem_of_nil in Hk.
  intuition congruence.
Qed.

(** The object [analyzeCode] builds for a text it has not cached. *)
Lemma freshAnalysis_full language source :
  existsb (String.eqb language) inheritedKeys = false ->
  let this := CodeParser.new language in
  exists a pats g,
    parseCode this source = Normal a /\
    identifyPatterns a = Normal pats /\
    FlowchartGenerator.nodes g = FlowchartGenerator.createNodes 1 (statements a) /\
    freshAnalysis source language
    = Normal {| parsed := a; quality := assessCodeQuality a; patterns := pats;
                performance := analyzePerformance a pats;
                security := analyzeSecurityIssues a;
                flowInsights := generateFlowInsights a;
                variableFlow := trackVariableFlow a;
                executionSteps := generateExecutionSteps a;
                metrics := calculateMetrics a;
                flowchartCode := g |}.
Proof.
  intros Hk this. destruct (parseCode_full language source Hk) as (Hu & a & Ha & F).
  destruct F as (_ & _ & _ & _ & Hf & _).
  destruct (identifyPatterns_total a Hf) as [pats Hp].
  destruct (generateFromAnalysis_total (statements a)) as (g & Hg & Hn).
  exists a, pats, g. split; [exact Ha | ]. split; [exact Hp | ]. split; [exact Hn | ].
  subst this. unfold freshAnalysis. cbv zeta. rewrite Ha. cbn [bind]. rewrite Hp. cbn [bind].
  rewrite Hg. reflexivity.
Qed.


Ltac pick_element :=
  first [ eexists; split; [apply list_elem_of_here | reflexivity]
        | eexists; split; [apply list_elem_of_further, list_elem_of_here | reflexivity] ].

Ltac no_element H :=
  repeat (apply elem_of_cons in H as [-> | H]; [discriminate | ]); inversion H.

Ltac flag_cases :=
  split;
  [ (intros (x & Hin & Hty); first [reflexivity | exfalso; simpl in Hin; no_element Hin])
  | (intros Hflag; first [discriminate Hflag | simpl; pick_element]) ].

(** The bottlenecks follow the patterns of the two algorithm kinds. *)
Lemma bottlenecks_flags pats :
  ((exists b, b ∈ identifyBottlenecks pats /\ b_type b = "nested_loops")
   <-> (0 <? length (filter (fun p => p_type p == "nested_loops") pats)) = true) /\
  ((exists b, b ∈ identifyBottlenecks pats /\ b_type b = "recursion")
   <-> (0 <? length (filter (fun p => p_type p == "recursion") pats)) = true) /\
  existsb (fun b => b_type b == "recursion") (identifyBottlenecks pats)
  = (0 <? length (filter (fun p => p_type p == "recursion") pats)).
Proof.
  unfold identifyBottlenecks.
  destruct (0 <? length (filter (fun p => p_type p == "nested_loops") pats));
    destruct (0 <? length (filter (fun p => p_type p == "recursion") pats));
    (split; [flag_cases | split; [flag_cases | reflexivity]]).
Qed.

(** The suggestions follow the label of the time estimate and the
    recursion bottleneck. *)
Lemma suggestions_flags time found :
  ((exists o, o ∈ generateOptimizationSuggestions time found /\
              o_type o = "algorithm_optimization")
   <-> JS.includes time ("n" +:+ superscript2) || JS.includes time ("n" +:+ superscript3)
       = true) /\
  ((exists o, o ∈ generateOptimizationSuggestions time found /\ o_type o = "memoization")
   <-> existsb (fun b => b_type b == "recursion") found = true).
Proof.
  unfold generateOptimizationSuggestions.
  destruct (JS.includes time ("n" +:+ superscript2)
            || JS.includes time ("n" +:+ superscript3));
    destruct (existsb (fun b => b_type b == "recursion") found);
    (split; flag_cases).
Qed.

(** The patterns of a kind. *)
Lemma patterns_flags (pats : list Pattern) t :
  (exists p, p ∈ pats /\ p_type p = t)
  <-> (0 <? length (filter (fun p => p_type p == t) pats)) = true.
Proof.
  rewrite <- exists_count, existsb_exists. split.
  - intros (p & Hin & Hty). exists p. split; [apply list_elem_of_In, Hin | ].
    apply String.eqb_eq, Hty.
  - intros (p & Hin & Hty). exists p. split; [apply list_elem_of_In, Hin | ].
    apply String.eqb_eq, Hty.
Qed.

End InsightFacts.

Import InsightFacts.

(** X7.  The flow of a name.  The entry of the variable flow for a name lists
    one event for every mention of the name in the names of a statement, in
    the order of the statements: the line and the kind of the statement, and
    as action a declaration for a statement of the kind variable and a
    modification for every other kind.  A name no statement mentions has no
    entry. *)
Theorem variable_flow_events (a : Analysis) (v : option string) :
  trackVariableFlow a !! v
  = match eventsOf v (statements a) with
    | [] => None
    | events => Some events
    end.
Proof.
  unfold trackVariableFlow. rewrite flow_statements, lookup_empty.
  destruct (eventsOf v (statements a)); reflexivity.
Qed.

(** X8.  The keys of the variable flow.  For every language name but an
    inherited property name, the variable flow of the parsed text has an entry
    exactly for the names in the set of variables of the analysis, and so as
    many entries as the metrics count variables. *)
Theorem variable_flow_keys (language source : string) :
  existsb (String.eqb language) inheritedKeys = false ->
  exists a,
    parseCode (CodeParser.new language) source = Normal a /\
    (forall v, v ∈ a_variables a <-> is_Some (trackVariableFlow a !! v)) /\
    size (trackVariableFlow a) = variableCount (calculateMetrics a).
Proof.
  intros Hk. destruct (parseCode_full language source Hk) as (Hu & a & Ha & F).
  destruct F as (_ & _ & _ & _ & _ & Hb).
  exists a. split; [exact Ha | ].
  assert (Hkeys : forall v, v ∈ a_variables a <-> is_Some (trackVariableFlow a !! v)).
  { intros v. destruct Hb as (_ & _ & _ & _ & Hv & _).
    unfold trackVariableFlow. rewrite flow_statements, lookup_empty.
    destruct (eventsOf v (statements a)) as [ | e l] eqn:E.
    - apply eventsOf_nil in E. simpl. split.
      + intros H. apply Hv in H. contradiction.
      + intros [x Hx]. discriminate.
    - simpl. split; [eauto | ]. intros _.
      destruct (decide (v ∈ a_variables a)) as [H | H]; [exact H | ].
      assert (Hn : eventsOf v (statements a) = []).
      { apply eventsOf_nil. intros Hex. apply H, Hv, Hex. }
      congruence. }
  split; [exact Hkeys | ].
  apply size_keys; [apply Hb | exact Hkeys].
Qed.

Lemma variable_flow_keys_witness :
  exists a,
    parseCode (CodeParser.new "python") (unlines ["x = 1"; "for i in xs:"; "    x = i"])
    = Normal a /\
    (forall v, v ∈ a_variables a <-> is_Some (trackVariableFlow a !! v)) /\
    size (trackVariableFlow a) = variableCount (calculateMetrics a).
Proof. apply (variable_flow_keys "python"). reflexivity. Defined.

(** X9.  The parts of one analysis agree.  For every language name but an
    inherited property name, [analyzeCode] builds an object in which: the
    execution steps, the lines of code and the statement nodes of the graph
    are as many as the statements, and at most as many as the lines of the
    text; the branching factor is the complexity the parser has counted, it is
    below the cyclomatic complexity, and the path complexity is 2 to its
    power, capped at 2 to the 10; the functions counted are at most the entry
    points; the quality score is between 0 and 100. *)
Theorem analysis_consistent (language source : string) :
  existsb (String.eqb language) inheritedKeys = false ->
  exists r,
    freshAnalysis source language = Normal r /\
    let a := parsed r in
    let m := metrics r in
    totalStatements m = length (statements a) /\
    length (executionSteps r) = totalStatements m /\
    linesOfCode m = totalStatements m /\
    length (nodes (flowchartCode r)) = totalStatements m + 2 /\
    totalStatements m <= m_totalLines m /\
    m_totalLines m = length (JS.split "010" source) /\
    branchingFactor (flowInsights r) = complexity a /\
    branchingFactor (flowInsights r) < cyclomaticComplexity m /\
    pathComplexity (flowInsights r) = 2 ^ Nat.min (complexity a) 10 /\
    functionCount m <= length (entryPoints (flowInsights r)) /\
    (0 <= qualityScore m <= 100)%Z.
Proof.
  intros Hk. destruct (freshAnalysis_full language source Hk) as (a & pats & g & Ha & _ & Hg & Hr).
  destruct (parseCode_full language source Hk) as (Hu & a' & Ha' & F).
  rewrite Ha in Ha'. injection Ha' as <-.
  destruct F as (_ & Hsub & Ht & Hc & _ & Hb).
  eexists. split; [exact Hr | ].
  cbn [parsed metrics executionSteps flowchartCode flowInsights].
  assert (Hbf : calculateBranchingFactor a = complexity a).
  { destruct Hb as (Hcs & Hn & _). rewrite Hn, Hcs. unfold calculateBranchingFactor.
    f_equal. apply list_filter_iff. intros s. apply existsb_elem. }
  split; [reflexivity | ]. split.
  { unfold generateExecutionSteps. cbn [calculateMetrics totalStatements].
    pose proof (stepsFrom_spec (statements a) 1) as (H1 & _).
    apply (f_equal length) in H1. rewrite length_fmap, length_seq in H1. exact H1. }
  split.
  { cbn [calculateMetrics linesOfCode totalStatements]. unfold countLinesOfCode.
    rewrite (no_comment _ _ Hu Hc). reflexivity. }
  split.
  { rewrite Hg. apply FlowFacts.createNodes_length. }
  split.
  { cbn [calculateMetrics totalStatements m_totalLines].
    apply sublist_length in Hsub. rewrite length_fmap, length_seq in Hsub. exact Hsub. }
  split; [exact Ht | ]. split; [exact Hbf | ]. split.
  { cbn [generateFlowInsights branchingFactor calculateMetrics cyclomaticComplexity].
    unfold calculateCyclomaticComplexity. rewrite complexity_sum.
    destruct (classified_shape _ _ Hu Hc) as [-> _].
    unfold calculateBranchingFactor.
    rewrite (list_filter_iff _ (fun s => type s ∈ ["if"; "for"; "while"]));
      [lia | intros s; apply existsb_elem]. }
  split.
  { cbn [generateFlowInsights pathComplexity]. rewrite Hbf. reflexivity. }
  split.
  { cbn [generateFlowInsights entryPoints calculateMetrics functionCount].
    destruct Hb as (_ & _ & _ & Hnd & _ & Hf).
    rewrite length_map.
    rewrite <- (length_fmap name (filter (fun s => type s == "function") (statements a))).
    apply submseteq_length, NoDup_submseteq; [exact Hnd | ].
    intros f Hin. apply Hf in Hin as (s & Hs & Hty & <-).
    apply list_elem_of_fmap. exists s. split; [reflexivity | ].
    apply list_elem_of_filter. split; [ | exact Hs].
    apply Is_true_true, String.eqb_eq, Hty. }
  cbn [calculateMetrics qualityScore]. unfold calculateQualityScore.
  repeat match goal with |- context [if ?b then _ else _] => destruct b end; lia.
Qed.

Lemma analysis_consistent_witness :
  exists r,
    freshAnalysis (unlines ["function f(a) {"; "  if (a && b) {"; "    return a;"]) "cpp"
    = Normal r /\
    let a := parsed r in
    let m := metrics r in
    totalStatements m = length (statements a) /\
    length (executionSteps r) = totalStatements m /\
    linesOfCode m = totalStatements m /\
    length (nodes (flowchartCode r)) = totalStatements m + 2 /\
    totalStatements m <= m_totalLines m /\
    m_totalLines m
    = length (JS.split "010" (unlines ["function f(a) {"; "  if (a && b) {"; "    return a;"])) /\
    branchingFactor (flowInsights r) = complexity a /\
    branchingFactor (flowInsights r) < cyclomaticComplexity m /\
    pathComplexity (flowInsights r) = 2 ^ Nat.min (complexity a) 10 /\
    functionCount m <= length (entryPoints (flowInsights r)) /\
    (0 <= qualityScore m <= 100)%Z.
Proof. apply (analysis_consistent "cpp"). reflexivity. Defined.


(** X10.  What is reported as recursion.  For every language name but an
    inherited property name, the analysis has a recursion pattern exactly when
    some call statement of the text calls a name that some function statement
    of the text defines, wherever the two statements are; with the pattern
    come the recursion bottleneck and the suggestion to memoize, and the space
    estimate is then linear. *)
Theorem recursion_reported (language source : string) :
  existsb (String.eqb language) inheritedKeys = false ->
  exists r,
    freshAnalysis source language = Normal r /\
    let called := callsDefined (statements (parsed r)) in
    (called <-> exists p, p ∈ CodeAnalyzer.patterns r /\ p_type p = "recursion") /\
    (called <-> exists b, b ∈ bottlenecks (performance r) /\ b_type b = "recursion") /\
    (called <-> exists o, o ∈ optimizationSuggestions (performance r) /\
                          o_type o = "memoization") /\
    (called -> spaceComplexity (performance r) = "O(n)").
Proof.
  intros Hk. destruct (freshAnalysis_full language source Hk) as (a & pats & g & Ha & Hp & _ & Hr).
  destruct (parseCode_full language source Hk) as (Hu & a' & Ha' & F).
  rewrite Ha in Ha'. injection Ha' as <-.
  destruct F as (_ & _ & _ & _ & _ & Hb).
  eexists. split; [exact Hr | ].
  cbn [parsed CodeAnalyzer.patterns performance].
  pose proof (algorithm_patterns a pats "recursion" (or_introl eq_refl) Hp) as Hfil.
  destruct (algorithm_flags a) as [_ Hflag]. rewrite <- Hfil in Hflag.
  pose proof (recursive_spec a Hb) as Hrec. rewrite <- Hflag in Hrec.
  destruct (bottlenecks_flags pats) as (_ & Hbot & Hex).
  destruct (suggestions_flags (estimateTimeComplexity a) (identifyBottlenecks pats))
    as [_ Hmemo].
  cbv zeta. unfold analyzePerformance.
  cbn [bottlenecks optimizationSuggestions spaceComplexity].
  split; [ | split; [ | split]].
  - rewrite <- Hrec. symmetry. apply patterns_flags.
  - rewrite <- Hrec. symmetry. exact Hbot.
  - rewrite <- Hrec, Hmemo, Hex. reflexivity.
  - intros Hc. apply Hrec in Hc. unfold estimateSpaceComplexity.
    rewrite exists_count, Hc. reflexivity.
Qed.

Lemma recursion_reported_witness :
  exists r,
    freshAnalysis (unlines ["def f(n):"; "    return n"; "f(1)"]) "python" = Normal r /\
    let called := callsDefined (statements (parsed r)) in
    (called <-> exists p, p ∈ CodeAnalyzer.patterns r /\ p_type p = "recursion") /\
    (called <-> exists b, b ∈ bottlenecks (performance r) /\ b_type b = "recursion") /\
    (called <-> exists o, o ∈ optimizationSuggestions (performance r) /\
                          o_type o = "memoization") /\
    (called -> spaceComplexity (performance r) = "O(n)").
Proof. apply (recursion_reported "python"). reflexivity. Defined.

(** X11.  What is reported as nested loops.  For every language name but an
    inherited property name, the analysis has a nested-loops pattern, and with
    it the nested-loops bottleneck, exactly when a for statement is followed,
    anywhere later in the text, by a for statement of a higher indentation
    level; while loops do not count. *)
Theorem nested_loops_reported (language source : string) :
  existsb (String.eqb language) inheritedKeys = false ->
  exists r,
    freshAnalysis source language = Normal r /\
    let nested := deeperForLater (statements (parsed r)) in
    (nested <-> exists p, p ∈ CodeAnalyzer.patterns r /\ p_type p = "nested_loops") /\
    (nested <-> exists b, b ∈ bottlenecks (performance r) /\ b_type b = "nested_loops").
Proof.
  intros Hk. destruct (freshAnalysis_full language source Hk) as (a & pats & g & Ha & Hp & _ & Hr).
  eexists. split; [exact Hr | ].
  cbn [parsed CodeAnalyzer.patterns performance].
  pose proof (algorithm_patterns a pats "nested_loops" (or_intror eq_refl) Hp) as Hfil.
  destruct (algorithm_flags a) as [Hflag _]. rewrite <- Hfil in Hflag.
  pose proof (hasNestedLoops_spec (statements a)) as Hnest. rewrite <- Hflag in Hnest.
  destruct (bottlenecks_flags pats) as (Hbot & _).
  cbv zeta. unfold analyzePerformance. cbn [bottlenecks].
  split.
  - rewrite <- Hnest. symmetry. apply patterns_flags.
  - rewrite <- Hnest. symmetry. exact Hbot.
Qed.

Lemma nested_loops_reported_witness :
  exists r,
    freshAnalysis (unlines ["for (;;) {"; "  for (;;) {"]) "java" = Normal r /\
    let nested := deeperForLater (statements (parsed r)) in
    (nested <-> exists p, p ∈ CodeAnalyzer.patterns r /\ p_type p = "nested_loops") /\
    (nested <-> exists b, b ∈ bottlenecks (performance r) /\ b_type b = "nested_loops").
Proof. apply (nested_loops_reported "java"). reflexivity. Defined.

(** X12.  When a better algorithm is suggested.  For every language name but
    an inherited property name, the suggestions of the analysis include the
    one to optimize the algorithm exactly when the text has two or three loop
    statements: with four or more the label of the time estimate has no
    superscript, and nothing is suggested. *)
Theorem optimization_for_two_or_three_loops (language source : string) :
  existsb (String.eqb language) inheritedKeys = false ->
  exists r,
    freshAnalysis source language = Normal r /\
    timeComplexity (performance r) = complexityLabel (loopCount (statements (parsed r))) /\
    ((exists o, o ∈ optimizationSuggestions (performance r) /\
                o_type o = "algorithm_optimization")
     <-> loopCount (statements (parsed r)) = 2 \/ loopCount (statements (parsed r)) = 3).
Proof.
  intros Hk. destruct (freshAnalysis_full language source Hk) as (a & pats & g & Ha & Hp & _ & Hr).
  destruct (parseCode_full language source Hk) as (Hu & a' & Ha' & F).
  rewrite Ha in Ha'. injection Ha' as <-.
  destruct F as (_ & _ & _ & Hc & _).
  eexists. split; [exact Hr | ].
  cbn [parsed performance]. unfold analyzePerformance.
  cbn [timeComplexity optimizationSuggestions].
  assert (Ht : estimateTimeComplexity a = complexityLabel (loopCount (statements a))).
  { unfold estimateTimeComplexity. rewrite timeStep_counts; [reflexivity | | lia].
    eapply Forall_impl; [exact Hc | ].
    intros s Hs. apply (classified_facts _ s Hu Hs). }
  split; [exact Ht | ].
  destruct (suggestions_flags (estimateTimeComplexity a) (identifyBottlenecks pats))
    as [Halg _].
  rewrite Halg, Ht, label_superscripts, orb_true_iff, !Nat.eqb_eq. reflexivity.
Qed.

Lemma optimization_for_two_or_three_loops_witness :
  exists r,
    freshAnalysis (unlines ["while (a) {"; "}"; "while (b) {"; "}"]) "javascript"
    = Normal r /\
    timeComplexity (performance r) = complexityLabel (loopCount (statements (parsed r))) /\
    ((exists o, o ∈ optimizationSuggestions (performance r) /\
                o_type o = "algorithm_optimization")
     <-> loopCount (statements (parsed r)) = 2 \/ loopCount (statements (parsed r)) = 3).
Proof. apply (optimization_for_two_or_three_loops "javascript"). reflexivity. Defined.


(** X13.  The length of a function.  [analyzeFunctionLengths] reports one
    entry for every function statement, in order, with its name and its line;
    the length of an entry is the distance from that line to the line of the
    next function statement, and for the last one to the number of lines of
    the text, whatever lies between.  For every language name but an inherited
    property name the lengths of a parsed text are not negative and below the
    number of its lines. *)
Theorem function_lengths (language source : string) :
  existsb (String.eqb language) inheritedKeys = false ->
  exists a,
    parseCode (CodeParser.new language) source = Normal a /\
    analyzeFunctionLengths a
    = spans (filter (fun s => type s = "function") (statements a)) (totalLines a) /\
    Forall (fun f => (0 <= fl_length f < Z.of_nat (totalLines a))%Z)
           (analyzeFunctionLengths a).
Proof.
  intros Hk. destruct (parseCode_full language source Hk) as (Hu & a & Ha & F).
  destruct F as (_ & Hsub & _).
  exists a. split; [exact Ha | ].
  assert (He : analyzeFunctionLengths a
               = spans (filter (fun s => type s = "function") (statements a)) (totalLines a)).
  { unfold analyzeFunctionLengths.
    pose proof (lengths_spans (totalLines a) (statements a) [] None) as H.
    destruct (foldl lengthStep ([], None) (statements a)) as [done cur]. exact H. }
  split; [exact He | ]. rewrite He.
  eapply Forall_impl.
  - apply (spans_bounds (totalLines a) _ 1); [ | lia].
    replace (S (totalLines a) - 1) with (totalLines a) by lia.
    etransitivity; [apply sublist_filter_fmap | exact Hsub].
  - intros f Hf. simpl in Hf. lia.
Qed.

Lemma function_lengths_witness :
  exists a,
    parseCode (CodeParser.new "javascript")
      (unlines ["function f() {"; "}"; ""; "function g() {"; "}"]) = Normal a /\
    analyzeFunctionLengths a
    = spans (filter (fun s => type s = "function") (statements a)) (totalLines a) /\
    Forall (fun f => (0 <= fl_length f < Z.of_nat (totalLines a))%Z)
           (analyzeFunctionLengths a).
Proof. apply (function_lengths "javascript"). reflexivity. Defined.

(** X14.  The nesting depth.  The depth [calculateMaxNesting] reports is half
    the highest indentation level of the conditional, loop and function
    statements, rounded down; the other statements do not count.  For every
    language name but an inherited property name, the level being half the
    leading white space already, a conditional, loop or function statement on
    a line that starts with [n] white-space characters makes the depth of a
    parsed text at least a quarter of [n]. *)
Theorem nesting_depth_is_a_quarter (language source : string) :
  existsb (String.eqb language) inheritedKeys = false ->
  exists a,
    parseCode (CodeParser.new language) source = Normal a /\
    calculateMaxNesting a
    = max_list_with indent (filter (fun s => isNesting (type s)) (statements a)) / 2 /\
    Forall (fun s =>
              isNesting (type s) = true ->
              exists raw, JS.split "010" source !! (line s - 1) = Some raw /\
                          leadingSpaces raw / 4 <= calculateMaxNesting a)
           (statements a).
Proof.
  intros Hk. destruct (parseCode_full language source Hk) as (Hu & a & Ha & F).
  destruct F as (Hpos & _).
  exists a. split; [exact Ha | ].
  assert (He : calculateMaxNesting a
               = max_list_with indent (filter (fun s => isNesting (type s)) (statements a)) / 2).
  { unfold calculateMaxNesting. rewrite nesting_max. reflexivity. }
  split; [exact He | ]. apply Forall_forall. intros s Hs Hn.
  assert (Hin : position s ∈ positions (CodeParser.new language) 1 (JS.split "010" source)).
  { rewrite <- Hpos. apply list_elem_of_fmap. eauto. }
  apply positions_lookup in Hin as (raw & _ & Hl & _ & _ & Hi).
  exists raw. split; [exact Hl | ]. rewrite He.
  change 4 with (2 * 2). rewrite <- Nat.Div0.div_div, <- Hi.
  apply Nat.Div0.div_le_mono. apply (max_list_with_le indent).
  apply list_elem_of_filter. split; [rewrite Hn; exact I | exact Hs].
Qed.

Lemma nesting_depth_is_a_quarter_witness :
  exists a,
    parseCode (CodeParser.new "python") (unlines ["if a:"; "    if b:"; "        c = 1"])
    = Normal a /\
    calculateMaxNesting a
    = max_list_with indent (filter (fun s => isNesting (type s)) (statements a)) / 2 /\
    Forall (fun s =>
              isNesting (type s) = true ->
              exists raw,
                JS.split "010" (unlines ["if a:"; "    if b:"; "        c = 1"])
                !! (line s - 1) = Some raw /\
                leadingSpaces raw / 4 <= calculateMaxNesting a)
           (statements a).
Proof. apply (nesting_depth_is_a_quarter "python"). reflexivity. Defined.

(** * The flowchart data and the labels *)

Module DataFacts.
Import Regex CodeParser FlowchartGenerator Vocabulary RegexFacts ParserFacts LineFacts KeyFacts InsightFacts.

(** The condition of a conditional or a while loop is always defined. *)
Lemma extractCondition_defined this text : is_Some (extractCondition this text).
Proof.
  unfold extractCondition. destruct (String.eqb _ _).
  - destruct (exec rePythonStyle text) as [m | ] eqn:E; [ | eauto].
    apply (exec_mandatory rePythonStyle text 2 m eq_refl E).
  - destruct (exec reParentheses text) as [m | ] eqn:E; [ | eauto].
    apply (exec_mandatory reParentheses text 1 m eq_refl E).
Qed.

Lemma analyzeLine_condition this text ln ind s :
  usable (CodeParser.patterns this) ->
  analyzeLine this text ln ind = Normal s ->
  type s = "if" \/ type s = "while" -> is_Some (condition s).
Proof.
  intros Hu. unfold analyzeLine.
  destruct (guardedTest (pat_variable _) text) eqn:Ev.
  { destruct (guarded_match _ _ Ev) as [m ->]. simpl. intros H. inversion H.
    simpl. intros [Hty | Hty]; discriminate Hty. }
  destruct (guardedTest (pat_function _) text) eqn:Ef.
  { destruct (guarded_match _ _ Ef) as [m ->]. simpl. intros H. inversion H.
    simpl. intros [Hty | Hty]; discriminate Hty. }
  destruct (guardedTest (pat_if _) text) eqn:Ei.
  { intros H. inversion H. simpl. intros _. apply extractCondition_defined. }
  destruct (guardedTest (pat_for _) text) eqn:Eo.
  { destruct (extractLoopInfo_total this text "for") as [info ->]. simpl.
    intros H. inversion H. simpl. intros [Hty | Hty]; discriminate Hty. }
  destruct (guardedTest (pat_while _) text) eqn:Ew.
  { intros H. inversion H. simpl. intros _. apply extractCondition_defined. }
  destruct (guardedTest (pat_return _) text) eqn:Er.
  { intros H. inversion H. simpl. intros [Hty | Hty]; discriminate Hty. }
  destruct (extractFunctionCall_total this text Hu) as [fc ->]. cbn [bind].
  destruct fc as [fc | ].
  { intros H. inversion H. simpl. intros [Hty | Hty]; discriminate Hty. }
  destruct (guardedTest (pat_assignment _) text) eqn:Ea.
  { destruct Hu as (Hv & _). destruct (plainTest_some _ text Hv) as [b ->]. cbn [bind].
    destruct b; cbn [negb bind].
    - intros H. inversion H. simpl. intros [Hty | Hty]; discriminate Hty.
    - destruct (guarded_match _ _ Ea) as [m ->]. simpl.
      intros H. inversion H. simpl. intros [Hty | Hty]; discriminate Hty. }
  cbn [bind]. intros H. inversion H. simpl. intros [Hty | Hty]; discriminate Hty.
Qed.

Lemma classified_condition this s :
  usable (CodeParser.patterns this) -> classified this s ->
  type s ∈ statementKinds /\ (type s = "if" -> is_Some (condition s)).
Proof.
  intros Hu Hc. split; [apply (classified_facts this s Hu Hc) | ].
  destruct Hc as (text & ln & ind & H). intros Hty.
  apply (analyzeLine_condition this text ln ind s Hu H). left. exact Hty.
Qed.

Lemma append_length s t : String.length (s +:+ t) = String.length s + String.length t.
Proof. induction s as [ | a s IH]; simpl; [reflexivity | rewrite IH; reflexivity]. Qed.

Lemma clip_length n label : String.length (clip n label) <= n + 3.
Proof.
  unfold clip. destruct (n <? String.length label) eqn:E.
  - apply Nat.ltb_lt in E. rewrite append_length, substring_length by lia. simpl. lia.
  - apply Nat.ltb_ge in E. lia.
Qed.


(** [getNodeLabel] throws on nothing but a conditional without a
    condition, and its label has at most 33 characters. *)
Lemma getNodeLabel_spec s :
  (type s = "if" -> is_Some (condition s)) ->
  exists label, getNodeLabel s = Normal label /\ String.length label <= 33.
Proof.
  intros Hc. unfold getNodeLabel.
  destruct (String.eqb (type s) "variable" || String.eqb (type s) "assignment");
    [cbn [bind]; eexists; split; [reflexivity | apply clip_length] | ].
  destruct (String.eqb (type s) "function");
    [cbn [bind]; eexists; split; [reflexivity | apply clip_length] | ].
  destruct (String.eqb (type s) "if") eqn:E.
  { apply String.eqb_eq in E. destruct (Hc E) as [w ->]. cbn [deref bind].
    eexists; split; [reflexivity | apply clip_length]. }
  repeat match goal with
         | |- context [if ?b then _ else _] => destruct b
         end;
    cbn [bind]; eexists; (split; [reflexivity | apply clip_length]).
Qed.

Lemma treeEdge_mono nodes more e : treeEdge nodes e -> treeEdge (nodes ++ more) e.
Proof.
  intros (i & j & nd & Hf & Ht & Hij & Hj & Hnd & Hty).
  exists i, j, nd. rewrite length_app. repeat split; try assumption; try lia.
  apply lookup_app_l_Some, Hnd.
Qed.

(** One turn of the loop of [generateFlowchartData]. *)
Lemma dataStep_spec st s :
  type s <> "process" -> (type s = "if" -> is_Some (condition s)) ->
  dataState st ->
  exists st',
    dataStep st s = Normal st' /\ dataState st' /\
    length (ds_nodes st')
    = length (ds_nodes st) + 1 + (if String.eqb (type s) "if" then 2 else 0) /\
    omap dn_statement (ds_nodes st') = omap dn_statement (ds_nodes st) ++ [s] /\
    head (ds_nodes st') = head (ds_nodes st).
Proof.
  intros Hk Hcond (Hid & Hids & Hto & Hedges & c & nd & Hc & Hrange & Hnd & Hty).
  set (n := length (ds_nodes st)) in *.
  destruct (getNodeLabel_spec s Hcond) as (label & Hl & _).
  unfold dataStep. rewrite Hl. cbn [bind dn_id]. rewrite Hid, Hc.
  assert (Hhead : forall more, head (ds_nodes st ++ more) = head (ds_nodes st)).
  { intros more. destruct (ds_nodes st); [simpl in Hnd; discriminate | reflexivity]. }
  assert (Hcur : forall more, (ds_nodes st ++ more) !! (c - 1) = Some nd).
  { intros more. apply lookup_app_l_Some, Hnd. }
  destruct (String.eqb (type s) "if") eqn:E.
  - eexists. split; [reflexivity | ].
    cbn [ds_nodes ds_edges ds_nodeId ds_currentNode].
    rewrite <- !app_assoc. cbn [app].
    split; [ | split; [ | split; [ | apply Hhead]]].
    + unfold dataState. cbn [ds_nodes ds_edges ds_nodeId ds_currentNode].
      rewrite !length_app. cbn [length]. fold n.
      split; [lia | ]. split.
      { rewrite fmap_app, Hids, seq_app, fmap_app. reflexivity. }
      split.
      { rewrite fmap_app, Hto. replace (n + 3 - 1) with ((n - 1) + 3) by lia.
        rewrite seq_app, fmap_app. replace (2 + (n - 1)) with (S n) by lia. reflexivity. }
      split.
      { apply Forall_app. split.
        - eapply Forall_impl; [exact Hedges | ]. intros e He. apply treeEdge_mono, He.
        - constructor; [ | constructor; [ | constructor; [ | constructor]]].
          + exists c, (S n), nd. cbn [de_from de_to]. rewrite length_app. cbn [length].
            fold n. repeat split; try lia; try assumption. apply Hcur.
          + eexists (S n), (S (S n)), _. cbn [de_from de_to branchNode dn_id].
            rewrite length_app. cbn [length]. fold n.
            repeat split; try lia.
            * replace (S n - 1) with n by lia. apply list_lookup_middle. reflexivity.
            * exact Hk.
          + eexists (S n), (S (S (S n))), _. cbn [de_from de_to branchNode dn_id].
            rewrite length_app. cbn [length]. fold n.
            repeat split; try lia.
            * replace (S n - 1) with n by lia. apply list_lookup_middle. reflexivity.
            * exact Hk. }
      eexists (S n), _. split; [reflexivity | ]. split; [lia | ]. split.
      * replace (S n - 1) with n by lia. apply list_lookup_middle. reflexivity.
      * exact Hk.
    + rewrite length_app. cbn [length]. fold n. lia.
    + rewrite omap_app. reflexivity.
  - eexists. split; [reflexivity | ].
    cbn [ds_nodes ds_edges ds_nodeId ds_currentNode].
    split; [ | split; [ | split; [ | apply Hhead]]].
    + unfold dataState. cbn [ds_nodes ds_edges ds_nodeId ds_currentNode].
      rewrite !length_app. cbn [length]. fold n.
      split; [lia | ]. split.
      { rewrite fmap_app, Hids, seq_app, fmap_app. reflexivity. }
      split.
      { rewrite fmap_app, Hto. replace (n + 1 - 1) with ((n - 1) + 1) by lia.
        rewrite seq_app, fmap_app. replace (2 + (n - 1)) with (S n) by lia. reflexivity. }
      split.
      { apply Forall_app. split.
        - eapply Forall_impl; [exact Hedges | ]. intros e He. apply treeEdge_mono, He.
        - constructor; [ | constructor].
          exists c, (S n), nd. cbn [de_from de_to]. rewrite length_app. cbn [length].
          fold n. repeat split; try lia; try assumption. apply Hcur. }
      eexists (S n), _. split; [reflexivity | ]. split; [lia | ]. split.
      * replace (S n - 1) with n by lia. apply list_lookup_middle. reflexivity.
      * exact Hk.
    + rewrite length_app. cbn [length]. fold n. lia.
    + rewrite omap_app. reflexivity.
Qed.


Lemma dataSteps_spec stmts :
  Forall (fun s => type s <> "process" /\ (type s = "if" -> is_Some (condition s))) stmts ->
  forall st,
    dataState st ->
    exists st',
      dataSteps st stmts = Normal st' /\ dataState st' /\
      length (ds_nodes st')
      = length (ds_nodes st) + length stmts
        + 2 * length (filter (fun s => type s = "if") stmts) /\
      omap dn_statement (ds_nodes st') = omap dn_statement (ds_nodes st) ++ stmts /\
      head (ds_nodes st') = head (ds_nodes st).
Proof.
  induction 1 as [ | s rest [Hk Hc] _ IH]; intros st Hst.
  - exists st. cbn [dataSteps]. rewrite filter_nil, app_nil_r. cbn [length].
    split; [reflexivity | split; [exact Hst | split; [lia | split; reflexivity]]].
  - destruct (dataStep_spec st s Hk Hc Hst) as (st1 & H1 & Hst1 & Hl1 & Ho1 & Hh1).
    destruct (IH st1 Hst1) as (st' & H' & Hst' & Hl' & Ho' & Hh').
    exists st'. cbn [dataSteps]. rewrite H1. cbn [bind].
    split; [exact H' | ]. split; [exact Hst' | ].
    split; [ | split; [ | congruence]].
    + rewrite Hl', Hl1. cbn [length]. destruct (String.eqb (type s) "if") eqn:E.
      * apply String.eqb_eq in E. rewrite filter_cons_True by exact E. cbn [length]. lia.
      * apply String.eqb_neq in E. rewrite filter_cons_False by exact E. lia.
    + rewrite Ho', Ho1, <- app_assoc. reflexivity.
Qed.

(** [generateFlowchartData] on statements it can label. *)
Lemma generateFlowchartData_spec stmts :
  Forall (fun s => type s <> "process" /\ (type s = "if" -> is_Some (condition s))) stmts ->
  exists nodes edges,
    generateFlowchartData stmts = Normal (nodes, edges) /\
    dataInvariants stmts nodes edges.
Proof.
  intros H. unfold generateFlowchartData.
  edestruct (dataSteps_spec stmts H) as (st & -> & Hst & Hl & Ho & Hh).
  { unfold dataState. cbn [ds_nodes ds_edges ds_nodeId ds_currentNode length].
    split; [reflexivity | ]. split; [reflexivity | ]. split; [reflexivity | ].
    split; [constructor | ].
    eexists 1, _. split; [reflexivity | ]. split; [lia | ]. split; [reflexivity | ].
    discriminate. }
  cbn [bind ds_nodes ds_edges length] in *.
  destruct Hst as (Hid & Hids & Hto & Hedges & c & nd & Hc & Hrange & Hnd & Hty).
  set (n := length (ds_nodes st)) in *.
  eexists _, _. split; [reflexivity | ].
  unfold dataInvariants. rewrite !length_app. cbn [length]. fold n.
  split.
  { rewrite fmap_app, Hids, seq_app, fmap_app, Hid. reflexivity. }
  split; [lia | ]. split.
  { rewrite omap_app, Ho. cbn [omap list_omap dn_statement]. rewrite app_nil_r. reflexivity. }
  split.
  { destruct (ds_nodes st) as [ | first rest]; [simpl in Hnd; discriminate | ].
    simpl in Hh. injection Hh as ->. reflexivity. }
  split.
  { rewrite last_snoc. reflexivity. }
  split.
  { rewrite fmap_app, Hto, Hid. replace (n + 1 - 1) with ((n - 1) + 1) by lia.
    rewrite seq_app, fmap_app. replace (2 + (n - 1)) with (S n) by lia. reflexivity. }
  apply Forall_app. split.
  - eapply Forall_impl; [exact Hedges | ]. intros e He. apply treeEdge_mono, He.
  - constructor; [ | constructor].
    exists c, (S n), nd. cbn [de_from de_to dn_id]. rewrite length_app. cbn [length].
    fold n. rewrite Hid. repeat split; try lia; try assumption.
    apply lookup_app_l_Some, Hnd.
Qed.

(** The loop of [calculateComplexity] is a sum. *)
Lemma parserComplexity_sum stmts : forall acc,
  foldl (fun complexity statement =>
           let complexity :=
             if existsb (String.eqb (type statement))
                        ["if"; "for"; "while"; "switch"; "case"]
             then S complexity else complexity in
           if String.eqb (type statement) "if"
              && JS.includes (code statement) (orString "&&" "||")
           then S complexity else complexity) acc stmts
  = acc
    + length (filter (fun s => type s ∈ ["if"; "for"; "while"; "switch"; "case"]) stmts)
    + length (filter (fun s => type s = "if" /\ JS.includes (code s) "&&" = true) stmts).
Proof.
  induction stmts as [ | s rest IH]; intros acc; [simpl; lia | ].
  cbn [foldl]. rewrite IH. clear IH.
  change (orString "&&" "||") with "&&".
  destruct (existsb (String.eqb (type s)) ["if"; "for"; "while"; "switch"; "case"]) eqn:E1.
  - rewrite (filter_cons_True (fun s => type s ∈ _)) by (apply existsb_elem; rewrite E1; exact I).
    destruct (String.eqb (type s) "if" && JS.includes (code s) "&&") eqn:E2.
    + apply andb_true_iff in E2 as [Ea Eb]. apply String.eqb_eq in Ea.
      rewrite (filter_cons_True (fun s => type s = "if" /\ _)) by auto. cbn [length]. lia.
    + rewrite (filter_cons_False (fun s => type s = "if" /\ _)); [cbn [length]; lia | ].
      intros [Ea Eb]. apply String.eqb_eq in Ea. rewrite Ea, Eb in E2. discriminate.
  - rewrite (filter_cons_False (fun s => type s ∈ _))
      by (intros Hin; apply existsb_elem in Hin; rewrite E1 in Hin; exact Hin).
    destruct (String.eqb (type s) "if") eqn:Ea.
    + apply String.eqb_eq in Ea. rewrite Ea in E1. discriminate.
    + cbn [andb]. rewrite (filter_cons_False (fun s => type s = "if" /\ _)); [lia | ].
      intros [Eb _]. apply String.eqb_neq in Ea. contradiction.
Qed.


Lemma branch_kinds stmts :
  Forall (fun s => type s ∈ statementKinds) stmts ->
  filter (fun s => type s ∈ ["if"; "for"; "while"; "switch"; "case"]) stmts
  = filter (fun s => type s ∈ ["if"; "for"; "while"]) stmts.
Proof.
  induction 1 as [ | s rest Hs _ IH]; [reflexivity | ].
  rewrite !filter_cons, IH.
  unfold statementKinds in Hs. rewrite !elem_of_cons, elem_of_nil in Hs.
  repeat (destruct Hs as [-> | Hs]; [reflexivity | ]). contradiction.
Qed.

Lemma occurs_append x s t : occurs x (s +:+ t) = occurs x s || occurs x t.
Proof.
  induction s as [ | a s IH]; [reflexivity | ]. simpl. rewrite IH, orb_assoc. reflexivity.
Qed.

(** Replacing a character by a text that does not have it removes it. *)
Lemma replaceChar_without x y s :
  occurs x y = false -> occurs x (replaceChar x y s) = false.
Proof.
  intros Hy. induction s as [ | a s IH]; [reflexivity | ].
  cbn [replaceChar]. destruct (Ascii.eqb a x) eqn:E.
  - rewrite occurs_append, Hy, IH. reflexivity.
  - simpl. rewrite E. exact IH.
Qed.

Lemma replaceChar_length x y s :
  String.length (replaceChar x y s) <= Nat.max 1 (String.length y) * String.length s.
Proof.
  induction s as [ | a s IH]; [simpl; lia | ].
  cbn [replaceChar]. rewrite append_length.
  destruct (Ascii.eqb a x); simpl String.length; lia.
Qed.

Lemma replaceChar_same x y s : occurs x s = false -> replaceChar x y s = s.
Proof.
  induction s as [ | a s IH]; [reflexivity | ].
  simpl. intros H. apply orb_false_iff in H as [Ha Hs]. rewrite Ha, (IH Hs). reflexivity.
Qed.

(** Escaping the quotes leaves every quote after a backslash. *)
Lemma escaped_quotes s : forall b,
  escaped b (replaceChar quote (String backslash (String quote "")) s) = true.
Proof.
  induction s as [ | a s IH]; intros b; [reflexivity | ].
  cbn [replaceChar]. destruct (Ascii.eqb a quote) eqn:E.
  - simpl. apply IH.
  - simpl. rewrite E. simpl. apply IH.
Qed.

Lemma escaped_spaces s : forall b,
  escaped b s = true -> escaped b (replaceChar "010" " " s) = true.
Proof.
  induction s as [ | a s IH]; intros b; [reflexivity | ].
  cbn [replaceChar escaped]. intros H. apply andb_true_iff in H as [H1 H2].
  destruct (Ascii.eqb a "010") eqn:E.
  - apply Ascii.eqb_eq in E. subst a. simpl. apply IH, H2.
  - simpl. rewrite H1. apply IH, H2.
Qed.

Lemma truncated_length label :
  String.length (if 25 <? String.length label
                 then String.substring 0 (25 - 3) label +:+ "..."
                 else label) <= 25.
Proof.
  destruct (25 <? String.length label) eqn:E.
  - apply Nat.ltb_lt in E. rewrite append_length, substring_length by lia. simpl. lia.
  - apply Nat.ltb_ge in E. exact E.
Qed.

Lemma occurs_substring x s : forall i n,
  occurs x s = false -> occurs x (String.substring i n s) = false.
Proof.
  induction s as [ | a s IH]; intros i n H.
  - destruct i, n; reflexivity.
  - simpl in H. apply orb_false_iff in H as [Ha Hs].
    destruct i as [ | i]; destruct n as [ | n]; simpl; try reflexivity.
    + rewrite Ha. apply IH, Hs.
    + apply IH, Hs.
    + apply IH, Hs.
Qed.

End DataFacts.

Import DataFacts.

(** X15.  The flowchart data of the parser.  For every language name but an
    inherited property name, [generateFlowchartData] returns for the
    statements of a parsed text: a start node, an end node, a node for every
    statement and two branch placeholders for every conditional, named node1,
    node2, ... without a gap; the nodes that carry a statement carry the
    statements in order; every node but the first is the target of exactly one
    edge, from a node numbered lower, so the edges make a tree; no edge leaves
    a branch placeholder. *)
Theorem flowchart_data_is_a_tree (language source : string) :
  existsb (String.eqb language) inheritedKeys = false ->
  exists a nodes edges,
    parseCode (CodeParser.new language) source = Normal a /\
    generateFlowchartData (statements a) = Normal (nodes, edges) /\
    dataInvariants (statements a) nodes edges.
Proof.
  intros Hk. destruct (parseCode_full language source Hk) as (Hu & a & Ha & F).
  destruct F as (_ & _ & _ & Hc & _).
  destruct (generateFlowchartData_spec (statements a)) as (nodes & edges & Hg & Hi).
  - eapply Forall_impl; [exact Hc | ]. intros s Hs.
    destruct (classified_condition _ s Hu Hs) as [Hkind Hcond].
    split; [ | exact Hcond]. intros Heq. rewrite Heq in Hkind.
    unfold statementKinds in Hkind. rewrite !elem_of_cons, elem_of_nil in Hkind.
    intuition discriminate.
  - exists a, nodes, edges. auto.
Qed.

Lemma flowchart_data_is_a_tree_witness :
  exists a nodes edges,
    parseCode (CodeParser.new "javascript") (unlines ["if (a) {"; "  b();"; "}"]) = Normal a /\
    generateFlowchartData (statements a) = Normal (nodes, edges) /\
    dataInvariants (statements a) nodes edges.
Proof. apply (flowchart_data_is_a_tree "javascript"). reflexivity. Defined.

(** X16.  The labels of the flowchart data.  [getNodeLabel] throws for a
    conditional whose condition is undefined and for nothing else; the label
    it returns has at most 33 characters, the 30 it keeps and the ellipsis. *)
Theorem parser_label_clipped (s : Statement) :
  match getNodeLabel s with
  | Normal label => String.length label <= 33
  | Throw _ => type s = "if" /\ condition s = None
  end.
Proof.
  destruct (condition s) as [w | ] eqn:Ec.
  - destruct (getNodeLabel_spec s) as (label & -> & Hl); [rewrite Ec; eauto | exact Hl].
  - destruct (String.eqb (type s) "if") eqn:E.
    + apply String.eqb_eq in E. unfold getNodeLabel. rewrite E, Ec. simpl. auto.
    + apply String.eqb_neq in E.
      destruct (getNodeLabel_spec s) as (label & -> & Hl); [contradiction | exact Hl].
Qed.

(** X17.  The complexity of the parser.  For every language name but an
    inherited property name, [calculateComplexity] gives for the statements of
    a parsed text one more than the complexity the analysis object records,
    and one more for every conditional whose line contains the token of
    logical AND; the token of logical OR adds nothing. *)
Theorem parser_complexity (language source : string) :
  existsb (String.eqb language) inheritedKeys = false ->
  exists a,
    parseCode (CodeParser.new language) source = Normal a /\
    calculateComplexity (statements a)
    = 1 + complexity a
      + length (filter (fun s => type s = "if" /\ JS.includes (code s) "&&" = true)
                       (statements a)).
Proof.
  intros Hk. destruct (parseCode_full language source Hk) as (Hu & a & Ha & F).
  destruct F as (_ & _ & _ & Hc & _ & Hb).
  exists a. split; [exact Ha | ].
  unfold calculateComplexity. rewrite parserComplexity_sum, branch_kinds.
  - destruct Hb as (Hcs & Hn & _). rewrite Hn, Hcs. reflexivity.
  - eapply Forall_impl; [exact Hc | ]. intros s Hs. apply (classified_facts _ s Hu Hs).
Qed.

Lemma parser_complexity_witness :
  exists a,
    parseCode (CodeParser.new "javascript")
      (unlines ["if (a && b) {"; "if (a || b) {"; "while (a) {"]) = Normal a /\
    calculateComplexity (statements a)
    = 1 + complexity a
      + length (filter (fun s => type s = "if" /\ JS.includes (code s) "&&" = true)
                       (statements a)).
Proof. apply (parser_complexity "javascript"). reflexivity. Defined.

(** X18.  The labels of the graph.  The label [generateNodeLabel] gives a
    statement has no line feed, every double quote in it comes after a
    backslash, and it has at most 50 characters: the 25 of the cut label, and
    one more for every double quote among them. *)
Theorem node_label_escaped (s : Statement) :
  let label := generateNodeLabel s in
  occurs "010" label = false /\
  escaped false label = true /\
  String.length label <= 50 /\
  (occurs quote (rawLabel s) = false -> String.length label <= 25).
Proof.
  unfold generateNodeLabel. cbv zeta.
  set (cut := if 25 <? String.length (rawLabel s)
              then String.substring 0 (25 - 3) (rawLabel s) +:+ "..."
              else rawLabel s).
  pose proof (truncated_length (rawLabel s)) as Hcut. fold cut in Hcut.
  split; [apply replaceChar_without; reflexivity | ].
  split; [apply escaped_spaces, escaped_quotes | ].
  split.
  - etransitivity; [apply replaceChar_length | ]. simpl Nat.max. rewrite Nat.mul_1_l.
    etransitivity; [apply replaceChar_length | ]. simpl Nat.max. lia.
  - intros Hq. rewrite (replaceChar_same quote).
    + etransitivity; [apply replaceChar_length | ]. simpl Nat.max. lia.
    + unfold cut. destruct (25 <? String.length (rawLabel s)); [ | exact Hq].
      rewrite occurs_append, occurs_substring by exact Hq. reflexivity.
Qed.

(** * The order of the rules and the fallback profile *)

Module RuleFacts.
Import Regex CodeParser Vocabulary RegexFacts ParserFacts LineFacts InsightFacts.

(** The kind [analyzeLine] gives is the kind of the first rule that
    applies. *)
Lemma analyzeLine_kind this text ln ind :
  usable (CodeParser.patterns this) ->
  exists s, analyzeLine this text ln ind = Normal s /\ type s = firstRule this text.
Proof.
  intros Hu. unfold analyzeLine, firstRule.
  destruct (guardedTest (pat_variable _) text) eqn:Ev.
  { destruct (guarded_match _ _ Ev) as [m ->]. simpl. eauto. }
  destruct (guardedTest (pat_function _) text) eqn:Ef.
  { destruct (guarded_match _ _ Ef) as [m ->]. simpl. eauto. }
  destruct (guardedTest (pat_if _) text) eqn:Ei; [eauto | ].
  destruct (guardedTest (pat_for _) text) eqn:Eo.
  { destruct (extractLoopInfo_total this text "for") as [info ->]. simpl. eauto. }
  destruct (guardedTest (pat_while _) text) eqn:Ew; [eauto | ].
  destruct (guardedTest (pat_return _) text) eqn:Er; [eauto | ].
  assert (Hcall : extractFunctionCall this text
                  = Normal (match exec reCall text with
                            | Some m =>
                                Some {| fc_name := group 1 m;
                                        fc_args :=
                                          if JS.truthyOpt (group 2 m)
                                          then map JS.trim
                                                   (JS.split "," (default "" (group 2 m)))
                                          else [] |}
                            | None => None
                            end)).
  { unfold extractFunctionCall. destruct (exec reCall text) as [m | ]; [ | reflexivity].
    destruct Hu as (_ & [ri Hi] & rf & Hf & _). rewrite Hf, Hi in *.
    simpl in Ef, Ei. simpl. rewrite Ef. simpl. rewrite Ei. reflexivity. }
  rewrite Hcall. cbn [bind]. unfold test.
  destruct (exec reCall text) as [m | ]; [eauto | ].
  destruct (guardedTest (pat_assignment _) text) eqn:Ea.
  { destruct Hu as ([rv Hv] & _). rewrite Hv in *. simpl in Ev. simpl. rewrite Ev. simpl.
    destruct (guarded_match _ _ Ea) as [m ->]. simpl. eauto. }
  simpl. eauto.
Qed.

(** A parser reads its language name to tell the Python profile from the
    others, and for nothing else. *)
Lemma analyzeLine_ext this1 this2 :
  CodeParser.patterns this1 = CodeParser.patterns this2 ->
  String.eqb (language this1) "python" = String.eqb (language this2) "python" ->
  forall text ln ind, analyzeLine this1 text ln ind = analyzeLine this2 text ln ind.
Proof.
  intros Hp Hl text ln ind.
  unfold analyzeLine, extractCondition, extractLoopInfo, extractFunctionCall.
  rewrite Hp, Hl. reflexivity.
Qed.

Lemma parseLine_ext this1 this2 :
  CodeParser.patterns this1 = CodeParser.patterns this2 ->
  String.eqb (language this1) "python" = String.eqb (language this2) "python" ->
  forall st text, parseLine this1 st text = parseLine this2 st text.
Proof.
  intros Hp Hl st text. unfold parseLine, isComment.
  rewrite Hp, getIndentation_spec. cbn [bind].
  rewrite (analyzeLine_ext this1 this2 Hp Hl). reflexivity.
Qed.

Lemma parseLine_relabel this lang n a text :
  parseLine this (n, relabel lang a) text
  = match parseLine this (n, a) text with
    | Normal st => Normal (fst st, relabel lang (snd st))
    | Throw e => Throw e
    end.
Proof.
  unfold parseLine. cbn [fst snd].
  destruct (negb (JS.truthy (JS.trim text)) || isComment this (JS.trim text));
    [reflexivity | ].
  destruct (getIndentation text) as [k | e]; cbn [bind]; [ | reflexivity].
  destruct (analyzeLine this (JS.trim text) (S n) (k / 2)) as [s | e]; cbn [bind];
    reflexivity.
Qed.

Lemma parseLines_relabel this lang lines : forall n a,
  parseLines this (n, relabel lang a) lines
  = match parseLines this (n, a) lines with
    | Normal st => Normal (fst st, relabel lang (snd st))
    | Throw e => Throw e
    end.
Proof.
  induction lines as [ | text rest IH]; intros n a; [reflexivity | ].
  cbn [parseLines]. rewrite parseLine_relabel.
  destruct (parseLine this (n, a) text) as [[n1 a1] | e]; cbn [bind fst snd];
    [apply IH | reflexivity].
Qed.

Lemma parseLines_ext this1 this2 :
  CodeParser.patterns this1 = CodeParser.patterns this2 ->
  String.eqb (language this1) "python" = String.eqb (language this2) "python" ->
  forall lines st, parseLines this1 st lines = parseLines this2 st lines.
Proof.
  intros Hp Hl. induction lines as [ | text rest IH]; intros st; [reflexivity | ].
  cbn [parseLines]. rewrite (parseLine_ext this1 this2 Hp Hl).
  destruct (parseLine this2 st text); cbn [bind]; [apply IH | reflexivity].
Qed.

End RuleFacts.

Import RuleFacts.

(** X19.  The order of the rules.  For every language name but an inherited
    property name, the kind [analyzeLine] gives a line is the kind of the
    first rule that applies, the rules being tried in the order variable,
    function, conditional, for loop, while loop, return, the shape of a call,
    assignment; so a line that has the shape of a call is never an assignment
    or a plain statement.  Every statement of a parsed text has the kind of
    the first rule that applies to its text. *)
Theorem classification_order (language source : string) :
  existsb (String.eqb language) inheritedKeys = false ->
  let this := CodeParser.new language in
  (forall text ln ind,
     exists s, analyzeLine this text ln ind = Normal s /\ type s = firstRule this text) /\
  exists a,
    parseCode this source = Normal a /\
    Forall (fun s => type s = firstRule this (code s)) (statements a).
Proof.
  intros Hk. cbv zeta. destruct (parseCode_full language source Hk) as (Hu & a & Ha & F).
  destruct F as (_ & _ & _ & Hc & _).
  split; [intros text ln ind; apply analyzeLine_kind, Hu | ].
  exists a. split; [exact Ha | ].
  eapply Forall_impl; [exact Hc | ]. intros s (text & ln & ind & Hs).
  destruct (analyzeLine_kind _ text ln ind Hu) as (s' & Hs' & Hty).
  rewrite Hs in Hs'. injection Hs' as <-.
  pose proof (analyzeLine_position _ _ _ _ _ Hu Hs) as Hp.
  unfold position in Hp. injection Hp as _ -> _. exact Hty.
Qed.

Lemma classification_order_witness :
  let this := CodeParser.new "javascript" in
  (forall text ln ind,
     exists s, analyzeLine this text ln ind = Normal s /\ type s = firstRule this text) /\
  exists a,
    parseCode this (unlines ["total = add(1, 2);"; "total = 3;"]) = Normal a /\
    Forall (fun s => type s = firstRule this (code s)) (statements a).
Proof. apply (classification_order "javascript"). reflexivity. Defined.

(** X20.  The fallback profile.  A language name that is neither the name of
    another profile nor an inherited property name is parsed with the
    JavaScript rules: every line is classified as in the JavaScript profile,
    and the parsed object is the one built for JavaScript, but for the
    language name it records.  Quality, patterns, performance, security, flow
    insights, variable flow, execution steps and metrics do not read that
    name: they are those of the JavaScript analysis. *)
Theorem unknown_language_is_javascript (language source : string) :
  existsb (String.eqb language) otherProfiles = false ->
  (forall text ln ind,
      analyzeLine (CodeParser.new language) text ln ind
      = analyzeLine (CodeParser.new "javascript") text ln ind) /\
  exists a,
    parseCode (CodeParser.new "javascript") source = Normal a /\
    parseCode (CodeParser.new language) source = Normal (relabel language a) /\
    assessCodeQuality (relabel language a) = assessCodeQuality a /\
    identifyPatterns (relabel language a) = identifyPatterns a /\
    (forall pats,
        analyzePerformance (relabel language a) pats = analyzePerformance a pats) /\
    analyzeSecurityIssues (relabel language a) = analyzeSecurityIssues a /\
    generateFlowInsights (relabel language a) = generateFlowInsights a /\
    trackVariableFlow (relabel language a) = trackVariableFlow a /\
    generateExecutionSteps (relabel language a) = generateExecutionSteps a /\
    calculateMetrics (relabel language a) = calculateMetrics a.
Proof.
  intros Hk.
  assert (Hp : getLanguagePatterns language = javascript).
  { unfold otherProfiles in Hk. rewrite existsb_app in Hk.
    apply orb_false_iff in Hk as [H1 H2]. simpl in H1.
    repeat (apply orb_false_iff in H1 as [? H1]).
    unfold getLanguagePatterns. rewrite H, H0, H3, H2.
    destruct (String.eqb language "javascript"); reflexivity. }
  assert (Hl : String.eqb language "python" = false).
  { unfold otherProfiles in Hk. simpl in Hk. apply orb_false_iff in Hk as [H _]. exact H. }
  split.
  { apply (analyzeLine_ext (CodeParser.new language) (CodeParser.new "javascript"));
      simpl; assumption. }
  destruct (parseCode_full "javascript" source eq_refl) as (_ & a & Ha & _).
  exists a. split; [exact Ha | ].
  split; [ | repeat split].
  unfold parseCode in *.
  rewrite (parseLines_ext (CodeParser.new language) (CodeParser.new "javascript"))
    by (simpl; assumption).
  change {| a_language := CodeParser.language (CodeParser.new language);
            totalLines := length (JS.split "010" source);
            statements := []; a_variables := []; functions := [];
            controlStructures := []; complexity := 0 |}
    with (relabel language
            {| a_language := CodeParser.language (CodeParser.new "javascript");
               totalLines := length (JS.split "010" source);
               statements := []; a_variables := []; functions := [];
               controlStructures := []; complexity := 0 |}).
  rewrite parseLines_relabel.
  destruct (parseLines _ _ _) as [st | e]; cbn [bind] in *; [ | discriminate].
  injection Ha as <-. reflexivity.
Qed.

Lemma unknown_language_is_javascript_witness :
  (forall text ln ind,
      analyzeLine (CodeParser.new "typescript") text ln ind
      = analyzeLine (CodeParser.new "javascript") text ln ind) /\
  exists a,
    parseCode (CodeParser.new "javascript") "let x = 1;" = Normal a /\
    parseCode (CodeParser.new "typescript") "let x = 1;"
    = Normal (relabel "typescript" a) /\
    assessCodeQuality (relabel "typescript" a) = assessCodeQuality a /\
    identifyPatterns (relabel "typescript" a) = identifyPatterns a /\
    (forall pats,
        analyzePerformance (relabel "typescript" a) pats = analyzePerformance a pats) /\
    analyzeSecurityIssues (relabel "typescript" a) = analyzeSecurityIssues a /\
    generateFlowInsights (relabel "typescript" a) = generateFlowInsights a /\
    trackVariableFlow (relabel "typescript" a) = trackVariableFlow a /\
    generateExecutionSteps (relabel "typescript" a) = generateExecutionSteps a /\
    calculateMetrics (relabel "typescript" a) = calculateMetrics a.
Proof. apply (unknown_language_is_javascript "typescript"). reflexivity. Defined.


(** X21.  The edges stay within the graph.  For any statements, the graph of
    [generateFromAnalysis] has only edges between its own nodes: none leaves
    the end node, none enters the start node, none joins a node to itself, and
    an edge goes back to an earlier node exactly when it is the Loop edge of a
    loop. *)
Theorem edges_within_graph (stmts : list Statement) :
  exists g,
    generateFromAnalysis stmts = Normal g /\
    Forall (withinGraph (length stmts)) (connections g).
Proof.
  unfold generateFromAnalysis, createConnections.
  rewrite createNodes_length. replace (length stmts + 2 - 1) with (S (length stmts)) by lia.
  destruct (connectionsFrom_spec 1 stmts (S (length stmts)) 0) as (ls & Hls & Hin & _);
    [lia | ].
  rewrite Hls. cbn [bind]. eexists. split; [reflexivity | ]. cbn [connections].
  apply Forall_forall. intros e He.
  apply Hin in He as (j & l & Hj & Hl & Hel).
  destruct (turn_spec 1 stmts j) as (l' & Hl' & Hall & _); [lia | ].
  rewrite Hl in Hl'. injection Hl' as <-.
  rewrite Forall_forall in Hall. destruct (Hall e Hel) as [Hf | Hb].
  - destruct Hf as (Hfrom & Hlab & k & Hk & Hto).
    exists (1 + j), (1 + k). repeat split; try assumption; try lia.
    all: intros Heq; contradiction.
  - destruct Hb as (Hlab & Hto & Hi & k & Hk & Hfrom).
    exists (1 + k), (1 + j). repeat split; try assumption; try lia.
    all: intros _; assumption.
Qed.

(** * The smells and the rating *)

Module SmellFacts.
Import Regex CodeParser CodeAnalyzer Vocabulary RegexFacts TokenFacts LineFacts.

(** A pattern of one character looks at the character at the index. *)
Lemma rmatch_class cl inp i k :
  rmatch (Chr cl) inp i [] k
  = match strDrop i inp with
    | String a _ => if inClass cl a then k (S i) [] else None
    | EmptyString => None
    end.
Proof.
  cbn [rmatch]. rewrite get_strDrop. destruct (strDrop i inp); reflexivity.
Qed.

Lemma execFrom_class cl inp :
  forall fuel i,
    fuel = String.length inp - i ->
    execFrom (Chr cl) inp fuel i = firstIn cl (strDrop i inp) i.
Proof.
  induction fuel as [ | fuel IH]; intros i Hf; cbn [execFrom]; rewrite rmatch_class.
  - pose proof (strDrop_length inp i) as Hl. rewrite <- Hf in Hl.
    destruct (strDrop i inp) as [ | a t]; [reflexivity | discriminate Hl].
  - destruct (strDrop i inp) as [ | a t] eqn:E.
    + pose proof (strDrop_length inp i) as Hl. rewrite E, <- Hf in Hl. discriminate Hl.
    + apply strDrop_step in E as E'. cbn [firstIn].
      destruct (inClass cl a); [reflexivity | ].
      rewrite <- E'. apply IH. lia.
Qed.

Lemma firstIn_count cl t :
  forall i,
    match firstIn cl t i with
    | None => countIn cl t = 0
    | Some m =>
        exists p, Regex.index m = i + p /\ lastIndex m = i + p + 1 /\
                  p + 1 <= String.length t /\
                  countIn cl t = S (countIn cl (strDrop (p + 1) t))
    end.
Proof.
  induction t as [ | a t IH]; intros i; [reflexivity | ].
  cbn [firstIn countIn]. destruct (inClass cl a).
  - exists 0. cbn [Regex.index lastIndex].
    split; [lia | split; [lia | split; [simpl; lia | reflexivity]]].
  - specialize (IH (S i)). destruct (firstIn cl t (S i)) as [m | ].
    + destruct IH as (p & Hi & Hl & Hp & Hc).
      exists (S p). split; [lia | split; [lia | split; [simpl in *; lia | ]]].
      rewrite Hc. reflexivity.
    + exact IH.
Qed.

Lemma matchAllFrom_class cl inp :
  forall fuel i,
    String.length inp - i < fuel ->
    length (matchAllFrom (Chr cl) inp fuel i) = countIn cl (strDrop i inp).
Proof.
  induction fuel as [ | fuel IH]; intros i Hf; [lia | ].
  cbn [matchAllFrom]. destruct (String.length inp <? i) eqn:Ei.
  { apply Nat.ltb_lt in Ei. pose proof (strDrop_length inp i) as Hl.
    destruct (strDrop i inp); [reflexivity | simpl in Hl; lia]. }
  rewrite execFrom_class by reflexivity.
  pose proof (firstIn_count cl (strDrop i inp) i) as Hc.
  destruct (firstIn cl (strDrop i inp) i) as [m | ]; [ | symmetry; exact Hc].
  destruct Hc as (p & Hi & Hl & Hp & Hc).
  rewrite strDrop_length in Hp.
  replace (lastIndex m =? Regex.index m) with false by (symmetry; apply Nat.eqb_neq; lia).
  cbn [length]. rewrite Hc, IH by lia.
  rewrite Hl, <- Nat.add_assoc, strDrop_add. reflexivity.
Qed.

(** The global match of the comma finds the commas. *)
Lemma matchAll_comma text : length (matchAll reComma text) = countIn (COne ",") text.
Proof.
  unfold matchAll, reComma, chr. rewrite matchAllFrom_class by lia. reflexivity.
Qed.

Lemma includes_comma text :
  JS.includes text "," = negb (countIn (COne ",") text =? 0).
Proof.
  induction text as [ | a t IH]; [reflexivity | ].
  cbn [JS.includes String.prefix countIn inClass]. rewrite IH.
  destruct (ascii_dec "," a) as [<- | Hne].
  - destruct t; reflexivity.
  - assert (E : Ascii.eqb a "," = false) by (apply Ascii.eqb_neq; congruence).
    rewrite E. reflexivity.
Qed.

End SmellFacts.

Import SmellFacts.

(** X22.  The long parameter lists.  [identifyCodeSmells] reports one smell
    for every function statement whose line has five commas or more, in order,
    and nothing else; the number of parameters it names is the number of
    commas of the whole line and one. *)
Theorem long_parameter_lists (a : Analysis) :
  identifyCodeSmells a
  = longParameterList
    <$> filter (fun s => type s = "function" /\ 5 <= commas s) (statements a).
Proof.
  unfold identifyCodeSmells. induction (statements a) as [ | s rest IH]; [reflexivity | ].
  cbn [omap list_omap]. rewrite matchAll_comma, includes_comma.
  fold (commas s).
  destruct (type s == "function") eqn:Et; cbn [andb].
  - apply String.eqb_eq in Et. destruct (5 <? commas s + 1) eqn:E5.
    + apply Nat.ltb_lt in E5.
      replace (commas s =? 0) with false by (symmetry; apply Nat.eqb_neq; lia).
      cbn [negb]. rewrite filter_cons_True by (split; [exact Et | lia]).
      rewrite fmap_cons. f_equal. exact IH.
    + apply Nat.ltb_ge in E5.
      rewrite filter_cons_False by (intros [_ H]; lia).
      destruct (negb (commas s =? 0)); exact IH.
  - apply String.eqb_neq in Et.
    rewrite filter_cons_False by (intros [H _]; contradiction). exact IH.
Qed.

(** X23.  The rating.  The overall rating of [assessCodeQuality] is excellent
    exactly when no function stretches over more than 50 lines and no
    statement has an indentation level above 8; the suggestions about magic
    numbers do not count. *)
Theorem excellent_rating (a : Analysis) :
  overallRating (assessCodeQuality a) = "excellent"
  <-> Forall (fun f => (fl_length f <= 50)%Z) (analyzeFunctionLengths a) /\
      Forall (fun s => indent s <= 8) (statements a).
Proof.
  unfold assessCodeQuality. cbn [overallRating]. rewrite length_app.
  set (long := omap _ (analyzeFunctionLengths a)).
  set (deep := filter (fun s => 8 <? indent s) (statements a)).
  assert (Hlong : length long = 0
                  <-> Forall (fun f => (fl_length f <= 50)%Z) (analyzeFunctionLengths a)).
  { subst long. induction (analyzeFunctionLengths a) as [ | f l IH].
    - split; [constructor | reflexivity].
    - cbn [omap list_omap]. destruct (50 <? fl_length f)%Z eqn:E.
      + apply Z.ltb_lt in E. split; [discriminate | ].
        intros H. inversion H; subst. lia.
      + apply Z.ltb_ge in E. rewrite IH. split.
        * intros H. constructor; assumption.
        * intros H. inversion H; assumption. }
  assert (Hdeep : length deep = 0 <-> Forall (fun s => indent s <= 8) (statements a)).
  { subst deep. induction (statements a) as [ | s l IH].
    - split; [constructor | reflexivity].
    - rewrite length_filter_cons. destruct (8 <? indent s) eqn:E.
      + apply Nat.ltb_lt in E. split; [discriminate | ].
        intros H. inversion H; subst. lia.
      + apply Nat.ltb_ge in E. cbn [Nat.add]. rewrite IH. split.
        * intros H. constructor; assumption.
        * intros H. inversion H; assumption. }
  rewrite <- Hlong, <- Hdeep.
  assert (Hd : (0 <? length deep) = negb (length deep =? 0)) by (destruct (length deep); reflexivity).
  destruct (0 <? length deep) eqn:E.
  - cbn [length]. apply Nat.ltb_lt in E. unfold getOverallRating.
    split.
    + intros H. exfalso.
      destruct (length long + 1 =? 0) eqn:E0; [apply Nat.eqb_eq in E0; lia | ].
      destruct (length long + 1 <=? 2); [discriminate | ].
      destruct (length long + 1 <=? 5); discriminate.
    + intros [_ H]. lia.
  - cbn [length]. apply Nat.ltb_ge in E. rewrite Nat.add_0_r. unfold getOverallRating.
    split.
    + intros H. split; [ | lia].
      destruct (length long) as [ | n]; [reflexivity | exfalso].
      cbn [Nat.eqb] in H.
      destruct (S n <=? 2); [discriminate | ]. destruct (S n <=? 5); discriminate.
    + intros [-> _]. reflexivity.
Qed.

(** * The scans of the rules *)

Module ScanFacts.
Import Regex CodeParser Vocabulary RegexFacts ParserFacts TokenFacts LineFacts.

(** A lazy star of one class is a lazy scan. *)
Lemma iterate_lazy cl inp k :
  forall fuel i c,
    String.length (strDrop i inp) <= fuel ->
    iterate (rmatch (Chr cl) inp) false k fuel i c = lazyScan cl k c (strDrop i inp) i.
Proof.
  induction fuel as [ | fuel IH]; intros i c Hf.
  - destruct (strDrop i inp) as [ | a t]; [ | simpl in Hf; lia].
    simpl. destruct (k i c); reflexivity.
  - cbn [iterate rmatch]. rewrite get_strDrop.
    destruct (strDrop i inp) as [ | a t] eqn:E; cbn [lazyScan].
    + reflexivity.
    + destruct (k i c); [reflexivity | ]. destruct (inClass cl a); [ | reflexivity].
      assert (Hlt : (i <? S i) = true) by (apply Nat.ltb_lt; lia). rewrite Hlt.
      apply strDrop_step in E. rewrite <- E. apply IH. rewrite E. simpl in Hf. lia.
Qed.

(** A greedy star of one class is a greedy scan. *)
Lemma iterate_greedy cl inp k :
  forall fuel i c,
    String.length (strDrop i inp) <= fuel ->
    iterate (rmatch (Chr cl) inp) true k fuel i c = greedyScan cl k c (strDrop i inp) i.
Proof.
  induction fuel as [ | fuel IH]; intros i c Hf.
  - destruct (strDrop i inp) as [ | a t]; [reflexivity | simpl in Hf; lia].
  - cbn [iterate rmatch]. rewrite get_strDrop.
    destruct (strDrop i inp) as [ | a t] eqn:E; cbn [greedyScan].
    + reflexivity.
    + destruct (inClass cl a); [ | reflexivity].
      assert (Hlt : (i <? S i) = true) by (apply Nat.ltb_lt; lia). rewrite Hlt.
      apply strDrop_step in E. rewrite <- E, IH by (rewrite E; simpl in Hf; lia).
      reflexivity.
Qed.

(** A pattern anchored at the start matches there or nowhere. *)
Lemma execFrom_anchored r inp fuel :
  execFrom (Seq Bol r) inp fuel 0
  = match rmatch r inp 0 [] (fun j c => Some (j, c)) with
    | Some (j, c) => Some {| Regex.index := 0; lastIndex := j; groups := c |}
    | None => None
    end.
Proof.
  assert (Hlater : forall fuel i, execFrom (Seq Bol r) inp fuel (S i) = None).
  { clear fuel. induction fuel as [ | fuel IH]; intros i; simpl; [reflexivity | apply IH]. }
  destruct fuel as [ | fuel]; cbn [execFrom rmatch Nat.eqb];
    destruct (rmatch r inp 0 [] _) as [[j c] | ]; try reflexivity.
  apply Hlater.
Qed.

Lemma prefix_substring s inp i :
  String.eqb (String.substring i (String.length s) inp) s = String.prefix s (strDrop i inp).
Proof.
  rewrite substring_strDrop.
  destruct (String.prefix s (strDrop i inp)) eqn:E.
  - apply String.prefix_correct in E. rewrite E. apply String.eqb_refl.
  - apply String.eqb_neq. intros H. apply String.prefix_correct in H. congruence.
Qed.

(** The white space before a mark: the match is found exactly when a
    mark starts the text once its leading white space is dropped. *)
Lemma greedyScan_marks inp marks (k : cont) c :
  (forall j, found (k j c) = startsWithAny marks (strDrop j inp)) ->
  (forall a t, JS.isSpace a = true -> startsWithAny marks (String a t) = false) ->
  forall t i,
    strDrop i inp = t ->
    found (greedyScan CSpace k c t i) = startsWithAny marks (JS.trimStart t).
Proof.
  intros Hk Hm. induction t as [ | a t IH]; intros i E.
  - simpl. rewrite Hk, E. reflexivity.
  - cbn [greedyScan inClass JS.trimStart]. destruct (JS.isSpace a) eqn:Ea.
    + specialize (IH (S i) (strDrop_step _ _ _ _ E)).
      destruct (greedyScan CSpace k c t (S i)); [exact IH | ].
      rewrite Hk, E, Hm by exact Ea. exact IH.
    + rewrite Hk, E. reflexivity.
Qed.


Lemma mark_not_space (x : ascii) m t a :
  JS.isSpace x = false -> JS.isSpace a = true -> String.prefix (String x m) (String a t) = false.
Proof.
  intros Hx Ha. cbn [String.prefix]. destruct (ascii_dec x a) as [-> | _]; [congruence | reflexivity].
Qed.

(** The comment rule of the JavaScript, Java and C++ profiles. *)
Lemma slashComment_spec text :
  test slashComment text = startsWithAny ["//"; "/*"] (JS.trimStart text).
Proof.
  unfold test, exec, slashComment, seq, star, ws. cbn [foldr]. rewrite execFrom_anchored.
  cbn [rmatch].
  change (fun (i : nat) (c : captures) (k : cont) =>
            match String.get i text with
            | Some a => if inClass CSpace a then k (S i) c else None
            | None => None
            end) with (rmatch (Chr CSpace) text).
  rewrite iterate_greedy by (simpl; lia).
  set (k := fun (j : nat) (c' : captures) => rmatch _ text j c' _).
  transitivity (found (greedyScan CSpace k [] (strDrop 0 text) 0)).
  { destruct (greedyScan CSpace k [] (strDrop 0 text) 0) as [[j c] | ]; reflexivity. }
  apply (greedyScan_marks text); [ | | reflexivity].
  - intros j. subst k. unfold lits, alt. cbn [map foldl rmatch].
    rewrite !prefix_substring. unfold startsWithAny. cbn [existsb].
    destruct (String.prefix "//" (strDrop j text)); [reflexivity | ].
    destruct (String.prefix "/*" (strDrop j text)); reflexivity.
  - intros a t Ha. unfold startsWithAny. cbn [existsb].
    rewrite !mark_not_space by (reflexivity || exact Ha). reflexivity.
Qed.

(** The comment rule of the Python profile. *)
Lemma hashComment_spec text :
  test (seq [Bol; star ws; chr "#"]) text = startsWithAny ["#"] (JS.trimStart text).
Proof.
  unfold test, exec, seq, star, ws. cbn [foldr]. rewrite execFrom_anchored.
  cbn [rmatch].
  change (fun (i : nat) (c : captures) (k : cont) =>
            match String.get i text with
            | Some a => if inClass CSpace a then k (S i) c else None
            | None => None
            end) with (rmatch (Chr CSpace) text).
  rewrite iterate_greedy by (simpl; lia).
  set (k := fun (j : nat) (c' : captures) => rmatch _ text j c' _).
  transitivity (found (greedyScan CSpace k [] (strDrop 0 text) 0)).
  { destruct (greedyScan CSpace k [] (strDrop 0 text) 0) as [[j c] | ]; reflexivity. }
  apply (greedyScan_marks text); [ | | reflexivity].
  - intros j. subst k. unfold chr. cbn [rmatch inClass]. rewrite get_strDrop.
    unfold startsWithAny. cbn [existsb].
    destruct (strDrop j text) as [ | a t]; [reflexivity | ].
    cbn [String.prefix]. destruct (ascii_dec "#" a) as [<- | Hne].
    + destruct t; reflexivity.
    + assert (E : Ascii.eqb a "#" = false) by (apply Ascii.eqb_neq; congruence).
      rewrite E. reflexivity.
  - intros a t Ha. unfold startsWithAny. cbn [existsb].
    rewrite !mark_not_space by (reflexivity || exact Ha). reflexivity.
Qed.


Lemma upTo_prefix x t : forall inner,
  upTo x t = Some inner -> String.substring 0 (String.length inner) t = inner.
Proof.
  induction t as [ | a t IH]; intros inner H; [discriminate | ].
  cbn [upTo] in H. destruct (Ascii.eqb a x).
  { injection H as <-. reflexivity. }
  destruct (JS.isLineTerminator a); [discriminate | ].
  destruct (upTo x t) as [w | ]; [ | discriminate].
  injection H as <-. simpl. rewrite (IH w eq_refl). reflexivity.
Qed.

(** The lazy scan for the character [x] that closes the group [n], from
    the index [j] on; the group opens at [i1]. *)
Lemma lazyScan_close inp x n i1 c0 :
  forall t j,
    strDrop j inp = t ->
    lazyScan CDot
      (fun j c' =>
         match String.get j inp with
         | Some a =>
             if Ascii.eqb a x
             then Some (S j, (n, String.substring i1 (j - i1) inp) :: c')
             else None
         | None => None
         end) c0 t j
    = match upTo x t with
      | Some inner =>
          Some (S (j + String.length inner),
                (n, String.substring i1 (j + String.length inner - i1) inp) :: c0)
      | None => None
      end.
Proof.
  induction t as [ | a t IH]; intros j E; cbn [lazyScan upTo]; rewrite get_strDrop, E.
  - reflexivity.
  - destruct (Ascii.eqb a x).
    { simpl. rewrite Nat.add_0_r. reflexivity. }
    cbn [inClass]. destruct (JS.isLineTerminator a); [reflexivity | ]. cbn [negb].
    rewrite (IH (S j) (strDrop_step _ _ _ _ E)).
    destruct (upTo x t) as [w | ]; [ | reflexivity].
    simpl. replace (j + S (String.length w)) with (S (j + String.length w)) by lia.
    reflexivity.
Qed.

(** A lazy group that the character [x] closes, at the index [j]. *)
Lemma rmatch_lazy_group inp x n j c :
  rmatch (Seq (Group n (Star false (Chr CDot))) (Seq (Chr (COne x)) Eps)) inp j c
         (fun j c => Some (j, c))
  = match upTo x (strDrop j inp) with
    | Some inner => Some (S (j + String.length inner), (n, inner) :: c)
    | None => None
    end.
Proof.
  cbn [rmatch].
  change (fun (i0 : nat) (c : captures) (k : cont) =>
            match String.get i0 inp with
            | Some a0 => if inClass CDot a0 then k (S i0) c else None
            | None => None
            end) with (rmatch (Chr CDot) inp).
  rewrite iterate_lazy by (rewrite strDrop_length; lia).
  etransitivity; [exact (lazyScan_close inp x n j c (strDrop j inp) j eq_refl) | ].
  destruct (upTo x (strDrop j inp)) as [inner | ] eqn:Eu; [ | reflexivity].
  replace (j + String.length inner - j) with (String.length inner) by lia.
  rewrite substring_strDrop, (upTo_prefix x _ inner Eu). reflexivity.
Qed.

(** The pattern of the parentheses at the index [i]. *)
Lemma rmatch_parentheses inp i :
  rmatch reParentheses inp i [] (fun j c => Some (j, c))
  = match strDrop i inp with
    | String a t =>
        if Ascii.eqb a "("
        then match upTo ")" t with
             | Some inner => Some (S (S (i + String.length inner)), [(1, inner)])
             | None => None
             end
        else None
    | EmptyString => None
    end.
Proof.
  unfold reParentheses, seq, lazy, dot, chr. cbn [foldr].
  change (rmatch (Seq (Chr (COne "(")) ?r) inp i [] ?k)
    with (match String.get i inp with
          | Some a => if inClass (COne "(") a then rmatch r inp (S i) [] k else None
          | None => None
          end).
  rewrite get_strDrop. destruct (strDrop i inp) as [ | a t] eqn:E; [reflexivity | ].
  cbn [inClass]. destruct (Ascii.eqb a "("); [ | reflexivity].
  rewrite rmatch_lazy_group, (strDrop_step _ _ _ _ E). reflexivity.
Qed.

(** The leftmost match of the parentheses captures the first group. *)
Lemma execFrom_parentheses inp :
  forall fuel i,
    fuel = String.length inp - i ->
    match execFrom reParentheses inp fuel i with
    | Some m => group 1 m
    | None => None
    end = firstGroup (strDrop i inp).
Proof.
  induction fuel as [ | fuel IH]; intros i Hf; cbn [execFrom]; rewrite rmatch_parentheses.
  - pose proof (strDrop_length inp i) as Hl. rewrite <- Hf in Hl.
    destruct (strDrop i inp) as [ | a t]; [reflexivity | discriminate Hl].
  - destruct (strDrop i inp) as [ | a t] eqn:E.
    + pose proof (strDrop_length inp i) as Hl. rewrite E, <- Hf in Hl. discriminate Hl.
    + apply strDrop_step in E as E'. cbn [firstGroup].
      assert (Hrest : match execFrom reParentheses inp fuel (S i) with
                      | Some m => group 1 m
                      | None => None
                      end = firstGroup t).
      { rewrite <- E'. apply IH. lia. }
      destruct (Ascii.eqb a "("); [ | exact Hrest].
      destruct (upTo ")" t) as [inner | ]; [reflexivity | exact Hrest].
Qed.

Lemma trimStart_strDrop t : strDrop (leadingSpaces t) t = JS.trimStart t.
Proof.
  induction t as [ | a t IH]; [reflexivity | ].
  simpl. destruct (JS.isSpace a); [exact IH | reflexivity].
Qed.

(** A greedy run of white space before a continuation that does not
    succeed earlier when it fails later takes the whole run. *)
Lemma greedyScan_longest inp (k : cont) c :
  (forall j a t', strDrop j inp = String a t' -> JS.isSpace a = true ->
                  k (S j) c = None -> k j c = None) ->
  forall t i,
    strDrop i inp = t ->
    greedyScan CSpace k c t i = k (i + leadingSpaces t) c /\
    (k (i + leadingSpaces t) c = None -> k i c = None).
Proof.
  intros Hk. induction t as [ | a t IH]; intros i E.
  - simpl. rewrite Nat.add_0_r. auto.
  - cbn [greedyScan inClass leadingSpaces]. destruct (JS.isSpace a) eqn:Ea.
    + destruct (IH (S i) (strDrop_step _ _ _ _ E)) as [H1 H2].
      replace (i + S (leadingSpaces t)) with (S i + leadingSpaces t) by lia.
      rewrite H1. split.
      * destruct (k (S i + leadingSpaces t) c) eqn:Ek; [reflexivity | ].
        apply (Hk i a t E Ea), H2. reflexivity.
      * intros Hn. apply (Hk i a t E Ea), H2, Hn.
    + rewrite Nat.add_0_r. auto.
Qed.

(** One white-space character or more, then the rest. *)
Lemma rmatch_plus_spaces r inp q c k :
  rmatch (Seq (Seq (Chr CSpace) (Star true (Chr CSpace))) r) inp q c k
  = match strDrop q inp with
    | String a rest =>
        if JS.isSpace a
        then greedyScan CSpace (fun j c' => rmatch r inp j c' k) c rest (S q)
        else None
    | EmptyString => None
    end.
Proof.
  change (rmatch (Seq (Seq (Chr CSpace) (Star true (Chr CSpace))) r) inp q c k)
    with (match String.get q inp with
          | Some a =>
              if inClass CSpace a
              then iterate (rmatch (Chr CSpace) inp) true
                           (fun j c' => rmatch r inp j c' k) (String.length inp) (S q) c
              else None
          | None => None
          end).
  rewrite get_strDrop. destruct (strDrop q inp) as [ | a rest] eqn:E; [reflexivity | ].
  cbn [inClass]. destruct (JS.isSpace a); [ | reflexivity].
  rewrite iterate_greedy by (rewrite strDrop_length; lia).
  rewrite (strDrop_step _ _ _ _ E). reflexivity.
Qed.

Lemma keyword_exclusive t :
  (String.prefix "if" t = true -> String.prefix "while" t = false /\ String.prefix "elif" t = false) /\
  (String.prefix "while" t = true -> String.prefix "elif" t = false).
Proof.
  destruct t as [ | a t]; [split; intros H; cbn in H; discriminate H | ].
  cbn [String.prefix].
  destruct (ascii_dec "i" a) as [Ei | Ei], (ascii_dec "w" a) as [Ew | Ew],
    (ascii_dec "e" a) as [Ee | Ee];
    split; intros; try split; try reflexivity; congruence.
Qed.

Lemma prefix_length s t : String.prefix s t = true -> String.length s <= String.length t.
Proof.
  intros H. apply String.prefix_correct in H. apply (f_equal String.length) in H.
  pose proof (substring_length_le t 0 (String.length s)) as Hl. rewrite H in Hl. lia.
Qed.

(** One of the three keywords at the index [j], as the group 1. *)
Lemma rmatch_keyword r inp j c k :
  rmatch (Seq (Group 1 (lits ["if"; "while"; "elif"])) r) inp j c k
  = match afterKeyword (strDrop j inp) with
    | Some rest =>
        let n := String.length (strDrop j inp) - String.length rest in
        rmatch r inp (j + n) ((1, String.substring j (j + n - j) inp) :: c) k
    | None => None
    end.
Proof.
  unfold lits, alt. cbn [map foldl rmatch]. rewrite !prefix_substring.
  unfold afterKeyword. destruct (keyword_exclusive (strDrop j inp)) as [Hi Hw].
  pose proof (strDrop_length (strDrop j inp)) as Hl.
  destruct (String.prefix "if" (strDrop j inp)) eqn:E1.
  { destruct (Hi eq_refl) as [-> ->]. cbv zeta. rewrite Hl.
    assert (Hlen : 2 <= String.length (strDrop j inp)) by apply (prefix_length "if" _ E1).
    replace (String.length (strDrop j inp) - (String.length (strDrop j inp) - 2))
      with 2 by lia.
    cbn [String.length]. destruct (rmatch r inp (j + 2) _ k); reflexivity. }
  destruct (String.prefix "while" (strDrop j inp)) eqn:E2.
  { rewrite (Hw eq_refl). cbv zeta. rewrite Hl.
    assert (Hlen : 5 <= String.length (strDrop j inp)) by apply (prefix_length "while" _ E2).
    replace (String.length (strDrop j inp) - (String.length (strDrop j inp) - 5))
      with 5 by lia.
    cbn [String.length]. destruct (rmatch r inp (j + 5) _ k); reflexivity. }
  destruct (String.prefix "elif" (strDrop j inp)) eqn:E3; [ | reflexivity].
  cbv zeta. rewrite Hl.
  assert (Hlen : 4 <= String.length (strDrop j inp)) by apply (prefix_length "elif" _ E3).
  replace (String.length (strDrop j inp) - (String.length (strDrop j inp) - 4))
    with 4 by lia.
  reflexivity.
Qed.

Lemma afterKeyword_space a t : JS.isSpace a = true -> afterKeyword (String a t) = None.
Proof.
  intros Ha. unfold afterKeyword.
  rewrite !mark_not_space by (reflexivity || exact Ha). reflexivity.
Qed.


Lemma afterKeyword_drop t rest :
  afterKeyword t = Some rest -> strDrop (String.length t - String.length rest) t = rest.
Proof.
  unfold afterKeyword. intros H.
  assert (Hn : forall n, n <= String.length t -> rest = strDrop n t ->
                         strDrop (String.length t - String.length rest) t = rest).
  { intros n Hle ->. rewrite strDrop_length.
    replace (String.length t - (String.length t - n)) with n by lia. reflexivity. }
  destruct (String.prefix "if" t) eqn:E1.
  { apply (Hn 2); [apply (prefix_length "if" t E1) | congruence]. }
  destruct (String.prefix "while" t) eqn:E2.
  { apply (Hn 5); [apply (prefix_length "while" t E2) | congruence]. }
  destruct (String.prefix "elif" t) eqn:E3; [ | discriminate].
  apply (Hn 4); [apply (prefix_length "elif" t E3) | congruence].
Qed.

Lemma rmatch_star_seq g cl r inp i c k :
  rmatch (Seq (Star g (Chr cl)) r) inp i c k
  = iterate (rmatch (Chr cl) inp) g (fun j c' => rmatch r inp j c' k)
            (String.length inp) i c.
Proof. reflexivity. Qed.

(** The pattern of the Python profile captures the condition. *)
Lemma exec_pythonStyle text :
  match exec rePythonStyle text with
  | Some m => group 2 m
  | None => None
  end = pythonCondition text.
Proof.
  unfold exec, rePythonStyle, seq, star, plus, lazy, ws, dot, chr. cbn [foldr].
  rewrite execFrom_anchored, rmatch_star_seq, iterate_greedy by (simpl; lia).
  change (strDrop 0 text) with text.
  match goal with
  | |- context [greedyScan CSpace ?k0 [] text 0] => set (k1 := k0)
  end.
  assert (Hk1 : forall j a t', strDrop j text = String a t' -> JS.isSpace a = true ->
                               k1 (S j) [] = None -> k1 j [] = None).
  { intros j a t' E Ea _. subst k1. cbv beta. rewrite rmatch_keyword, E.
    rewrite (afterKeyword_space a t' Ea). reflexivity. }
  destruct (greedyScan_longest text k1 [] Hk1 text 0 eq_refl) as [-> _].
  cbn [Nat.add]. subst k1. cbv beta. rewrite rmatch_keyword, trimStart_strDrop.
  unfold pythonCondition.
  destruct (afterKeyword (JS.trimStart text)) as [rest | ] eqn:Ek; [ | reflexivity].
  cbv zeta. apply afterKeyword_drop in Ek.
  set (n := String.length (JS.trimStart text) - String.length rest) in *.
  set (p := leadingSpaces text).
  rewrite rmatch_plus_spaces.
  assert (Edrop : strDrop (p + n) text = rest).
  { rewrite strDrop_add. unfold p. rewrite trimStart_strDrop. exact Ek. }
  rewrite Edrop. destruct rest as [ | a rest']; [reflexivity | ].
  destruct (JS.isSpace a); [ | reflexivity].
  match goal with
  | |- context [greedyScan CSpace ?k0 ?c0 rest' _] => set (k3 := k0); set (c1 := c0)
  end.
  assert (Hk3 : forall j a0 t0, strDrop j text = String a0 t0 -> JS.isSpace a0 = true ->
                                k3 (S j) c1 = None -> k3 j c1 = None).
  { intros j a0 t0 E Ea. subst k3. cbv beta. rewrite !rmatch_lazy_group.
    rewrite E, (strDrop_step _ _ _ _ E). cbn [upTo].
    assert (Hc : Ascii.eqb a0 ":" = false).
    { apply Ascii.eqb_neq. intros ->. discriminate Ea. }
    rewrite Hc. destruct (upTo ":" t0); [discriminate | ].
    intros _. destruct (JS.isLineTerminator a0); reflexivity. }
  pose proof (strDrop_step _ _ _ _ Edrop) as Estep.
  destruct (greedyScan_longest text k3 c1 Hk3 rest' (S (p + n)) Estep) as [-> _].
  subst k3. cbv beta. rewrite rmatch_lazy_group, strDrop_add, Estep, trimStart_strDrop.
  destruct (upTo ":" (JS.trimStart rest')); reflexivity.
Qed.

(** The condition of a line, in every profile. *)
Lemma extractCondition_spec this text :
  extractCondition this text = Some (conditionText this text).
Proof.
  unfold extractCondition, conditionText. destruct (String.eqb (language this) "python").
  - pose proof (exec_pythonStyle text) as H.
    destruct (exec rePythonStyle text) as [m | ] eqn:E.
    + destruct (exec_mandatory rePythonStyle text 2 m eq_refl E) as [w Hw].
      rewrite <- H, Hw. reflexivity.
    + rewrite <- H. reflexivity.
  - pose proof (execFrom_parentheses text (String.length text) 0) as H.
    rewrite Nat.sub_0_r in H. specialize (H eq_refl). fold (exec reParentheses text) in H.
    change (strDrop 0 text) with text in H.
    destruct (exec reParentheses text) as [m | ] eqn:E.
    + destruct (exec_mandatory reParentheses text 1 m eq_refl E) as [w Hw].
      rewrite <- H, Hw. reflexivity.
    + rewrite <- H. reflexivity.
Qed.

(** A conditional or a while loop takes its condition from
    [extractCondition]. *)
Lemma analyzeLine_extracts this text ln ind s :
  usable (CodeParser.patterns this) ->
  analyzeLine this text ln ind = Normal s ->
  type s = "if" \/ type s = "while" -> condition s = extractCondition this text.
Proof.
  intros Hu. unfold analyzeLine.
  destruct (guardedTest (pat_variable _) text) eqn:Ev.
  { destruct (guarded_match _ _ Ev) as [m ->]. simpl. intros H. inversion H.
    simpl. intros [Hty | Hty]; discriminate Hty. }
  destruct (guardedTest (pat_function _) text) eqn:Ef.
  { destruct (guarded_match _ _ Ef) as [m ->]. simpl. intros H. inversion H.
    simpl. intros [Hty | Hty]; discriminate Hty. }
  destruct (guardedTest (pat_if _) text) eqn:Ei.
  { intros H. inversion H. reflexivity. }
  destruct (guardedTest (pat_for _) text) eqn:Eo.
  { destruct (extractLoopInfo_total this text "for") as [info ->]. simpl.
    intros H. inversion H. simpl. intros [Hty | Hty]; discriminate Hty. }
  destruct (guardedTest (pat_while _) text) eqn:Ew.
  { intros H. inversion H. reflexivity. }
  destruct (guardedTest (pat_return _) text) eqn:Er.
  { intros H. inversion H. simpl. intros [Hty | Hty]; discriminate Hty. }
  destruct (extractFunctionCall_total this text Hu) as [fc ->]. cbn [bind].
  destruct fc as [fc | ].
  { intros H. inversion H. simpl. intros [Hty | Hty]; discriminate Hty. }
  destruct (guardedTest (pat_assignment _) text) eqn:Ea.
  { destruct Hu as (Hv & _). destruct (plainTest_some _ text Hv) as [b ->]. cbn [bind].
    destruct b; cbn [negb bind].
    - intros H. inversion H. simpl. intros [Hty | Hty]; discriminate Hty.
    - destruct (guarded_match _ _ Ea) as [m ->]. simpl.
      intros H. inversion H. simpl. intros [Hty | Hty]; discriminate Hty. }
  cbn [bind]. intros H. inversion H. simpl. intros [Hty | Hty]; discriminate Hty.
Qed.

End ScanFacts.

Import ScanFacts.

(** X24.  The comment lines.  [isComment] tells a comment by the first
    characters of the line, once its leading white space is dropped: two
    slashes, or a slash and a star, in the JavaScript, Java and C++ profiles
    and for a language name that has no profile; a hash sign in the Python
    profile; nothing for an inherited property name.  A line inside a block
    comment that does not start so is no comment. *)
Theorem comment_lines (language text : string) :
  isComment (CodeParser.new language) text
  = startsWithAny (commentMarks language) (JS.trimStart text).
Proof.
  unfold isComment, CodeParser.new, getLanguagePatterns, commentMarks.
  cbn [CodeParser.patterns].
  destruct (String.eqb language "javascript") eqn:Ejs.
  { apply String.eqb_eq in Ejs. subst language. apply slashComment_spec. }
  destruct (String.eqb language "python") eqn:Epy; [apply hashComment_spec | ].
  destruct (String.eqb language "java") eqn:Ejava.
  { apply String.eqb_eq in Ejava. subst language. apply slashComment_spec. }
  destruct (String.eqb language "cpp") eqn:Ecpp.
  { apply String.eqb_eq in Ecpp. subst language. apply slashComment_spec. }
  destruct (existsb (String.eqb language) inheritedKeys); [reflexivity | ].
  apply slashComment_spec.
Qed.

(** X25.  The condition.  The condition of a line is, in the Python profile,
    the text between one of the keywords if, while and elif with the white
    space after it and the first colon; in every other profile, the text
    between the first opening parenthesis that is closed on the line and the
    closing parenthesis that comes first after it; and the word condition when
    there is none.  So a condition with a colon or with parentheses of its own
    is cut at the first colon or closing parenthesis.  For every language name
    but an inherited property name, the conditionals and while loops of a
    parsed text have this condition. *)
Theorem condition_is_cut (language source : string) :
  existsb (String.eqb language) inheritedKeys = false ->
  let this := CodeParser.new language in
  (forall text, extractCondition this text = Some (conditionText this text)) /\
  exists a,
    parseCode this source = Normal a /\
    Forall (fun s => type s = "if" \/ type s = "while" ->
                     condition s = Some (conditionText this (code s)))
           (statements a).
Proof.
  intros Hk. cbv zeta.
  destruct (parseCode_full language source Hk) as (Hu & a & Ha & F).
  destruct F as (_ & _ & _ & Hc & _).
  split; [intros text; apply extractCondition_spec | ].
  exists a. split; [exact Ha | ].
  eapply Forall_impl; [exact Hc | ]. intros s (text & ln & ind & Hs) Hty.
  pose proof (analyzeLine_position _ _ _ _ _ Hu Hs) as Hp.
  unfold position in Hp. injection Hp as _ -> _.
  rewrite (analyzeLine_extracts _ _ _ _ _ Hu Hs Hty). apply extractCondition_spec.
Qed.

Lemma condition_is_cut_witness :
  let this := CodeParser.new "python" in
  (forall text, extractCondition this text = Some (conditionText this text)) /\
  exists a,
    parseCode this (unlines ["if x[1:2] > 0:"; "    y = 1"]) = Normal a /\
    Forall (fun s => type s = "if" \/ type s = "while" ->
                     condition s = Some (conditionText this (code s)))
           (statements a).
Proof. apply (condition_is_cut "python"). reflexivity. Defined.

(** * The variable rule of the Python profile *)

Module TargetFacts.
Import Regex CodeParser Vocabulary RegexFacts ParserFacts TokenFacts LineFacts ScanFacts.

(** A greedy run of a class before a continuation that does not succeed
    earlier when it fails later takes the whole run. *)
Lemma greedyScan_run cl inp (k : cont) c :
  (forall j a t', strDrop j inp = String a t' -> inClass cl a = true ->
                  k (S j) c = None -> k j c = None) ->
  forall t i,
    strDrop i inp = t ->
    greedyScan cl k c t i = k (i + run cl t) c /\
    (k (i + run cl t) c = None -> k i c = None).
Proof.
  intros Hk. induction t as [ | a t IH]; intros i E.
  - simpl. rewrite Nat.add_0_r. auto.
  - cbn [greedyScan run]. destruct (inClass cl a) eqn:Ea.
    + destruct (IH (S i) (strDrop_step _ _ _ _ E)) as [H1 H2].
      replace (i + S (run cl t)) with (S i + run cl t) by lia.
      rewrite H1. split.
      * destruct (k (S i + run cl t) c) eqn:Ek; [reflexivity | ].
        apply (Hk i a t E Ea), H2. reflexivity.
      * intros Hn. apply (Hk i a t E Ea), H2, Hn.
    + rewrite Nat.add_0_r. auto.
Qed.

(** Optional white space and an equals sign, at the index [j]. *)
Lemma rmatch_equals inp j c :
  rmatch (Seq (Star true (Chr CSpace)) (Seq (Chr (COne "=")) Eps)) inp j c
         (fun j c => Some (j, c))
  = match JS.trimStart (strDrop j inp) with
    | String a _ =>
        if Ascii.eqb a "=" then Some (S (j + leadingSpaces (strDrop j inp)), c) else None
    | EmptyString => None
    end.
Proof.
  rewrite rmatch_star_seq, iterate_greedy by (rewrite strDrop_length; lia).
  match goal with
  | |- context [greedyScan CSpace ?k0 c _ j] => set (k := k0)
  end.
  assert (Hat : forall i, k i c = match strDrop i inp with
                                  | String a _ => if Ascii.eqb a "=" then Some (S i, c) else None
                                  | EmptyString => None
                                  end).
  { intros i. subst k. cbn [rmatch inClass]. rewrite get_strDrop.
    destruct (strDrop i inp); reflexivity. }
  assert (Hk : forall i a t', strDrop i inp = String a t' -> JS.isSpace a = true ->
                              k (S i) c = None -> k i c = None).
  { intros i a t' E Ea _. rewrite Hat, E.
    assert (Hc : Ascii.eqb a "=" = false).
    { apply Ascii.eqb_neq. intros ->. discriminate Ea. }
    rewrite Hc. reflexivity. }
  destruct (greedyScan_longest inp k c Hk (strDrop j inp) j eq_refl) as [-> _].
  rewrite Hat, strDrop_add, trimStart_strDrop. reflexivity.
Qed.


Lemma space_not_word a : JS.isSpace a = true -> JS.isWord a = false.
Proof.
  destruct a as [[] [] [] [] [] [] [] []]; intros H; try reflexivity; discriminate H.
Qed.

(** A group of one character of a class or more, then the rest. *)
Lemma rmatch_plus_group cl n r inp j c k :
  rmatch (Seq (Group n (Seq (Chr cl) (Star true (Chr cl)))) r) inp j c k
  = match strDrop j inp with
    | String a rest =>
        if inClass cl a
        then greedyScan cl
               (fun j' c' => rmatch r inp j' ((n, String.substring j (j' - j) inp) :: c') k)
               c rest (S j)
        else None
    | EmptyString => None
    end.
Proof.
  change (rmatch (Seq (Group n (Seq (Chr cl) (Star true (Chr cl)))) r) inp j c k)
    with (match String.get j inp with
          | Some a =>
              if inClass cl a
              then iterate (rmatch (Chr cl) inp) true
                     (fun j' c' =>
                        rmatch r inp j' ((n, String.substring j (j' - j) inp) :: c') k)
                     (String.length inp) (S j) c
              else None
          | None => None
          end).
  rewrite get_strDrop. destruct (strDrop j inp) as [ | a rest] eqn:E; [reflexivity | ].
  destruct (inClass cl a); [ | reflexivity].
  rewrite iterate_greedy by (rewrite strDrop_length; lia).
  rewrite (strDrop_step _ _ _ _ E). reflexivity.
Qed.

(** The variable rule of the Python profile finds the target of the
    line, and captures nothing else. *)
Lemma exec_pythonVariable text :
  match matchRule (pat_variable python) text with
  | Some m => Some (groups m)
  | None => None
  end = (fun w => [(1, w)]) <$> pythonTarget text.
Proof.
  unfold matchRule, python, pat_variable, exec, seq, star, plus, ws, word, chr. cbn [foldr].
  rewrite execFrom_anchored, rmatch_star_seq, iterate_greedy by (simpl; lia).
  change (strDrop 0 text) with text.
  match goal with
  | |- context [greedyScan CSpace ?k0 [] text 0] => set (k1 := k0)
  end.
  assert (Hk1 : forall j a t', strDrop j text = String a t' -> JS.isSpace a = true ->
                               k1 (S j) [] = None -> k1 j [] = None).
  { intros j a t' E Ea _. subst k1. cbv beta. rewrite rmatch_plus_group, E.
    cbn [inClass]. rewrite (space_not_word a Ea). reflexivity. }
  destruct (greedyScan_longest text k1 [] Hk1 text 0 eq_refl) as [-> _].
  cbn [Nat.add]. subst k1. cbv beta. rewrite rmatch_plus_group, trimStart_strDrop.
  unfold pythonTarget. cbv zeta.
  set (p := leadingSpaces text).
  pose proof (trimStart_strDrop text) as Et. fold p in Et.
  destruct (JS.trimStart text) as [ | a rest] eqn:E; [reflexivity | ].
  cbn [inClass run]. destruct (JS.isWord a) eqn:Ea; [ | reflexivity].
  cbn [Nat.eqb].
  match goal with
  | |- context [greedyScan CWord ?k0 [] rest _] => set (k2 := k0)
  end.
  assert (Hk2 : forall j a0 t0, strDrop j text = String a0 t0 -> inClass CWord a0 = true ->
                                k2 (S j) [] = None -> k2 j [] = None).
  { intros j a0 t0 E0 Ea0 _. subst k2. cbv beta. rewrite rmatch_equals, E0.
    cbn [inClass] in Ea0. cbn [JS.trimStart].
    assert (Hs : JS.isSpace a0 = false).
    { destruct (JS.isSpace a0) eqn:Es; [ | reflexivity].
      rewrite (space_not_word a0 Es) in Ea0. discriminate. }
    assert (Hc : Ascii.eqb a0 "=" = false).
    { apply Ascii.eqb_neq. intros ->. discriminate Ea0. }
    rewrite Hs, Hc. reflexivity. }
  pose proof (strDrop_step _ _ _ _ Et) as Estep.
  destruct (greedyScan_run CWord text k2 [] Hk2 rest (S p) Estep) as [-> _].
  subst k2. cbv beta. rewrite rmatch_equals.
  replace (S p + run CWord rest) with (p + S (run CWord rest)) by lia.
  rewrite strDrop_add, Et.
  replace (p + S (run CWord rest) - p) with (S (run CWord rest)) by lia.
  rewrite (substring_strDrop text p), Et.
  destruct (JS.trimStart (strDrop (S (run CWord rest)) (String a rest))) as [ | b u];
    [reflexivity | ].
  destruct (Ascii.eqb b "="); reflexivity.
Qed.

End TargetFacts.

Import TargetFacts.

(** X26.  The variable rule of the Python profile.  A line is a statement of
    the kind variable exactly when, after its leading white space, it has word
    characters and then, with white space between at most, an equals sign; its
    name is those word characters, and they are the one name it declares.  So
    a comparison with two equals signs declares a variable too.  The
    statements of a parsed Python text are of the kind variable under this
    condition, with this name. *)
Theorem python_variable_rule (source : string) :
  let this := CodeParser.new "python" in
  (forall text ln ind,
     exists s,
       analyzeLine this text ln ind = Normal s /\
       (type s = "variable" <-> is_Some (pythonTarget text)) /\
       (type s = "variable" ->
        name s = pythonTarget text /\ variables s = Some [pythonTarget text])) /\
  exists a,
    parseCode this source = Normal a /\
    Forall (fun s => (type s = "variable" <-> is_Some (pythonTarget (code s))) /\
                     (type s = "variable" -> name s = pythonTarget (code s)))
           (statements a).
Proof.
  cbv zeta.
  assert (Hline : forall text ln ind,
             exists s,
               analyzeLine (CodeParser.new "python") text ln ind = Normal s /\
               (type s = "variable" <-> is_Some (pythonTarget text)) /\
               (type s = "variable" ->
                name s = pythonTarget text /\ variables s = Some [pythonTarget text])).
  { intros text ln ind.
    pose proof (usable_profile "python" eq_refl) as Hu.
    destruct (analyzeLine_kind (CodeParser.new "python") text ln ind Hu) as (s & Hs & Hty).
    exists s. split; [exact Hs | ].
    pose proof (exec_pythonVariable text) as Hx.
    unfold analyzeLine in Hs. unfold firstRule in Hty.
    change (CodeParser.patterns (CodeParser.new "python")) with python in *.
    destruct (guardedTest (pat_variable python) text) eqn:Ev.
    - destruct (guarded_match _ _ Ev) as [m Hm]. rewrite Hm in Hs, Hx.
      destruct (pythonTarget text) as [w | ]; [ | discriminate Hx].
      injection Hx as Hg. cbn [bind deref] in Hs. injection Hs as <-.
      unfold group. rewrite Hg. simpl. split; [split; eauto | auto].
    - assert (Hnot : type s <> "variable").
      { rewrite Hty. repeat destruct (guardedTest _ _); try discriminate.
        all: destruct (test reCall text); discriminate. }
      assert (Hnone : pythonTarget text = None).
      { destruct (matchRule (pat_variable python) text) as [m | ] eqn:Em.
        - exfalso. unfold guardedTest, test in Ev. unfold matchRule in Em.
          change (pat_variable python) with (Some (seq [Bol; star ws; Group 1 (plus word);
                                                         star ws; chr "="])) in *.
          cbv iota in *. rewrite Em in Ev. discriminate.
        - destruct (pythonTarget text); [discriminate Hx | reflexivity]. }
      rewrite Hnone. split; [split | ].
      + intros H. contradiction.
      + intros [w Hw]. discriminate.
      + intros H. contradiction. }
  split; [exact Hline | ].
  destruct (parseCode_full "python" source eq_refl) as (Hu & a & Ha & F).
  destruct F as (_ & _ & _ & Hc & _).
  exists a. split; [exact Ha | ].
  eapply Forall_impl; [exact Hc | ]. intros s (text & ln & ind & Hs).
  destruct (Hline text ln ind) as (s' & Hs' & Hiff & Hname).
  rewrite Hs in Hs'. injection Hs' as <-.
  pose proof (analyzeLine_position _ _ _ _ _ Hu Hs) as Hp.
  unfold position in Hp. injection Hp as _ -> _.
  split; [exact Hiff | ]. intros H. apply (Hname H).
Qed.

(** * The shape of a call *)

Module CallFacts.
Import Regex CodeParser Vocabulary RegexFacts ParserFacts TokenFacts LineFacts RuleFacts.
Import ScanFacts TargetFacts.

(** Optional white space and a character that is no white space, then
    the rest. *)
Lemma rmatch_spaces_char x r inp j c k :
  JS.isSpace x = false ->
  rmatch (Seq (Star true (Chr CSpace)) (Seq (Chr (COne x)) r)) inp j c k
  = match JS.trimStart (strDrop j inp) with
    | String a _ =>
        if Ascii.eqb a x
        then rmatch r inp (S (j + leadingSpaces (strDrop j inp))) c k
        else None
    | EmptyString => None
    end.
Proof.
  intros Hx. rewrite rmatch_star_seq, iterate_greedy by (rewrite strDrop_length; lia).
  match goal with
  | |- context [greedyScan CSpace ?k0 c _ j] => set (k1 := k0)
  end.
  assert (Hat : forall i, k1 i c = match strDrop i inp with
                                   | String a _ =>
                                       if Ascii.eqb a x then rmatch r inp (S i) c k else None
                                   | EmptyString => None
                                   end).
  { intros i. subst k1. cbn [rmatch inClass]. rewrite get_strDrop.
    destruct (strDrop i inp); reflexivity. }
  assert (Hk : forall i a t', strDrop i inp = String a t' -> JS.isSpace a = true ->
                              k1 (S i) c = None -> k1 i c = None).
  { intros i a t' E Ea _. rewrite Hat, E.
    assert (Hc : Ascii.eqb a x = false).
    { apply Ascii.eqb_neq. intros ->. congruence. }
    rewrite Hc. reflexivity. }
  destruct (greedyScan_longest inp k1 c Hk (strDrop j inp) j eq_refl) as [-> _].
  rewrite Hat, strDrop_add, trimStart_strDrop. reflexivity.
Qed.

(** The pattern of a call at the index [i]. *)
Lemma rmatch_call inp i :
  snd <$> rmatch reCall inp i [] (fun j c => Some (j, c))
  = (fun call => [(2, snd call); (1, fst call)]) <$> callAt (strDrop i inp).
Proof.
  unfold reCall, seq, star, plus, lazy, ws, word, dot, chr. cbn [foldr].
  rewrite rmatch_plus_group. unfold callAt. cbv zeta.
  destruct (strDrop i inp) as [ | a rest] eqn:E; [reflexivity | ].
  cbn [inClass run]. destruct (JS.isWord a) eqn:Ea; [ | reflexivity].
  cbn [Nat.eqb].
  match goal with
  | |- context [greedyScan CWord ?k0 [] rest _] => set (k2 := k0)
  end.
  assert (Hk2 : forall j a0 t0, strDrop j inp = String a0 t0 -> inClass CWord a0 = true ->
                                k2 (S j) [] = None -> k2 j [] = None).
  { intros j a0 t0 E0 Ea0 _. subst k2. cbv beta.
    rewrite rmatch_spaces_char by reflexivity. rewrite E0.
    cbn [inClass] in Ea0. cbn [JS.trimStart].
    assert (Hs : JS.isSpace a0 = false).
    { destruct (JS.isSpace a0) eqn:Es; [ | reflexivity].
      rewrite (space_not_word a0 Es) in Ea0. discriminate. }
    assert (Hc : Ascii.eqb a0 "(" = false).
    { apply Ascii.eqb_neq. intros ->. discriminate Ea0. }
    rewrite Hs, Hc. reflexivity. }
  pose proof (strDrop_step _ _ _ _ E) as Estep.
  destruct (greedyScan_run CWord inp k2 [] Hk2 rest (S i) Estep) as [-> _].
  subst k2. cbv beta. rewrite rmatch_spaces_char by reflexivity.
  replace (S i + run CWord rest) with (i + S (run CWord rest)) by lia.
  rewrite strDrop_add, E.
  replace (i + S (run CWord rest) - i) with (S (run CWord rest)) by lia.
  rewrite (substring_strDrop inp i), E.
  set (u := strDrop (S (run CWord rest)) (String a rest)).
  destruct (JS.trimStart u) as [ | b v] eqn:Eu; [reflexivity | ].
  destruct (Ascii.eqb b "("); [ | reflexivity].
  rewrite rmatch_lazy_group.
  assert (Ev : strDrop (S (i + S (run CWord rest) + leadingSpaces u)) inp = v).
  { apply (strDrop_step _ _ b). rewrite strDrop_add, strDrop_add, E. fold u.
    rewrite trimStart_strDrop. exact Eu. }
  rewrite Ev. destruct (upTo ")" v); reflexivity.
Qed.

(** The leftmost match of the pattern of a call is the first call. *)
Lemma execFrom_call inp :
  forall fuel i,
    fuel = String.length inp - i ->
    groups <$> execFrom reCall inp fuel i
    = (fun call => [(2, snd call); (1, fst call)]) <$> firstCall (strDrop i inp).
Proof.
  induction fuel as [ | fuel IH]; intros i Hf; cbn [execFrom];
    pose proof (rmatch_call inp i) as Hm.
  - pose proof (strDrop_length inp i) as Hl. rewrite <- Hf in Hl.
    destruct (strDrop i inp) as [ | a t]; [ | discriminate Hl].
    destruct (rmatch reCall inp i [] _) as [[j c] | ]; [discriminate Hm | reflexivity].
  - destruct (strDrop i inp) as [ | a t] eqn:E.
    + pose proof (strDrop_length inp i) as Hl. rewrite E, <- Hf in Hl. discriminate Hl.
    + apply strDrop_step in E as E'. cbn [firstCall].
      destruct (rmatch reCall inp i [] _) as [[j c] | ].
      * destruct (callAt (String a t)) as [call | ]; [ | discriminate Hm].
        simpl in Hm. injection Hm as ->. reflexivity.
      * destruct (callAt (String a t)); [discriminate Hm | ].
        rewrite <- E'. apply IH. lia.
Qed.

Lemma exec_call text :
  groups <$> exec reCall text
  = (fun call => [(2, snd call); (1, fst call)]) <$> firstCall text.
Proof.
  unfold exec. rewrite execFrom_call by lia. reflexivity.
Qed.


(** What [analyzeLine] reads from the first call of a line. *)
Lemma analyzeLine_call this text ln ind s :
  usable (CodeParser.patterns this) ->
  analyzeLine this text ln ind = Normal s -> callShaped text s.
Proof.
  intros Hu. unfold callShaped, analyzeLine.
  destruct (guardedTest (pat_variable _) text) eqn:Ev.
  { destruct (guarded_match _ _ Ev) as [m ->]. simpl. intros H. inversion H.
    simpl. split; [discriminate | intros [Hty | Hty]; discriminate Hty]. }
  destruct (guardedTest (pat_function _) text) eqn:Ef.
  { destruct (guarded_match _ _ Ef) as [m ->]. simpl. intros H. inversion H.
    simpl. split; [discriminate | intros [Hty | Hty]; discriminate Hty]. }
  destruct (guardedTest (pat_if _) text) eqn:Ei.
  { intros H. inversion H. simpl.
    split; [discriminate | intros [Hty | Hty]; discriminate Hty]. }
  destruct (guardedTest (pat_for _) text) eqn:Eo.
  { destruct (extractLoopInfo_total this text "for") as [info ->]. simpl.
    intros H. inversion H. simpl.
    split; [discriminate | intros [Hty | Hty]; discriminate Hty]. }
  destruct (guardedTest (pat_while _) text) eqn:Ew.
  { intros H. inversion H. simpl.
    split; [discriminate | intros [Hty | Hty]; discriminate Hty]. }
  destruct (guardedTest (pat_return _) text) eqn:Er.
  { intros H. inversion H. simpl.
    split; [discriminate | intros [Hty | Hty]; discriminate Hty]. }
  pose proof (exec_call text) as Hx. unfold extractFunctionCall.
  destruct (exec reCall text) as [m | ].
  - destruct (firstCall text) as [[nm args] | ]; [ | discriminate Hx].
    simpl in Hx. injection Hx as Hg.
    destruct Hu as (_ & [ri Hi] & rf & Hf & _). rewrite Hf, Hi in *.
    simpl in Ef, Ei. cbn [plainTest bind]. rewrite Ef. cbn [bind]. rewrite Ei. cbn [bind].
    intros H. inversion H. cbn [type function arguments fc_name fc_args].
    unfold group. rewrite Hg. simpl. split.
    + intros _. exists nm, args. auto.
    + intros [Hty | Hty]; discriminate Hty.
  - destruct (firstCall text); [discriminate Hx | ]. cbn [bind].
    destruct (guardedTest (pat_assignment _) text) eqn:Ea.
    { destruct Hu as (Hv & _). destruct (plainTest_some _ text Hv) as [b ->]. cbn [bind].
      destruct b; cbn [negb bind].
      - intros H. inversion H. simpl. split; [discriminate | reflexivity].
      - destruct (guarded_match _ _ Ea) as [m ->]. simpl.
        intros H. inversion H. simpl. split; [discriminate | reflexivity]. }
    cbn [bind]. intros H. inversion H. simpl. split; [discriminate | reflexivity].
Qed.

End CallFacts.

Import CallFacts.

(** X27.  The shape of a call.  For every language name but an inherited
    property name: a statement of the kind call names the function of the
    first call of its line, from left to right, a call being one word
    character or more, then, with white space between at most, a
    parenthesis that is closed on the line; its arguments are the pieces
    between commas, trimmed, of the text before the first closing
    parenthesis.  A line of the kind assignment or statement has no call.
    The statements of a parsed text are so. *)
Theorem call_shape (language source : string) :
  existsb (String.eqb language) inheritedKeys = false ->
  let this := CodeParser.new language in
  (forall text ln ind s, analyzeLine this text ln ind = Normal s -> callShaped text s) /\
  exists a,
    parseCode this source = Normal a /\
    Forall (fun s => callShaped (code s) s) (statements a).
Proof.
  intros Hk. cbv zeta.
  destruct (parseCode_full language source Hk) as (Hu & a & Ha & F).
  destruct F as (_ & _ & _ & Hc & _).
  split; [intros text ln ind s Hs; apply (analyzeLine_call _ _ _ _ _ Hu Hs) | ].
  exists a. split; [exact Ha | ].
  eapply Forall_impl; [exact Hc | ]. intros s (text & ln & ind & Hs).
  pose proof (analyzeLine_position _ _ _ _ _ Hu Hs) as Hp.
  unfold position in Hp. injection Hp as _ -> _.
  apply (analyzeLine_call _ _ _ _ _ Hu Hs).
Qed.

Lemma call_shape_witness :
  let this := CodeParser.new "javascript" in
  (forall text ln ind s, analyzeLine this text ln ind = Normal s -> callShaped text s) /\
  exists a,
    parseCode this (unlines ["total = obj.add(1, f(2));"; "total = 3;"]) = Normal a /\
    Forall (fun s => callShaped (code s) s) (statements a).
Proof. apply (call_shape "javascript"). reflexivity. Defined.

(** * The function rule *)

Module NameFacts.
Import Regex CodeParser Vocabulary RegexFacts ParserFacts TokenFacts LineFacts RuleFacts.
Import ScanFacts TargetFacts CallFacts.

(** One character of a class or more, then the rest. *)
Lemma rmatch_plus_class cl r inp q c k :
  rmatch (Seq (Seq (Chr cl) (Star true (Chr cl))) r) inp q c k
  = match strDrop q inp with
    | String a rest =>
        if inClass cl a
        then greedyScan cl (fun j c' => rmatch r inp j c' k) c rest (S q)
        else None
    | EmptyString => None
    end.
Proof.
  change (rmatch (Seq (Seq (Chr cl) (Star true (Chr cl))) r) inp q c k)
    with (match String.get q inp with
          | Some a =>
              if inClass cl a
              then iterate (rmatch (Chr cl) inp) true
                           (fun j c' => rmatch r inp j c' k) (String.length inp) (S q) c
              else None
          | None => None
          end).
  rewrite get_strDrop. destruct (strDrop q inp) as [ | a rest] eqn:E; [reflexivity | ].
  destruct (inClass cl a); [ | reflexivity].
  rewrite iterate_greedy by (rewrite strDrop_length; lia).
  rewrite (strDrop_step _ _ _ _ E). reflexivity.
Qed.

Lemma word_not_space a : JS.isWord a = true -> JS.isSpace a = false.
Proof.
  intros H. destruct (JS.isSpace a) eqn:E; [ | reflexivity].
  rewrite (space_not_word a E) in H. discriminate.
Qed.

(** Word characters, optional white space and an opening parenthesis, as
    the group 1, at the index [j]. *)
Lemma rmatch_name inp j c :
  snd <$> rmatch (Seq (Group 1 (Seq (Chr CWord) (Star true (Chr CWord))))
                      (Seq (Star true (Chr CSpace)) (Seq (Chr (COne "(")) Eps)))
                 inp j c (fun j c => Some (j, c))
  = (let u := strDrop j inp in
     let n := run CWord u in
     if n =? 0 then None
     else match JS.trimStart (strDrop n u) with
          | String b _ =>
              if Ascii.eqb b "(" then Some ((1, String.substring 0 n u) :: c) else None
          | EmptyString => None
          end).
Proof.
  rewrite rmatch_plus_group. cbv zeta.
  destruct (strDrop j inp) as [ | a rest] eqn:E; [reflexivity | ].
  cbn [inClass run]. destruct (JS.isWord a) eqn:Ea; [ | reflexivity].
  cbn [Nat.eqb].
  match goal with
  | |- context [greedyScan CWord ?k0 c rest _] => set (k2 := k0)
  end.
  assert (Hk2 : forall i a0 t0, strDrop i inp = String a0 t0 -> inClass CWord a0 = true ->
                                k2 (S i) c = None -> k2 i c = None).
  { intros i a0 t0 E0 Ea0 _. subst k2. cbv beta.
    rewrite rmatch_spaces_char by reflexivity. rewrite E0.
    cbn [inClass] in Ea0. cbn [JS.trimStart]. rewrite (word_not_space a0 Ea0).
    assert (Hc : Ascii.eqb a0 "(" = false).
    { apply Ascii.eqb_neq. intros ->. discriminate Ea0. }
    rewrite Hc. reflexivity. }
  pose proof (strDrop_step _ _ _ _ E) as Estep.
  destruct (greedyScan_run CWord inp k2 c Hk2 rest (S j) Estep) as [-> _].
  subst k2. cbv beta. rewrite rmatch_spaces_char by reflexivity.
  replace (S j + run CWord rest) with (j + S (run CWord rest)) by lia.
  rewrite strDrop_add, E.
  replace (j + S (run CWord rest) - j) with (S (run CWord rest)) by lia.
  rewrite (substring_strDrop inp j), E.
  destruct (JS.trimStart (strDrop (S (run CWord rest)) (String a rest))) as [ | b v];
    [reflexivity | ].
  destruct (Ascii.eqb b "("); reflexivity.
Qed.

(** White space, then a name before an opening parenthesis. *)
Lemma rmatch_name_tail inp q c :
  snd <$> rmatch (Seq (Seq (Chr CSpace) (Star true (Chr CSpace)))
                      (Seq (Group 1 (Seq (Chr CWord) (Star true (Chr CWord))))
                           (Seq (Star true (Chr CSpace)) (Seq (Chr (COne "(")) Eps))))
                 inp q c (fun j c => Some (j, c))
  = (fun nm => (1, nm) :: c) <$> nameBeforeParen (strDrop q inp).
Proof.
  rewrite rmatch_plus_class. unfold nameBeforeParen.
  destruct (strDrop q inp) as [ | a rest] eqn:E; [reflexivity | ].
  cbn [inClass]. destruct (JS.isSpace a); [ | reflexivity].
  match goal with
  | |- context [greedyScan CSpace ?k0 c rest _] => set (k1 := k0)
  end.
  assert (Hk1 : forall i a0 t0, strDrop i inp = String a0 t0 -> JS.isSpace a0 = true ->
                                k1 (S i) c = None -> k1 i c = None).
  { intros i a0 t0 E0 Ea0 _. subst k1. cbv beta. rewrite rmatch_plus_group, E0.
    cbn [inClass]. rewrite (space_not_word a0 Ea0). reflexivity. }
  pose proof (strDrop_step _ _ _ _ E) as Estep.
  destruct (greedyScan_longest inp k1 c Hk1 rest (S q) Estep) as [-> _].
  subst k1. cbv beta. rewrite rmatch_name, strDrop_add, Estep, trimStart_strDrop.
  cbv zeta. destruct (run CWord (JS.trimStart rest) =? 0); [reflexivity | ].
  destruct (JS.trimStart (strDrop _ (JS.trimStart rest))) as [ | b v]; [reflexivity | ].
  destruct (Ascii.eqb b "("); reflexivity.
Qed.


Lemma groups_snd (x : option (nat * captures)) :
  groups <$> match x with
             | Some (j, c) => Some {| Regex.index := 0; lastIndex := j; groups := c |}
             | None => None
             end = snd <$> x.
Proof. destruct x as [[j c] | ]; reflexivity. Qed.

(** The function rule with a keyword. *)
Lemma exec_keyword_rule (x : ascii) (m text : string) :
  JS.isSpace x = false ->
  let kw := String x m in
  groups <$> exec (seq [Bol; star ws; Lit kw; plus ws; Group 1 (plus word); star ws;
                        chr "("]) text
  = (fun nm => [(1, nm)]) <$> definedAfter kw text.
Proof.
  intros Hx kw. unfold exec, seq, star, plus, ws, word, chr. cbn [foldr].
  rewrite execFrom_anchored, groups_snd, rmatch_star_seq, iterate_greedy by (simpl; lia).
  change (strDrop 0 text) with text.
  match goal with
  | |- context [greedyScan CSpace ?k0 [] text 0] => set (k1 := k0)
  end.
  assert (Hat : forall j,
             k1 j [] = if String.prefix kw (strDrop j text)
                       then rmatch (Seq (Seq (Chr CSpace) (Star true (Chr CSpace)))
                                      (Seq (Group 1 (Seq (Chr CWord) (Star true (Chr CWord))))
                                         (Seq (Star true (Chr CSpace))
                                            (Seq (Chr (COne "(")) Eps))))
                                   text (j + String.length kw) [] (fun j c => Some (j, c))
                       else None).
  { intros j. subst k1. cbv beta.
    change (rmatch (Seq (Lit kw) ?r) text j [] ?k)
      with (if String.eqb (String.substring j (String.length kw) text) kw
            then rmatch r text (j + String.length kw) [] k else None).
    rewrite prefix_substring. reflexivity. }
  assert (Hk1 : forall j a t', strDrop j text = String a t' -> JS.isSpace a = true ->
                               k1 (S j) [] = None -> k1 j [] = None).
  { intros j a t' E Ea _. rewrite Hat, E. unfold kw.
    rewrite (mark_not_space x m t' a Hx Ea). reflexivity. }
  destruct (greedyScan_longest text k1 [] Hk1 text 0 eq_refl) as [-> _].
  cbn [Nat.add]. rewrite Hat, trimStart_strDrop. unfold definedAfter. cbv zeta.
  destruct (String.prefix kw (JS.trimStart text)); [ | reflexivity].
  rewrite rmatch_name_tail, strDrop_add, trimStart_strDrop. reflexivity.
Qed.

Lemma fmap_none {X Y} (f : X -> Y) (x : option X) : f <$> x = None -> x = None.
Proof. destruct x; [discriminate | reflexivity]. Qed.

(** The function rule of the C++ profile. *)
Lemma exec_word_rule text :
  groups <$> exec (seq [Bol; star ws; plus word; plus ws; Group 1 (plus word); star ws;
                        chr "("]) text
  = (fun nm => [(1, nm)]) <$> definedAfterWord text.
Proof.
  unfold exec, seq, star, plus, ws, word, chr. cbn [foldr].
  rewrite execFrom_anchored, groups_snd, rmatch_star_seq, iterate_greedy by (simpl; lia).
  change (strDrop 0 text) with text.
  match goal with
  | |- context [greedyScan CSpace ?k0 [] text 0] => set (k1 := k0)
  end.
  assert (Hk1 : forall j a t', strDrop j text = String a t' -> JS.isSpace a = true ->
                               k1 (S j) [] = None -> k1 j [] = None).
  { intros j a t' E Ea _. subst k1. cbv beta. rewrite rmatch_plus_class, E.
    cbn [inClass]. rewrite (space_not_word a Ea). reflexivity. }
  destruct (greedyScan_longest text k1 [] Hk1 text 0 eq_refl) as [-> _].
  cbn [Nat.add]. subst k1. cbv beta. rewrite rmatch_plus_class, trimStart_strDrop.
  unfold definedAfterWord. cbv zeta.
  set (p := leadingSpaces text).
  pose proof (trimStart_strDrop text) as Et. fold p in Et.
  destruct (JS.trimStart text) as [ | a rest] eqn:E; [reflexivity | ].
  cbn [inClass run]. destruct (JS.isWord a) eqn:Ea; [ | reflexivity].
  cbn [Nat.eqb].
  match goal with
  | |- context [greedyScan CWord ?k0 [] rest _] => set (k2 := k0)
  end.
  assert (Hk2 : forall j a0 t0, strDrop j text = String a0 t0 -> inClass CWord a0 = true ->
                                k2 (S j) [] = None -> k2 j [] = None).
  { intros j a0 t0 E0 Ea0 _. subst k2. cbv beta.
    apply (fmap_none snd). rewrite rmatch_name_tail, E0. unfold nameBeforeParen.
    cbn [inClass] in Ea0. rewrite (word_not_space a0 Ea0). reflexivity. }
  pose proof (strDrop_step _ _ _ _ Et) as Estep.
  destruct (greedyScan_run CWord text k2 [] Hk2 rest (S p) Estep) as [-> _].
  subst k2. cbv beta. rewrite rmatch_name_tail.
  replace (S p + run CWord rest) with (p + S (run CWord rest)) by lia.
  rewrite strDrop_add, Et. reflexivity.
Qed.

(** The function rule of the profiles other than the Java one. *)
Lemma function_rule language text :
  existsb (String.eqb language) ("java" :: inheritedKeys) = false ->
  groups <$> matchRule (pat_function (getLanguagePatterns language)) text
  = (fun nm => [(1, nm)]) <$> functionName language text.
Proof.
  intros Hk. cbn [existsb] in Hk. apply orb_false_iff in Hk as [Hjava Hk].
  unfold getLanguagePatterns, functionName. rewrite Hjava, Hk.
  destruct (String.eqb language "javascript") eqn:Ejs.
  { apply String.eqb_eq in Ejs. subst language. apply (exec_keyword_rule "f" "unction" text eq_refl). }
  destruct (String.eqb language "python") eqn:Epy.
  { apply (exec_keyword_rule "d" "ef" text eq_refl). }
  destruct (String.eqb language "cpp") eqn:Ecpp.
  { apply exec_word_rule. }
  apply (exec_keyword_rule "f" "unction" text eq_refl).
Qed.

(** A function statement takes its name from the function rule. *)
Lemma analyzeLine_function this text ln ind s :
  analyzeLine this text ln ind = Normal s ->
  type s = "function" ->
  exists m, matchRule (pat_function (CodeParser.patterns this)) text = Some m /\
            name s = JS.orElse (group 1 m) (group 3 m).
Proof.
  unfold analyzeLine.
  destruct (guardedTest (pat_variable _) text) eqn:Ev.
  { destruct (matchRule (pat_variable _) text); cbn [deref bind]; [ | discriminate].
    intros H. inversion H. simpl. discriminate. }
  destruct (guardedTest (pat_function _) text) eqn:Ef.
  { destruct (matchRule (pat_function _) text) as [m | ]; cbn [deref bind]; [ | discriminate].
    intros H. inversion H. simpl. eauto. }
  destruct (guardedTest (pat_if _) text) eqn:Ei.
  { intros H. inversion H. simpl. discriminate. }
  destruct (guardedTest (pat_for _) text) eqn:Eo.
  { destruct (extractLoopInfo this text "for"); cbn [bind]; [ | discriminate].
    intros H. inversion H. simpl. discriminate. }
  destruct (guardedTest (pat_while _) text) eqn:Ew.
  { intros H. inversion H. simpl. discriminate. }
  destruct (guardedTest (pat_return _) text) eqn:Er.
  { intros H. inversion H. simpl. discriminate. }
  destruct (extractFunctionCall this text) as [fc | ]; cbn [bind]; [ | discriminate].
  destruct fc as [fc | ].
  { intros H. inversion H. simpl. discriminate. }
  destruct (guardedTest (pat_assignment _) text) eqn:Ea.
  { destruct (plainTest (pat_variable _) text) as [b | ]; cbn [bind]; [ | discriminate].
    destruct b; cbn [negb bind].
    - intros H. inversion H. simpl. discriminate.
    - destruct (matchRule (pat_assignment _) text); cbn [deref bind]; [ | discriminate].
      intros H. inversion H. simpl. discriminate. }
  cbn [bind]. intros H. inversion H. simpl. discriminate.
Qed.

End NameFacts.

Import NameFacts.

(** X28.  The names of functions.  For every language name but "java" and
    an inherited property name: a statement of the kind function is named by
    the first word after the keyword of its line, the line being white
    space, the keyword ("def" in the Python profile, "function" in the
    JavaScript one, which is also the fallback, and any word in the C++
    one), white space, the name, and, with white space between at most,
    an opening parenthesis; the name is never missing.  Every such line
    that the variable rule does not take is of the kind function.  The
    statements of a parsed text are so. *)
Theorem function_names (language source : string) :
  existsb (String.eqb language) ("java" :: inheritedKeys) = false ->
  let this := CodeParser.new language in
  (forall text ln ind s,
      analyzeLine this text ln ind = Normal s -> type s = "function" ->
      is_Some (name s) /\ name s = functionName language text) /\
  (forall text ln ind,
      guardedTest (pat_variable (CodeParser.patterns this)) text = false ->
      is_Some (functionName language text) ->
      exists s, analyzeLine this text ln ind = Normal s /\
                type s = "function" /\ name s = functionName language text) /\
  exists a,
    parseCode this source = Normal a /\
    Forall (fun s => type s = "function" ->
                     is_Some (name s) /\ name s = functionName language (code s))
           (statements a).
Proof.
  intros Hk. cbv zeta.
  assert (Hk' : existsb (String.eqb language) inheritedKeys = false).
  { cbn [existsb] in Hk. apply orb_false_iff in Hk as [_ Hk]. exact Hk. }
  destruct (parseCode_full language source Hk') as (Hu & a & Ha & F).
  destruct F as (_ & _ & _ & Hc & _).
  assert (Hone : forall text ln ind s,
             analyzeLine (CodeParser.new language) text ln ind = Normal s ->
             type s = "function" ->
             is_Some (name s) /\ name s = functionName language text).
  { intros text ln ind s Hs Ht.
    destruct (analyzeLine_function _ _ _ _ _ Hs Ht) as (m & Hm & Hn).
    pose proof (function_rule language text Hk) as Hr.
    change (CodeParser.patterns (CodeParser.new language))
      with (getLanguagePatterns language) in Hm.
    rewrite Hm in Hr. cbn in Hr.
    destruct Hu as (_ & _ & r & Hf & Hsolid).
    change (CodeParser.patterns (CodeParser.new language))
      with (getLanguagePatterns language) in Hf.
    unfold matchRule in Hm. rewrite Hf in Hm.
    pose proof (function_name_defined r text m Hsolid Hm) as Hd.
    rewrite <- Hn in Hd. split; [exact Hd | ].
    destruct (functionName language text) as [nm | ]; [ | discriminate Hr].
    injection Hr as Hg. rewrite Hn in Hd |- *. unfold group in *. rewrite Hg in *.
    unfold JS.orElse in *. cbn in *. destruct (JS.truthy nm); [reflexivity | ].
    destruct Hd as [x Hx]. discriminate Hx. }
  split; [exact Hone | ]. split.
  - intros text ln ind Hv [nm Hnm].
    pose proof (function_rule language text Hk) as Hr. rewrite Hnm in Hr.
    change (CodeParser.patterns (CodeParser.new language))
      with (getLanguagePatterns language) in *.
    destruct (matchRule (pat_function (getLanguagePatterns language)) text) as [m | ] eqn:Hm;
      [ | discriminate Hr].
    assert (Hf : guardedTest (pat_function (getLanguagePatterns language)) text = true).
    { destruct Hu as (_ & _ & r & Hf & _). unfold guardedTest, matchRule, test in *.
      rewrite Hf in *. rewrite Hm. reflexivity. }
    assert (Hs : exists s, analyzeLine (CodeParser.new language) text ln ind = Normal s /\
                           type s = "function").
    { unfold analyzeLine.
      change (CodeParser.patterns (CodeParser.new language))
        with (getLanguagePatterns language).
      rewrite Hv, Hf, Hm. cbn [deref bind]. eexists. split; reflexivity. }
    destruct Hs as (s & Hs & Ht). exists s. split; [exact Hs | ]. split; [exact Ht | ].
    apply (Hone _ _ _ _ Hs Ht).
  - exists a. split; [exact Ha | ].
    eapply Forall_impl; [exact Hc | ]. intros s (text & ln & ind & Hs).
    pose proof (analyzeLine_position _ _ _ _ _ Hu Hs) as Hp.
    unfold position in Hp. injection Hp as _ -> _.
    apply (Hone _ _ _ _ Hs).
Qed.

Lemma function_names_witness :
  let this := CodeParser.new "cpp" in
  let source := unlines ["int add (int a, int b) {"; "  return add(a, b);"; "}"] in
  (forall text ln ind s,
      analyzeLine this text ln ind = Normal s -> type s = "function" ->
      is_Some (name s) /\ name s = functionName "cpp" text) /\
  (forall text ln ind,
      guardedTest (pat_variable (CodeParser.patterns this)) text = false ->
      is_Some (functionName "cpp" text) ->
      exists s, analyzeLine this text ln ind = Normal s /\
                type s = "function" /\ name s = functionName "cpp" text) /\
  exists a,
    parseCode this source = Normal a /\
    Forall (fun s => type s = "function" ->
                     is_Some (name s) /\ name s = functionName "cpp" (code s))
           (statements a).
Proof. apply (function_names "cpp"). reflexivity. Defined.

(** * The lines of code *)

Module CommentFacts.
Import Regex CodeParser Vocabulary RegexFacts ParserFacts CacheFacts ScanFacts.

(** A text stripped of its leading white space is empty or starts with a
    character that is no white space. *)
Lemma trimStart_head text :
  match JS.trimStart text with
  | EmptyString => allSpace text = true
  | String a _ => JS.isSpace a = false /\ allSpace text = false
  end.
Proof.
  induction text as [ | a t IH]; [reflexivity | ].
  cbn [JS.trimStart allSpace]. destruct (JS.isSpace a) eqn:Ea.
  - destruct (JS.trimStart t); simpl; exact IH.
  - split; [exact Ea | reflexivity].
Qed.

Lemma trimEnd_head a t :
  JS.isSpace a = false -> exists t', JS.trimEnd (String a t) = String a t'.
Proof.
  intros Ha. cbn [JS.trimEnd]. destruct (JS.trimEnd t); rewrite ?Ha; eauto.
Qed.

(** A line is blank exactly when it is white space only. *)
Lemma truthy_trim text : JS.truthy (JS.trim text) = negb (allSpace text).
Proof.
  unfold JS.trim. pose proof (trimStart_head text) as H.
  destruct (JS.trimStart text) as [ | a t].
  - rewrite H. reflexivity.
  - destruct H as [Ha ->]. destruct (trimEnd_head a t Ha) as [t' ->]. reflexivity.
Qed.

(** Dropping the trailing white space does not change how a text starts,
    as far as texts without white space go. *)
Lemma prefix_trimEnd u : forall m,
  noSpace m = true -> String.prefix m (JS.trimEnd u) = String.prefix m u.
Proof.
  induction u as [ | a u IH]; intros m Hm; [reflexivity | ].
  destruct m as [ | x m]; [destruct (JS.trimEnd (String a u)); reflexivity | ].
  cbn [noSpace] in Hm. apply andb_true_iff in Hm as [Hx Hm].
  apply negb_true_iff in Hx.
  specialize (IH m Hm). cbn [JS.trimEnd].
  destruct (JS.trimEnd u) as [ | b t] eqn:E.
  - destruct (JS.isSpace a) eqn:Ea.
    + symmetry. apply mark_not_space; assumption.
    + cbn [String.prefix]. destruct (ascii_dec x a); [ | reflexivity].
      rewrite <- IH. destruct m; reflexivity.
  - cbn [String.prefix]. destruct (ascii_dec x a); [exact IH | reflexivity].
Qed.

Lemma startsWithAny_trim marks text :
  forallb noSpace marks = true ->
  startsWithAny marks (JS.trimStart (JS.trim text))
  = startsWithAny marks (JS.trimStart text).
Proof.
  intros Hm. unfold JS.trim.
  assert (Hs : JS.trimStart (JS.trimEnd (JS.trimStart text))
               = JS.trimEnd (JS.trimStart text)).
  { pose proof (trimStart_head text) as H.
    destruct (JS.trimStart text) as [ | a t]; [reflexivity | ].
    destruct H as [Ha _]. destruct (trimEnd_head a t Ha) as [t' ->].
    cbn [JS.trimStart]. rewrite Ha. reflexivity. }
  rewrite Hs. unfold startsWithAny.
  induction marks as [ | m marks IH]; [reflexivity | ].
  cbn [forallb] in Hm. apply andb_true_iff in Hm as [H1 H2].
  cbn [existsb]. rewrite (prefix_trimEnd _ m H1), (IH H2). reflexivity.
Qed.

(** The comment rule of a profile, by its marks. *)
Lemma isComment_marks language text :
  isComment (CodeParser.new language) text
  = startsWithAny (commentMarks language) (JS.trimStart text).
Proof.
  unfold isComment, CodeParser.new, getLanguagePatterns, commentMarks.
  cbn [CodeParser.patterns].
  destruct (String.eqb language "javascript") eqn:Ejs.
  { apply String.eqb_eq in Ejs. subst language. apply slashComment_spec. }
  destruct (String.eqb language "python") eqn:Epy; [apply hashComment_spec | ].
  destruct (String.eqb language "java") eqn:Ejava.
  { apply String.eqb_eq in Ejava. subst language. apply slashComment_spec. }
  destruct (String.eqb language "cpp") eqn:Ecpp.
  { apply String.eqb_eq in Ecpp. subst language. apply slashComment_spec. }
  destruct (existsb (String.eqb language) inheritedKeys); [reflexivity | ].
  apply slashComment_spec.
Qed.

Lemma commentMarks_noSpace language : forallb noSpace (commentMarks language) = true.
Proof.
  unfold commentMarks. destruct (String.eqb language "python"); [reflexivity | ].
  destruct (existsb (String.eqb language) inheritedKeys); reflexivity.
Qed.

(** The lines the parser keeps are the lines of code. *)
Lemma isStatementLine_code language text :
  isStatementLine (CodeParser.new language) text = codeLine language text.
Proof.
  unfold isStatementLine, codeLine.
  rewrite truthy_trim, isComment_marks,
    (startsWithAny_trim _ _ (commentMarks_noSpace language)).
  reflexivity.
Qed.

Lemma statementLines_code language lines : forall n,
  statementLines (CodeParser.new language) n lines = codeLines language n lines.
Proof.
  unfold statementLines, codeLines.
  induction lines as [ | text rest IH]; intros n; [reflexivity | ].
  cbn [numbered]. pose proof (isStatementLine_code language text) as E.
  destruct (codeLine language text) eqn:Ec.
  - rewrite !filter_cons_True by (simpl; rewrite ?E, ?Ec; exact I).
    cbn [map]. f_equal. apply IH.
  - rewrite !filter_cons_False by (simpl; rewrite ?E, ?Ec; exact (fun H => H)). apply IH.
Qed.

Lemma codeLines_length language n lines :
  length (codeLines language n lines)
  = length (filter (fun text => codeLine language text) lines).
Proof.
  unfold codeLines. rewrite length_map. revert n.
  induction lines as [ | text rest IH]; intros n; [reflexivity | ]. simpl.
  destruct (codeLine language text) eqn:E.
  - rewrite !filter_cons_True by (simpl; rewrite ?E; exact I). simpl. f_equal. apply IH.
  - rewrite !filter_cons_False by (simpl; rewrite ?E; exact (fun H => H)). apply IH.
Qed.

End CommentFacts.

Import CommentFacts.

(** C5.  For every profile and every input text the classifier returns
    normally (it never throws), and its statements are, in order, the
    non-blank, non-comment lines of the text, each with its line number and
    its trimmed text: one statement for each such line, so as many
    statements as such lines.  A blank line is a line of white space only;
    a comment line is a line that starts, after its leading white space,
    with a comment mark of the profile: two slashes, or a slash and a star,
    in the JavaScript, Java and C++ profiles, and a hash sign in the Python
    profile.  Every statement has a kind of the data model, and a line no
    rule applies to gets the generic kind. *)
Theorem classification_total (language source : string) :
  language ∈ supportedLanguages CodeAnalyzer.new ->
  let this := CodeParser.new language in
  let lines := JS.split "010" source in
  (exists a,
     parseCode this source = Normal a /\
     origin <$> statements a = codeLines language 1 lines /\
     length (statements a) = length (filter (fun text => codeLine language text) lines) /\
     Forall (fun s => type s ∈ statementKinds) (statements a)) /\
  (forall text ln ind,
     exists s, analyzeLine this text ln ind = Normal s /\
               (unmatched this text -> type s = "statement")).
Proof.
  intros Hin this lines. subst lines.
  pose proof (supported_usable language Hin) as Hu. fold this in Hu.
  split.
  - destruct (parseCode_spec this source Hu) as (a & Hp & Ho & _ & Hc & _).
    unfold this in Ho. rewrite statementLines_code in Ho.
    exists a. split; [exact Hp | split; [exact Ho | split]].
    + rewrite <- (codeLines_length language 1), <- Ho, length_fmap. reflexivity.
    + eapply Forall_impl; [exact Hc | ].
      intros s Hs. apply (classified_facts this s Hu Hs).
  - intros text ln ind.
    destruct (analyzeLine_total this text ln ind Hu) as (s & Hs & F).
    exists s. split; [exact Hs | tauto].
Qed.

(** C5, on a Python text of six lines, two of them statements; and on
    a closing brace, a line no rule of the JavaScript profile applies to. *)
Lemma classification_total_witness :
  (let this := CodeParser.new "python" in
   let source := unlines ["x = 1"; "# note"; ""; "   "; "  # more"; "  print(x)"] in
   let lines := JS.split "010" source in
   (exists a,
      parseCode this source = Normal a /\
      origin <$> statements a = codeLines "python" 1 lines /\
      length (statements a) = length (filter (fun text => codeLine "python" text) lines) /\
      Forall (fun s => type s ∈ statementKinds) (statements a)) /\
   (forall text ln ind,
      exists s, analyzeLine this text ln ind = Normal s /\
                (unmatched this text -> type s = "statement"))) /\
  (exists s, analyzeLine (CodeParser.new "javascript") "}" 7 0 = Normal s /\
             type s = "statement").
Proof.
  split.
  - apply (classification_total "python"
             (unlines ["x = 1"; "# note"; ""; "   "; "  # more"; "  print(x)"])).
    simpl. rewrite !elem_of_cons. right. left. reflexivity.
  - destruct (classification_total "javascript" "") as [_ H].
    + simpl. rewrite !elem_of_cons. left. reflexivity.
    + destruct (H "}" 7 0) as (s & Hs & Hty). exists s. split; [exact Hs | ].
      apply Hty. repeat split.
Defined.
